(** * LMRL-Gym evaluation glue: generation_eval.py and create_percent_bc_data.py

    A shallow embedding of the two Python source files and the properties
    stated about them.

    Conventions of the embedding.
    - A Python [str] is a list of Unicode code points.  [str.isspace]
      (behind [str.split] and [str.strip]) and [str.lower] follow the
      Unicode Character Database 14.0, the one of CPython 3.11: the
      lower-case mapping, its one two-character image and the final
      sigma that depends on the neighbouring letters.
    - Python exceptions are values of [exn]; a call that may raise returns
      a [result].
    - The floats of the metric code (means, deviations, ratios) are read as
      real numbers.
    - The numbers of the filter script are Python's: ints of any size and
      binary64 floats (SpecFloat) with infinities and NaN; [+] is IEEE
      addition after the conversion of an int operand, which can raise
      OverflowError, and [<] compares exact values and is false on NaN.
      [int(len(all_data) * percentage)] is computed bit for bit in
      binary64. *)

From Stdlib Require Import String Ascii Bool Arith ZArith NArith Lia.
From Stdlib Require Import Reals Lra SpecFloat.
From Stdlib Require QArith_base.
From Stdlib Require Import List Permutation Sorted Relations.
Import ListNotations.

(* ================================================================== *)
(** * Python runtime: exceptions *)

Inductive exn : Type :=
| AssertionError
| ValueError
| KeyError
| TypeError
| OverflowError.

Inductive result (A : Type) : Type :=
| Ok (a : A)
| Raise (e : exn).

Arguments Ok {A} a.
Arguments Raise {A} e.

Definition rbind {A B : Type} (r : result A) (k : A -> result B) : result B :=
  match r with
  | Ok a => k a
  | Raise e => Raise e
  end.

Fixpoint mapM {A B : Type} (f : A -> result B) (l : list A) : result (list B) :=
  match l with
  | [] => Ok []
  | x :: l' =>
      rbind (f x) (fun y => rbind (mapM f l') (fun ys => Ok (y :: ys)))
  end.

(* ================================================================== *)
(** * Python runtime: strings *)

(** A Python [str] is a sequence of Unicode code points. *)
Definition char : Type := N.

Definition str : Type := list char.

(** A literal of ASCII characters. *)
Definition lit (s : string) : str := map N_of_ascii (list_ascii_of_string s).

Definition mem (c : char) (l : list char) : bool := existsb (N.eqb c) l.

Definition in_ranges (c : char) (ranges : list (N * N)) : bool :=
  existsb (fun r => (fst r <=? c)%N && (c <=? snd r)%N) ranges.

(** The code points on which [str.isspace] holds, the separators of
    [str.split] and [str.strip]: TAB..CR, FS..US, SPACE, NEL, NBSP, OGHAM
    SPACE MARK, EN QUAD..HAIR SPACE, LINE and PARAGRAPH SEPARATOR, NARROW
    NBSP, MEDIUM MATHEMATICAL SPACE and IDEOGRAPHIC SPACE. *)
Definition whitespace : list char :=
  [ 9; 10; 11; 12; 13; 28; 29; 30; 31; 32; 133; 160; 5760;
    8192; 8193; 8194; 8195; 8196; 8197; 8198; 8199; 8200; 8201; 8202;
    8232; 8233; 8239; 8287; 12288 ]%N.

Definition is_space (c : char) : bool := mem c whitespace.

(** ** Letter case

    [str.lower] is driven by three tables of the Unicode Character
    Database (version 14.0, the one of CPython 3.11): the code points
    with the property Cased, those with the property Case_Ignorable, and
    the lower-case mapping. *)

(** Cased, as inclusive ranges. *)
Definition cased_ranges : list (N * N) := [
    (65,90); (97,122); (170,170); (181,181); (186,186); (192,214); (216,246);
    (248,442); (444,447); (452,659); (661,696); (704,705); (736,740);
    (837,837); (880,883); (886,887); (890,893); (895,895); (902,902);
    (904,906); (908,908); (910,929); (931,1013); (1015,1153); (1162,1327);
    (1329,1366); (1376,1416); (4256,4293); (4295,4295); (4301,4301);
    (4304,4346); (4349,4351); (5024,5109); (5112,5117); (7296,7304);
    (7312,7354); (7357,7359); (7424,7615); (7680,7957); (7960,7965);
    (7968,8005); (8008,8013); (8016,8023); (8025,8025); (8027,8027);
    (8029,8029); (8031,8061); (8064,8116); (8118,8124); (8126,8126);
    (8130,8132); (8134,8140); (8144,8147); (8150,8155); (8160,8172);
    (8178,8180); (8182,8188); (8305,8305); (8319,8319); (8336,8348);
    (8450,8450); (8455,8455); (8458,8467); (8469,8469); (8473,8477);
    (8484,8484); (8486,8486); (8488,8488); (8490,8493); (8495,8500);
    (8505,8505); (8508,8511); (8517,8521); (8526,8526); (8544,8575);
    (8579,8580); (9398,9449); (11264,11492); (11499,11502); (11506,11507);
    (11520,11557); (11559,11559); (11565,11565); (42560,42605); (42624,42653);
    (42786,42887); (42891,42894); (42896,42954); (42960,42961); (42963,42963);
    (42965,42969); (42997,42998); (43000,43002); (43824,43866); (43868,43880);
    (43888,43967); (64256,64262); (64275,64279); (65313,65338); (65345,65370);
    (66560,66639); (66736,66771); (66776,66811); (66928,66938); (66940,66954);
    (66956,66962); (66964,66965); (66967,66977); (66979,66993); (66995,67001);
    (67003,67004); (67456,67456); (67459,67461); (67463,67504); (67506,67514);
    (68736,68786); (68800,68850); (71840,71903); (93760,93823);
    (119808,119892); (119894,119964); (119966,119967); (119970,119970);
    (119973,119974); (119977,119980); (119982,119993); (119995,119995);
    (119997,120003); (120005,120069); (120071,120074); (120077,120084);
    (120086,120092); (120094,120121); (120123,120126); (120128,120132);
    (120134,120134); (120138,120144); (120146,120485); (120488,120512);
    (120514,120538); (120540,120570); (120572,120596); (120598,120628);
    (120630,120654); (120656,120686); (120688,120712); (120714,120744);
    (120746,120770); (120772,120779); (122624,122633); (122635,122654);
    (125184,125251); (127280,127305); (127312,127337); (127344,127369) ]%N.

(** Case_Ignorable, as inclusive ranges. *)
Definition case_ignorable_ranges : list (N * N) := [
    (39,39); (46,46); (58,58); (94,94); (96,96); (168,168); (173,173);
    (175,175); (180,180); (183,184); (688,879); (884,885); (890,890);
    (900,901); (903,903); (1155,1161); (1369,1369); (1375,1375); (1425,1469);
    (1471,1471); (1473,1474); (1476,1477); (1479,1479); (1524,1524);
    (1536,1541); (1552,1562); (1564,1564); (1600,1600); (1611,1631);
    (1648,1648); (1750,1757); (1759,1768); (1770,1773); (1807,1807);
    (1809,1809); (1840,1866); (1958,1968); (2027,2037); (2042,2042);
    (2045,2045); (2070,2093); (2137,2139); (2184,2184); (2192,2193);
    (2200,2207); (2249,2306); (2362,2362); (2364,2364); (2369,2376);
    (2381,2381); (2385,2391); (2402,2403); (2417,2417); (2433,2433);
    (2492,2492); (2497,2500); (2509,2509); (2530,2531); (2558,2558);
    (2561,2562); (2620,2620); (2625,2626); (2631,2632); (2635,2637);
    (2641,2641); (2672,2673); (2677,2677); (2689,2690); (2748,2748);
    (2753,2757); (2759,2760); (2765,2765); (2786,2787); (2810,2815);
    (2817,2817); (2876,2876); (2879,2879); (2881,2884); (2893,2893);
    (2901,2902); (2914,2915); (2946,2946); (3008,3008); (3021,3021);
    (3072,3072); (3076,3076); (3132,3132); (3134,3136); (3142,3144);
    (3146,3149); (3157,3158); (3170,3171); (3201,3201); (3260,3260);
    (3263,3263); (3270,3270); (3276,3277); (3298,3299); (3328,3329);
    (3387,3388); (3393,3396); (3405,3405); (3426,3427); (3457,3457);
    (3530,3530); (3538,3540); (3542,3542); (3633,3633); (3636,3642);
    (3654,3662); (3761,3761); (3764,3772); (3782,3782); (3784,3789);
    (3864,3865); (3893,3893); (3895,3895); (3897,3897); (3953,3966);
    (3968,3972); (3974,3975); (3981,3991); (3993,4028); (4038,4038);
    (4141,4144); (4146,4151); (4153,4154); (4157,4158); (4184,4185);
    (4190,4192); (4209,4212); (4226,4226); (4229,4230); (4237,4237);
    (4253,4253); (4348,4348); (4957,4959); (5906,5908); (5938,5939);
    (5970,5971); (6002,6003); (6068,6069); (6071,6077); (6086,6086);
    (6089,6099); (6103,6103); (6109,6109); (6155,6159); (6211,6211);
    (6277,6278); (6313,6313); (6432,6434); (6439,6440); (6450,6450);
    (6457,6459); (6679,6680); (6683,6683); (6742,6742); (6744,6750);
    (6752,6752); (6754,6754); (6757,6764); (6771,6780); (6783,6783);
    (6823,6823); (6832,6862); (6912,6915); (6964,6964); (6966,6970);
    (6972,6972); (6978,6978); (7019,7027); (7040,7041); (7074,7077);
    (7080,7081); (7083,7085); (7142,7142); (7144,7145); (7149,7149);
    (7151,7153); (7212,7219); (7222,7223); (7288,7293); (7376,7378);
    (7380,7392); (7394,7400); (7405,7405); (7412,7412); (7416,7417);
    (7468,7530); (7544,7544); (7579,7679); (8125,8125); (8127,8129);
    (8141,8143); (8157,8159); (8173,8175); (8189,8190); (8203,8207);
    (8216,8217); (8228,8228); (8231,8231); (8234,8238); (8288,8292);
    (8294,8303); (8305,8305); (8319,8319); (8336,8348); (8400,8432);
    (11388,11389); (11503,11505); (11631,11631); (11647,11647); (11744,11775);
    (11823,11823); (12293,12293); (12330,12333); (12337,12341); (12347,12347);
    (12441,12446); (12540,12542); (40981,40981); (42232,42237); (42508,42508);
    (42607,42610); (42612,42621); (42623,42623); (42652,42655); (42736,42737);
    (42752,42785); (42864,42864); (42888,42890); (42994,42996); (43000,43001);
    (43010,43010); (43014,43014); (43019,43019); (43045,43046); (43052,43052);
    (43204,43205); (43232,43249); (43263,43263); (43302,43309); (43335,43345);
    (43392,43394); (43443,43443); (43446,43449); (43452,43453); (43471,43471);
    (43493,43494); (43561,43566); (43569,43570); (43573,43574); (43587,43587);
    (43596,43596); (43632,43632); (43644,43644); (43696,43696); (43698,43700);
    (43703,43704); (43710,43711); (43713,43713); (43741,43741); (43756,43757);
    (43763,43764); (43766,43766); (43867,43871); (43881,43883); (44005,44005);
    (44008,44008); (44013,44013); (64286,64286); (64434,64450); (65024,65039);
    (65043,65043); (65056,65071); (65106,65106); (65109,65109); (65279,65279);
    (65287,65287); (65294,65294); (65306,65306); (65342,65342); (65344,65344);
    (65392,65392); (65438,65439); (65507,65507); (65529,65531); (66045,66045);
    (66272,66272); (66422,66426); (67456,67461); (67463,67504); (67506,67514);
    (68097,68099); (68101,68102); (68108,68111); (68152,68154); (68159,68159);
    (68325,68326); (68900,68903); (69291,69292); (69446,69456); (69506,69509);
    (69633,69633); (69688,69702); (69744,69744); (69747,69748); (69759,69761);
    (69811,69814); (69817,69818); (69821,69821); (69826,69826); (69837,69837);
    (69888,69890); (69927,69931); (69933,69940); (70003,70003); (70016,70017);
    (70070,70078); (70089,70092); (70095,70095); (70191,70193); (70196,70196);
    (70198,70199); (70206,70206); (70367,70367); (70371,70378); (70400,70401);
    (70459,70460); (70464,70464); (70502,70508); (70512,70516); (70712,70719);
    (70722,70724); (70726,70726); (70750,70750); (70835,70840); (70842,70842);
    (70847,70848); (70850,70851); (71090,71093); (71100,71101); (71103,71104);
    (71132,71133); (71219,71226); (71229,71229); (71231,71232); (71339,71339);
    (71341,71341); (71344,71349); (71351,71351); (71453,71455); (71458,71461);
    (71463,71467); (71727,71735); (71737,71738); (71995,71996); (71998,71998);
    (72003,72003); (72148,72151); (72154,72155); (72160,72160); (72193,72202);
    (72243,72248); (72251,72254); (72263,72263); (72273,72278); (72281,72283);
    (72330,72342); (72344,72345); (72752,72758); (72760,72765); (72767,72767);
    (72850,72871); (72874,72880); (72882,72883); (72885,72886); (73009,73014);
    (73018,73018); (73020,73021); (73023,73029); (73031,73031); (73104,73105);
    (73109,73109); (73111,73111); (73459,73460); (78896,78904); (92912,92916);
    (92976,92982); (92992,92995); (94031,94031); (94095,94111); (94176,94177);
    (94179,94180); (110576,110579); (110581,110587); (110589,110590);
    (113821,113822); (113824,113827); (118528,118573); (118576,118598);
    (119143,119145); (119155,119170); (119173,119179); (119210,119213);
    (119362,119364); (121344,121398); (121403,121452); (121461,121461);
    (121476,121476); (121499,121503); (121505,121519); (122880,122886);
    (122888,122904); (122907,122913); (122915,122916); (122918,122922);
    (123184,123197); (123566,123566); (123628,123631); (125136,125142);
    (125252,125259); (127995,127999); (917505,917505); (917536,917631);
    (917760,917999) ]%N.

(** The code points whose lower-case mapping is one other code point. *)
Definition lower_ranges : list (N * N * N * N) := [
    (65,90,1,97); (192,214,1,224); (216,222,1,248); (256,302,2,257);
    (306,310,2,307); (313,327,2,314); (330,374,2,331); (376,376,1,255);
    (377,381,2,378); (385,385,1,595); (386,388,2,387); (390,390,1,596);
    (391,391,1,392); (393,394,1,598); (395,395,1,396); (398,398,1,477);
    (399,399,1,601); (400,400,1,603); (401,401,1,402); (403,403,1,608);
    (404,404,1,611); (406,406,1,617); (407,407,1,616); (408,408,1,409);
    (412,412,1,623); (413,413,1,626); (415,415,1,629); (416,420,2,417);
    (422,422,1,640); (423,423,1,424); (425,425,1,643); (428,428,1,429);
    (430,430,1,648); (431,431,1,432); (433,434,1,650); (435,437,2,436);
    (439,439,1,658); (440,440,1,441); (444,444,1,445); (452,452,1,454);
    (453,453,1,454); (455,455,1,457); (456,456,1,457); (458,458,1,460);
    (459,475,2,460); (478,494,2,479); (497,497,1,499); (498,500,2,499);
    (502,502,1,405); (503,503,1,447); (504,542,2,505); (544,544,1,414);
    (546,562,2,547); (570,570,1,11365); (571,571,1,572); (573,573,1,410);
    (574,574,1,11366); (577,577,1,578); (579,579,1,384); (580,580,1,649);
    (581,581,1,652); (582,590,2,583); (880,882,2,881); (886,886,1,887);
    (895,895,1,1011); (902,902,1,940); (904,906,1,941); (908,908,1,972);
    (910,911,1,973); (913,929,1,945); (931,939,1,963); (975,975,1,983);
    (984,1006,2,985); (1012,1012,1,952); (1015,1015,1,1016);
    (1017,1017,1,1010); (1018,1018,1,1019); (1021,1023,1,891);
    (1024,1039,1,1104); (1040,1071,1,1072); (1120,1152,2,1121);
    (1162,1214,2,1163); (1216,1216,1,1231); (1217,1229,2,1218);
    (1232,1326,2,1233); (1329,1366,1,1377); (4256,4293,1,11520);
    (4295,4295,1,11559); (4301,4301,1,11565); (5024,5103,1,43888);
    (5104,5109,1,5112); (7312,7354,1,4304); (7357,7359,1,4349);
    (7680,7828,2,7681); (7838,7838,1,223); (7840,7934,2,7841);
    (7944,7951,1,7936); (7960,7965,1,7952); (7976,7983,1,7968);
    (7992,7999,1,7984); (8008,8013,1,8000); (8025,8031,2,8017);
    (8040,8047,1,8032); (8072,8079,1,8064); (8088,8095,1,8080);
    (8104,8111,1,8096); (8120,8121,1,8112); (8122,8123,1,8048);
    (8124,8124,1,8115); (8136,8139,1,8050); (8140,8140,1,8131);
    (8152,8153,1,8144); (8154,8155,1,8054); (8168,8169,1,8160);
    (8170,8171,1,8058); (8172,8172,1,8165); (8184,8185,1,8056);
    (8186,8187,1,8060); (8188,8188,1,8179); (8486,8486,1,969);
    (8490,8490,1,107); (8491,8491,1,229); (8498,8498,1,8526);
    (8544,8559,1,8560); (8579,8579,1,8580); (9398,9423,1,9424);
    (11264,11311,1,11312); (11360,11360,1,11361); (11362,11362,1,619);
    (11363,11363,1,7549); (11364,11364,1,637); (11367,11371,2,11368);
    (11373,11373,1,593); (11374,11374,1,625); (11375,11375,1,592);
    (11376,11376,1,594); (11378,11378,1,11379); (11381,11381,1,11382);
    (11390,11391,1,575); (11392,11490,2,11393); (11499,11501,2,11500);
    (11506,11506,1,11507); (42560,42604,2,42561); (42624,42650,2,42625);
    (42786,42798,2,42787); (42802,42862,2,42803); (42873,42875,2,42874);
    (42877,42877,1,7545); (42878,42886,2,42879); (42891,42891,1,42892);
    (42893,42893,1,613); (42896,42898,2,42897); (42902,42920,2,42903);
    (42922,42922,1,614); (42923,42923,1,604); (42924,42924,1,609);
    (42925,42925,1,620); (42926,42926,1,618); (42928,42928,1,670);
    (42929,42929,1,647); (42930,42930,1,669); (42931,42931,1,43859);
    (42932,42946,2,42933); (42948,42948,1,42900); (42949,42949,1,642);
    (42950,42950,1,7566); (42951,42953,2,42952); (42960,42960,1,42961);
    (42966,42968,2,42967); (42997,42997,1,42998); (65313,65338,1,65345);
    (66560,66599,1,66600); (66736,66771,1,66776); (66928,66938,1,66967);
    (66940,66954,1,66979); (66956,66962,1,66995); (66964,66965,1,67003);
    (68736,68786,1,68800); (71840,71871,1,71872); (93760,93791,1,93792);
    (125184,125217,1,125218) ]%N.

Definition is_cased (c : char) : bool := in_ranges c cased_ranges.

Definition is_case_ignorable (c : char) : bool :=
  in_ranges c case_ignorable_ranges.

(** The entries [(first, last, step, image)] of [lower_ranges] map the code
    points [first], [first + step], ..., [last] to [image],
    [image + step], ... *)
Definition expand (r : N * N * N * N) : list (N * N) :=
  let '(first, last, step, image) := r in
  map (fun k => (first + N.of_nat k * step, image + N.of_nat k * step)%N)
      (seq 0 (S (N.to_nat ((last - first) / step)))).

Definition lower_pairs : list (N * N) :=
  Eval vm_compute in flat_map expand lower_ranges.

(** The lower-case mapping of one code point, out of context.  LATIN
    CAPITAL LETTER I WITH DOT ABOVE (U+0130) is the one code point that
    maps to two. *)
Definition lower_full (c : char) : str :=
  if (c =? 304)%N then [105; 775]%N
  else match find (fun p => (fst p =? c)%N) lower_pairs with
       | Some p => [snd p]
       | None => [c]
       end.

(** GREEK CAPITAL LETTER SIGMA and its two lower-case forms. *)
Definition capital_sigma : char := 931%N.
Definition final_sigma : char := 962%N.
Definition small_sigma : char := 963%N.

(** The nearest code point of [s] that is not case-ignorable is cased. *)
Fixpoint cased_ahead (s : str) : bool :=
  match s with
  | [] => false
  | c :: s' => if is_case_ignorable c then cased_ahead s' else is_cased c
  end.

(** [text.lower()] from some position on; [before] holds the code points
    before that position, the nearest first.  A capital sigma becomes a
    final sigma when it ends a cased word: a cased letter before it and
    none after it, case-ignorable code points skipped on both sides. *)
Fixpoint lower_from (before text : str) : str :=
  match text with
  | [] => []
  | c :: rest =>
      (if (c =? capital_sigma)%N
       then [if cased_ahead before && negb (cased_ahead rest)
             then final_sigma else small_sigma]
       else lower_full c)
      ++ lower_from (c :: before) rest
  end.

(** [text.lower()] *)
Definition lower (text : str) : str := lower_from [] text.

Arguments lower_full : simpl never.
Arguments is_cased : simpl never.
Arguments is_case_ignorable : simpl never.

(** [string.punctuation]: the 32 characters 33..47, 58..64, 91..96, 123..126. *)
Definition punctuation : str :=
  map N.of_nat (seq 33 15 ++ seq 58 7 ++ seq 91 6 ++ seq 123 4).

Definition is_punct (c : char) : bool := mem c punctuation.

Definition starts_word (s : str) : bool :=
  match s with
  | c :: _ => negb (is_space c)
  | [] => false
  end.

(** [text.split()]: the maximal runs of non-whitespace characters. *)
Fixpoint split (s : str) : list str :=
  match s with
  | [] => []
  | c :: s' =>
      if is_space c then split s'
      else if starts_word s' then
             match split s' with
             | w :: ws => (c :: w) :: ws
             | [] => [[c]]
             end
           else [c] :: split s'
  end.

Fixpoint lstrip (s : str) : str :=
  match s with
  | [] => []
  | c :: s' => if is_space c then lstrip s' else s
  end.

Definition rstrip (s : str) : str := rev (lstrip (rev s)).

(** [text.strip()] *)
Definition strip (s : str) : str := rstrip (lstrip s).

(** [sep.join(parts)] *)
Fixpoint join (sep : str) (parts : list str) : str :=
  match parts with
  | [] => []
  | x :: rest =>
      match rest with
      | [] => x
      | _ :: _ => x ++ sep ++ join sep rest
      end
  end.

Definition str_eqb (a b : str) : bool :=
  if list_eq_dec N.eq_dec a b then true else false.

(** [float(b)] for a bool [b] *)
Definition float_of_bool (b : bool) : R := if b then 1%R else 0%R.

(* ================================================================== *)
(** * generation_eval.py: the metrics *)

(** [max(xs)]: the first largest item; [ValueError] on an empty sequence. *)
Definition py_max (xs : list R) : result R :=
  match xs with
  | [] => Raise ValueError
  | x :: rest => Ok (fold_left (fun m y => if Rlt_dec m y then y else m) rest x)
  end.

Definition metric_max_over_references
  (metric_fn : str -> str -> R) (prediction : str) (references : list str)
  : result R :=
  let scores_for_references := map (fun ground_truth => metric_fn prediction ground_truth) references in
  py_max scores_for_references.

Definition white_space_fix (text : str) : str := join (lit " ") (split text).

Definition remove_punc (text : str) : str :=
  filter (fun ch => negb (is_punct ch)) text.

Definition normalize_answer (s : str) : str :=
  white_space_fix (remove_punc (lower s)).

Definition exact_match (prediction reference : str) : R :=
  float_of_bool (str_eqb (normalize_answer prediction) (normalize_answer reference)).

(** The third-party scorers the module calls: the F-measures of
    [rouge_score] and [nltk]'s [sentence_bleu]. *)
Class Scorers : Type := {
  rouge1_score : str -> str -> R;
  rougeL_score : str -> str -> R;
  sentence_bleu : list (list str) -> list str -> R
}.

Definition bleu_score {S : Scorers} (prediction : str) (references : list str) : R :=
  sentence_bleu (map (fun x => split (strip x)) references) (split (strip prediction)).

(** [zip] applied to the unpacked list [ls]: the tuples of the i-th items,
    as long as the shortest list. *)
Fixpoint zip_star {A : Type} (ls : list (list A)) : list (list A) :=
  match ls with
  | [] => []
  | l :: ls' =>
      match ls' with
      | [] => map (fun x => [x]) l
      | _ :: _ => map (fun p => fst p :: snd p) (combine l (zip_star ls'))
      end
  end.

(** [range(n)] *)
Definition py_range1 (n : Z) : list nat := seq 0 (Z.to_nat n).

Definition n_grams_of (n : Z) (tokens : list str) : list (list str) :=
  zip_star (map (fun i => skipn i tokens) (py_range1 n)).

Definition all_n_grams (predictions : list str) (n : Z) : list (list str) :=
  flat_map (fun prediction => n_grams_of n (split (strip (lower prediction)))) predictions.

Definition ngram_eq_dec : forall a b : list str, {a = b} + {a <> b} :=
  list_eq_dec (list_eq_dec N.eq_dec).

(** [len(set(xs))] *)
Definition len_set (xs : list (list str)) : nat := length (nodup ngram_eq_dec xs).

Definition diversity (predictions : list str) (n : Z) : R :=
  let grams := all_n_grams predictions n in
  if Nat.eqb (length grams) 0 then 1%R
  else (INR (len_set grams) / INR (length grams))%R.

Definition gram_length (prediction : str) : R :=
  INR (length (split (strip prediction))).

(** ** numpy reductions, over the reals *)

Definition np_sum (xs : list R) : R := fold_right Rplus 0%R xs.

Definition np_mean (xs : list R) : R := (np_sum xs / INR (length xs))%R.

(** [x.std()] with the default [ddof=0]:
    [sqrt(mean(abs(x - x.mean())**2))]. *)
Definition np_std (xs : list R) : R :=
  sqrt (np_mean (map (fun x => (Rabs (x - np_mean xs) ^ 2)%R) xs)).

Definition np_sqrt_len (xs : list R) : R := sqrt (INR (length xs)).

(** ** Generation records and [compute_metrics] *)

Record gen_record : Type := mk_record {
  prompt : str;
  reference : list str;
  generation : str
}.

(** The three columns [prompts, predictions, references] of the records:
    unpacking the transposed empty list raises [ValueError]. *)
Definition unpack_columns (generation_data : list gen_record)
  : result (list str * list str * list (list str)) :=
  match generation_data with
  | [] => Raise ValueError
  | _ :: _ => Ok (map prompt generation_data,
                  map generation generation_data,
                  map reference generation_data)
  end.

Definition max_scores (metric_fn : str -> str -> R)
  (predictions : list str) (references : list (list str)) : result (list R) :=
  mapM (fun pr => metric_max_over_references metric_fn (fst pr) (snd pr))
       (combine predictions references).

Definition metrics : Type := list (string * R).

Definition compute_metrics {S : Scorers} (generation_data : list gen_record)
  : result metrics :=
  rbind (unpack_columns generation_data) (fun cols =>
  let '(_, predictions, references) := cols in
  rbind (max_scores rouge1_score predictions references) (fun rouge1 =>
  rbind (max_scores rougeL_score predictions references) (fun rougel =>
  rbind (max_scores exact_match predictions references) (fun exact_match_scores =>
  let diversity2 := diversity predictions 2 in
  let diversity3 := diversity predictions 3 in
  let avg_length_scores := map gram_length predictions in
  Ok [ ("rouge1"%string, np_mean rouge1);
       ("rouge1_err"%string, (np_std rouge1 / np_sqrt_len rouge1)%R);
       ("rougeL"%string, np_mean rougel);
       ("rougeL_err"%string, (np_std rougel / np_sqrt_len rougel)%R);
       ("exact_match"%string, np_mean exact_match_scores);
       ("exact_match_err"%string,
         (np_std exact_match_scores / np_sqrt_len exact_match_scores)%R);
       ("diversity2"%string, diversity2);
       ("diversity3"%string, diversity3);
       ("avg_length"%string, np_mean avg_length_scores);
       ("avg_length_err"%string,
         (np_std avg_length_scores / np_sqrt_len avg_length_scores)%R) ])))).

(** [d[k]] on the returned dictionary *)
Fixpoint dict_get (k : string) (d : metrics) : option R :=
  match d with
  | [] => None
  | (k', v) :: d' => if String.eqb k k' then Some v else dict_get k d'
  end.

Definition dict_keys (d : metrics) : list string := map fst d.

(* ================================================================== *)
(** * generation_eval.py: [generate_language] *)

(** The model-inference interface.  [generate_from_str] is the only method
    the module calls; every argument other than [input_strs] is the same at
    each call, so it is part of the instance.  The interface may keep state
    of its own between calls. *)
Class Inference (St : Type) : Type := {
  generate_from_str : list str -> St -> list str * St
}.

(** What a run of [generate_language] can observe and change: the state of
    the inference object and the calls made to it so far, oldest first,
    each with its [input_strs] and its [output_strs]. *)
Record world (St : Type) : Type := mk_world {
  inf_state : St;
  calls : list (list str * list str)
}.

Arguments mk_world {St} inf_state calls.
Arguments inf_state {St} w.
Arguments calls {St} w.

Definition M (St A : Type) : Type := world St -> result A * world St.

Definition ret {St A : Type} (a : A) : M St A := fun w => (Ok a, w).

Definition raise {St A : Type} (e : exn) : M St A := fun w => (Raise e, w).

Definition bind {St A B : Type} (c : M St A) (k : A -> M St B) : M St B :=
  fun w =>
    match c w with
    | (Ok a, w') => k a w'
    | (Raise e, w') => (Raise e, w')
    end.

Definition lift {St A : Type} (r : result A) : M St A := fun w => (r, w).

Notation "x <- c ;; k" := (bind c (fun x => k))
  (at level 61, c at next level, right associativity).

(** One call of [inference.generate_from_str(input_strs=...)]. *)
Definition call_generate {St : Type} {I : Inference St} (input_strs : list str)
  : M St (list str) :=
  fun w =>
    let '(output_strs, st') := generate_from_str input_strs (inf_state w) in
    (Ok output_strs, mk_world st' (calls w ++ [(input_strs, output_strs)])).

(** [range(start, stop, step)] *)
Definition py_range (start stop step : Z) : result (list Z) :=
  if (step =? 0)%Z then Raise ValueError
  else
    let len :=
      if (0 <? step)%Z
      then (if (start <? stop)%Z then (stop - start - 1) / step + 1 else 0)%Z
      else (if (stop <? start)%Z then (start - stop - 1) / (- step) + 1 else 0)%Z in
    Ok (map (fun k => (start + Z.of_nat k * step)%Z) (seq 0 (Z.to_nat len))).

(** [l[lo:hi]] for indices [0 <= lo] and [0 <= hi], the only ones the
    sources use. *)
Definition py_slice {A : Type} (l : list A) (lo hi : Z) : list A :=
  firstn (Z.to_nat hi - Z.to_nat lo) (skipn (Z.to_nat lo) l).

Definition make_batches (prompts : list str) (references : list (list str))
  (bsize : Z) : result (list (list str * list (list str))) :=
  rbind (py_range 0 (Z.of_nat (length prompts)) bsize) (fun starts =>
  Ok (map (fun i => (py_slice prompts i (i + bsize),
                     py_slice references i (i + bsize))) starts)).

(** [zip(prompts, references, generations)] turned into records. *)
Definition zip_records (prompts : list str) (references : list (list str))
  (generations : list str) : list gen_record :=
  map (fun prg => mk_record (fst (fst prg)) (snd (fst prg)) (snd prg))
      (combine (combine prompts references) generations).

Definition stop_early (generation_batches : option Z) (i : Z) : bool :=
  match generation_batches with
  | Some k => (k <=? i)%Z
  | None => false
  end.

(** The loop over [enumerate(batches)], from index [i] on. *)
Fixpoint generation_loop {St : Type} {I : Inference St} (i : Z)
  (batches : list (list str * list (list str)))
  (generation_batches : option Z) (all_generations : list gen_record)
  : M St (list gen_record) :=
  match batches with
  | [] => ret all_generations
  | (prompts, references) :: rest =>
      if stop_early generation_batches i then ret all_generations
      else
        generations <- call_generate prompts ;;
        generation_loop (i + 1) rest generation_batches
          (all_generations ++ zip_records prompts references generations)
  end.

Definition generate_language {St : Type} {I : Inference St}
  (prompts : list str) (references : list (list str))
  (bsize : Z) (generation_batches : option Z) : M St (list gen_record) :=
  if negb (Nat.eqb (length prompts) (length references))
  then raise AssertionError
  else
    batches <- lift (make_batches prompts references bsize) ;;
    generation_loop 0 batches generation_batches [].

(* ================================================================== *)
(** * create_percent_bc_data.py *)

(** ** binary64 *)

Definition prec : Z := 53.
Definition emax : Z := 1024.

(** [float(n)] for a Python int [n] *)
Definition float_of_int (n : Z) : result spec_float :=
  match binary_normalize prec emax n 0 false with
  | S754_infinity _ => Raise OverflowError
  | f => Ok f
  end.

(** The literal [0.1]: the double nearest to one tenth,
    7205759403792794 * 2^-56. *)
Definition percentage : spec_float := S754_finite false 7205759403792794 (-56).

(** [int(x)] for a float [x]: truncation toward zero. *)
Definition int_of_float (x : spec_float) : result Z :=
  match x with
  | S754_zero _ => Ok 0%Z
  | S754_infinity _ => Raise OverflowError
  | S754_nan => Raise ValueError
  | S754_finite s m e =>
      Ok (cond_Zopp s (if (0 <=? e)%Z then Z.pos m * 2 ^ e
                       else Z.pos m / 2 ^ (- e))%Z)
  end.

(** [int(n * percentage)] for the int [n] *)
Definition percent_count (n : Z) : result Z :=
  rbind (float_of_int n) (fun x => int_of_float (SFmul prec emax x percentage)).

(** ** Python numbers *)

(** The numbers that JSON text decodes to: ints of any size and binary64
    floats, the infinities and NaN among them. *)
Inductive pynum : Type :=
| PInt (z : Z)
| PFloat (x : spec_float).

(** [a + b]: an int operand is converted to a float when the other one is
    a float; [None] stands for the OverflowError of an int too large for
    that. *)
Definition py_add (a b : pynum) : option pynum :=
  match a, b with
  | PInt x, PInt y => Some (PInt (x + y))
  | PFloat x, PFloat y => Some (PFloat (SFadd prec emax x y))
  | PInt x, PFloat y =>
      match float_of_int x with
      | Ok fx => Some (PFloat (SFadd prec emax fx y))
      | Raise _ => None
      end
  | PFloat x, PInt y =>
      match float_of_int y with
      | Ok fy => Some (PFloat (SFadd prec emax x fy))
      | Raise _ => None
      end
  end.

(** The value of a number on the extended rational line; NaN has none. *)
Inductive extended : Type :=
| minus_infinity
| rational (q : QArith_base.Q)
| plus_infinity.

(** [z * 2^e] *)
Definition dyadic (z e : Z) : QArith_base.Q :=
  if (0 <=? e)%Z then QArith_base.inject_Z (z * 2 ^ e)
  else QArith_base.Qmake z (Z.to_pos (2 ^ (- e))).

Definition py_value (a : pynum) : option extended :=
  match a with
  | PInt z => Some (rational (QArith_base.inject_Z z))
  | PFloat S754_nan => None
  | PFloat (S754_zero _) => Some (rational (QArith_base.inject_Z 0))
  | PFloat (S754_infinity s) => Some (if s then minus_infinity else plus_infinity)
  | PFloat (S754_finite s m e) => Some (rational (dyadic (cond_Zopp s (Z.pos m)) e))
  end.

Definition extended_ltb (x y : extended) : bool :=
  match x, y with
  | minus_infinity, minus_infinity => false
  | minus_infinity, _ => true
  | rational _, minus_infinity => false
  | rational p, rational q => negb (QArith_base.Qle_bool q p)
  | rational _, plus_infinity => true
  | plus_infinity, _ => false
  end.

(** [a < b]: ints and floats are compared by their exact values, and
    every comparison with NaN is false. *)
Definition py_ltb (a b : pynum) : bool :=
  match py_value a, py_value b with
  | Some x, Some y => extended_ltb x y
  | _, _ => false
  end.

(** ** Numbers and JSON values, as the script uses them *)

(** What the script uses of the numbers json.loads produces: the int
    [0], the value of a bool, [+] (with [None] for OverflowError) and
    [<]. *)
Class Number (num : Type) : Type := {
  num_zero : num;
  num_of_bool : bool -> num;
  num_add : num -> num -> option num;
  num_ltb : num -> num -> bool
}.

#[export] Instance py_number : Number pynum := {|
  num_zero := PInt 0;
  num_of_bool := fun b => PInt (if b then 1 else 0);
  num_add := py_add;
  num_ltb := py_ltb
|}.

#[warnings="-register-all"]
Inductive json (num : Type) : Type :=
| JNull
| JBool (b : bool)
| JNum (x : num)
| JStr (s : string)
| JArr (items : list (json num))
| JObj (fields : list (string * json num)).
(* [JObj] lists the items of a decoded dict in insertion order; its keys
   are distinct. *)

Arguments JNull {num}.
Arguments JBool {num} b.
Arguments JNum {num} x.
Arguments JStr {num} s.
Arguments JArr {num} items.
Arguments JObj {num} fields.

(** [acc + x] for two numbers *)
Definition add_number {num : Type} {N : Number num} (acc x : num) : result num :=
  match num_add acc x with
  | Some s => Ok s
  | None => Raise OverflowError
  end.

(** [acc + v] for a number [acc] and a decoded value [v] *)
Definition add_value {num : Type} {N : Number num} (acc : num) (v : json num)
  : result num :=
  match v with
  | JNum x => add_number acc x
  | JBool b => add_number acc (num_of_bool b)
  | _ => Raise TypeError
  end.

Fixpoint sum_from {num : Type} {N : Number num} (acc : num) (vs : list (json num))
  : result num :=
  match vs with
  | [] => Ok acc
  | v :: vs' => rbind (add_value acc v) (fun acc' => sum_from acc' vs')
  end.

(** [sum(v)]: the items are added to [0] one by one, from left to right
    (CPython up to 3.11; later versions compensate the rounding of float
    sums); iterating a list gives its items, iterating a dict or a string
    gives strings, nothing else is iterable. *)
Definition py_sum {num : Type} {N : Number num} (v : json num) : result num :=
  match v with
  | JArr items => sum_from num_zero items
  | JObj [] => Ok num_zero
  | JStr EmptyString => Ok num_zero
  | _ => Raise TypeError
  end.

Fixpoint assoc_get {V : Type} (k : string) (fields : list (string * V)) : option V :=
  match fields with
  | [] => None
  | (k', v) :: rest => if String.eqb k k' then Some v else assoc_get k rest
  end.

(** [x['reward']] *)
Definition get_reward {num : Type} (x : json num) : result (json num) :=
  match x with
  | JObj fields =>
      match assoc_get "reward" fields with
      | Some v => Ok v
      | None => Raise KeyError
      end
  | _ => Raise TypeError
  end.

(** The sort key [lambda x: sum(x['reward'])] *)
Definition cumulative_reward {num : Type} {N : Number num} (x : json num) : result num :=
  rbind (get_reward x) py_sum.

(** ** [sorted] and the slice *)

(** Stable insertion of a keyed item into an ascending list: before the
    first item that is not smaller. *)
Fixpoint insert_keyed {num A : Type} {N : Number num} (x : num * A) (l : list (num * A))
  : list (num * A) :=
  match l with
  | [] => [x]
  | y :: l' =>
      if num_ltb (fst y) (fst x) then y :: insert_keyed x l' else x :: y :: l'
  end.

Definition stable_sort {num A : Type} {N : Number num} (l : list (num * A))
  : list (num * A) :=
  fold_right insert_keyed [] l.

(** [sorted(items, key=key, reverse=reverse)]: the keys are computed first,
    one call per item in order; the sort is stable and compares keys with
    [<] only; [reverse=True] sorts the reversed list and reverses the
    result.  On keys that [<] orders every stable sort returns the list of
    this insertion sort; on other keys (NaN) the outcome depends on the
    algorithm, and the insertion sort agrees with CPython's on the lists
    that are one ascending run, which both leave as they are. *)
Definition py_sorted {num A : Type} {N : Number num} (items : list A)
  (key : A -> result num) (reverse : bool) : result (list A) :=
  rbind (mapM (fun x => rbind (key x) (fun k => Ok (k, x))) items) (fun keyed =>
  Ok (map snd (if reverse then rev (stable_sort (rev keyed))
               else stable_sort keyed))).

(** [l[:k]] *)
Definition py_slice_to {A : Type} (l : list A) (k : Z) : list A :=
  if (k <? 0)%Z then firstn (length l - Z.to_nat (- k)) l
  else firstn (Z.to_nat k) l.

(** ** The script *)

(** The JSON codec of the standard library. *)
Class JsonCodec (num : Type) : Type := {
  loads : string -> result (json num);
  dumps : json num -> string
}.

Definition newline : string := String (ascii_of_nat 10) EmptyString.

Definition read_all {num : Type} {J : JsonCodec num} (lines : list string)
  : result (list (json num)) :=
  mapM loads lines.

Definition filter_top {num : Type} {N : Number num} (all_data : list (json num))
  : result (list (json num)) :=
  rbind (py_sorted all_data cumulative_reward true) (fun ranked =>
  rbind (percent_count (Z.of_nat (length all_data))) (fun k =>
  Ok (py_slice_to ranked k))).

(** The whole script: from the lines of the input file to the lines
    written to the output file. *)
Definition main {num : Type} {N : Number num} {J : JsonCodec num} (lines : list string)
  : result (list string) :=
  rbind (read_all lines) (fun all_data =>
  rbind (filter_top all_data) (fun all_data_filtered =>
  Ok (map (fun item => (dumps item ++ newline)%string) all_data_filtered))).

(* ================================================================== *)
(** * Vocabulary of the properties *)

(** ** Normal forms and cosmetic alterations (exact match) *)






(** A code point that lower-casing leaves alone, whatever stands around
    it. *)
Definition settled (c : char) : bool :=
  match lower_full c with
  | [d] => (d =? c)%N
  | _ => false
  end && negb (c =? capital_sigma)%N.









(** ** Aggregates (compute_metrics) *)

Definition is_maximum (m : R) (xs : list R) : Prop :=
  In m xs /\ forall x, In x xs -> (x <= m)%R.

(** The largest item of a non-empty list. *)
Definition maximum (xs : list R) : R :=
  match xs with
  | [] => 0%R
  | x :: rest => fold_right Rmax x rest
  end.

(** The best value of a metric for one record: the maximum over the
    record's references. *)
Definition best_score (metric_fn : str -> str -> R) (rec : gen_record) : R :=
  maximum (map (fun r => metric_fn (generation rec) r) (reference rec)).

(** The words of a string, read off in one pass: [cur] holds the
    characters of the word being read, the last one first. *)
Fixpoint words_acc (cur : str) (s : str) : list str :=
  match s with
  | [] => match cur with [] => [] | _ :: _ => [rev cur] end
  | c :: s' =>
      if is_space c
      then match cur with
           | [] => words_acc [] s'
           | _ :: _ => rev cur :: words_acc [] s'
           end
      else words_acc (c :: cur) s'
  end.

(** The whitespace-separated tokens of a string. *)
Definition words (s : str) : list str := words_acc [] s.

(** The number of whitespace-separated tokens of a string. *)
Definition token_count (s : str) : nat := length (words s).

(** Arithmetic mean: the sum of the items over their number. *)
Definition arithmetic_mean (xs : list R) : R :=
  (fold_right Rplus 0 xs / INR (length xs))%R.

(** Population standard deviation: the square root of the mean squared
    deviation from the mean. *)
Definition population_std (xs : list R) : R :=
  sqrt (arithmetic_mean (map (fun x => Rsqr (x - arithmetic_mean xs)) xs)).

Definition metric_keys : list string :=
  [ "rouge1"; "rouge1_err"; "rougeL"; "rougeL_err"; "exact_match";
    "exact_match_err"; "diversity2"; "diversity3"; "avg_length";
    "avg_length_err" ]%string.

(** Scorers that differ in nothing but the BLEU they report. *)
Definition constant_scorers (bleu : R) : Scorers := {|
  rouge1_score := fun _ _ => 1%R;
  rougeL_score := fun _ _ => 1%R;
  sentence_bleu := fun _ _ => bleu
|}.

(** Scorers for examples: the ROUGE-1 stand-in is 1 on equal strings and
    0 otherwise, the ROUGE-L stand-in 1 on equal strings and one half
    otherwise, and the BLEU is a constant. *)
Definition sample_scorers (bleu : R) : Scorers := {|
  rouge1_score := fun p r => if str_eqb p r then 1%R else 0%R;
  rougeL_score := fun p r => if str_eqb p r then 1%R else (1 / 2)%R;
  sentence_bleu := fun _ _ => bleu
|}.

(** Two records: a two-token generation with three references, one of
    them equal to it and one equal up to case, punctuation and spacing;
    and a four-token generation with one reference that differs. *)
Definition sample_data : list gen_record :=
  [ mk_record (lit "q1") [lit "c"] (lit "d e  f g");
    mk_record (lit "q2") [lit "x y"; lit "a b"; lit "A  b."] (lit "a b") ].

Definition sample_record : gen_record :=
  mk_record (lit "q") [lit "a b"] (lit "a b").

(** What [compute_metrics] reports for one family of per-record scores:
    under [key] their arithmetic mean, under [key_err] their population
    standard deviation divided by the square root of their number. *)
Definition reports (d : metrics) (key : string) (scores : list R) : Prop :=
  dict_get key d = Some (arithmetic_mean scores) /\
  dict_get (key ++ "_err") d
  = Some (population_std scores / sqrt (INR (length scores)))%R.

(** ** Word n-grams (diversity) *)

(** The windows of [n] consecutive items of a list, for [1 <= n]. *)
Fixpoint windows {A : Type} (n : nat) (l : list A) : list (list A) :=
  match l with
  | [] => []
  | _ :: l' => if n <=? length l then firstn n l :: windows n l' else []
  end.

(** The word-level n-grams of the predictions as they are. *)
Definition raw_ngrams (predictions : list str) (n : Z) : list (list str) :=
  flat_map (fun p => windows (Z.to_nat n) (words p)) predictions.

(** The word-level n-grams of the lower-cased predictions. *)
Definition word_ngrams (predictions : list str) (n : Z) : list (list str) :=
  raw_ngrams (map lower predictions) n.

(** [distinct] lists the items of [xs], each one once. *)
Definition lists_distinct {A : Type} (distinct xs : list A) : Prop :=
  NoDup distinct /\ forall x, In x distinct <-> In x xs.

(** [v] is the ratio of distinct items among [grams], or 1 when there
    is no item. *)
Definition distinct_ratio (grams : list (list str)) (v : R) : Prop :=
  (grams = [] /\ v = 1%R) \/
  (grams <> [] /\
   exists distinct : list (list str),
     lists_distinct distinct grams /\
     v = (INR (length distinct) / INR (length grams))%R).

(** ** Batches and runs (generate_language) *)

(** Batch [j] of a list: [l[j*bsize : (j+1)*bsize]]. *)
Definition batch {A : Type} (l : list A) (bsize : Z) (j : nat) : list A :=
  py_slice l (Z.of_nat j * bsize) ((Z.of_nat j + 1) * bsize).

(** The number of batches of [n] items: [n / bsize], rounded up. *)
Definition batch_count (n : nat) (bsize : Z) : nat :=
  Z.to_nat ((Z.of_nat n + bsize - 1) / bsize).

Definition batches_of {A : Type} (l : list A) (bsize : Z) : list (list A) :=
  map (batch l bsize) (seq 0 (batch_count (length l) bsize)).

(** The batches a run gets to: all of them, or the first [k]. *)
Definition processed {A : Type} (generation_batches : option Z)
  (batches : list A) : list A :=
  match generation_batches with
  | None => batches
  | Some k => firstn (Z.to_nat k) batches
  end.

(** The inference interface answers every call with one output string per
    input string. *)
Definition one_output_per_prompt {St : Type} (I : Inference St) : Prop :=
  forall (input_strs : list str) (st : St),
    length (fst (generate_from_str input_strs st)) = length input_strs.

(** [subseq s l]: [s] is [l] with some items left out. *)
Inductive subseq {A : Type} : list A -> list A -> Prop :=
| subseq_nil : subseq [] []
| subseq_skip (x : A) (s l : list A) : subseq s l -> subseq s (x :: l)
| subseq_keep (x : A) (s l : list A) : subseq s l -> subseq (x :: s) (x :: l).

(** One call per batch, in order, threading the state of the interface:
    the records, the calls and the final state. *)
Fixpoint run_batches {St : Type} {I : Inference St}
  (batches : list (list str * list (list str))) (st : St)
  : list gen_record * list (list str * list str) * St :=
  match batches with
  | [] => ([], [], st)
  | (prompts, references) :: rest =>
      let '(generations, st1) := generate_from_str prompts st in
      let '(recs, cs, st2) := run_batches rest st1 in
      (zip_records prompts references generations ++ recs,
       (prompts, generations) :: cs, st2)
  end.

(** An interface that counts its calls and answers each prompt with the
    prompt followed by an exclamation mark. *)
Definition echo_inference : Inference nat := {|
  generate_from_str := fun input_strs st =>
    (map (fun p => p ++ lit "!") input_strs, S st)
|}.

(** The prompt and the reference a record was made from. *)
Definition pair_of (rec : gen_record) : str * list str :=
  (prompt rec, reference rec).

(** The first [m] batches of the prompts, each with the batch of the
    references of the same index. *)
Definition paired_batches (prompts : list str) (references : list (list str))
  (bsize : Z) (m : nat) : list (list str * list (list str)) :=
  map (fun j => (batch prompts bsize j, batch references bsize j)) (seq 0 m).

(** ** Rollout records (create_percent_bc_data) *)

Definition is_number {num : Type} (v : json num) : Prop := exists x, v = JNum x.

(** A record that carries a ['reward'] list of numbers. *)
Definition has_reward_numbers {num : Type} (x : json num) : Prop :=
  exists fields items,
    x = JObj fields /\
    assoc_get "reward" fields = Some (JArr items) /\
    Forall is_number items.

(** The numbers of a list of decoded values, when all of them are
    numbers. *)
Fixpoint numbers_of {num : Type} (items : list (json num)) : option (list num) :=
  match items with
  | [] => Some []
  | JNum x :: rest => option_map (cons x) (numbers_of rest)
  | _ :: _ => None
  end.

(** The sum of a list of numbers, added one by one to [acc]; there is
    none when an addition overflows. *)
Fixpoint total_from {num : Type} {N : Number num} (acc : num) (xs : list num)
  : option num :=
  match xs with
  | [] => Some acc
  | x :: xs' =>
      match num_add acc x with
      | Some acc' => total_from acc' xs'
      | None => None
      end
  end.

(** The cumulative reward of a record that carries a ['reward'] list of
    numbers: their sum, from 0 on. *)
Definition reward_sum {num : Type} {N : Number num} (x : json num) : option num :=
  match x with
  | JObj fields =>
      match assoc_get "reward" fields with
      | Some (JArr items) =>
          match numbers_of items with
          | Some xs => total_from num_zero xs
          | None => None
          end
      | _ => None
      end
  | _ => None
  end.

(** [x] is ranked no lower than [y]: both have a cumulative reward, and
    that of [x] is not smaller. *)
Definition outranks {num : Type} {N : Number num} (x y : json num) : Prop :=
  exists a b : num,
    reward_sum x = Some a /\ reward_sum y = Some b /\ num_ltb a b = false.

(** On the numbers that satisfy [ordered], [<] is a strict weak order:
    asymmetric, and with a transitive complement. *)
Definition strict_weak_on {num : Type} {N : Number num} (ordered : num -> Prop)
  : Prop :=
  (forall a b, ordered a -> ordered b ->
     num_ltb a b = true -> num_ltb b a = false) /\
  (forall a b c, ordered a -> ordered b -> ordered c ->
     num_ltb a b = false -> num_ltb b c = false -> num_ltb a c = false).

(** A Python number other than NaN. *)
Definition comparable (k : pynum) : Prop := py_value k <> None.

(** The value of the sort key, where it is defined. *)
Definition reward_of {num : Type} {N : Number num} (x : json num) : num :=
  match cumulative_reward x with
  | Ok k => k
  | Raise _ => num_zero
  end.

(** The float 0.5 and the floats that the JSON texts [1e999] and
    [-1e999] decode to. *)
Definition half : spec_float := S754_finite false 4503599627370496 (-53).
Definition float_inf : spec_float := S754_infinity false.
Definition float_neg_inf : spec_float := S754_infinity true.

(** The record whose only key is ['reward'], with a list of numbers. *)
Definition reward_record {num : Type} (rewards : list num) : json num :=
  JObj [("reward"%string, JArr (map JNum rewards))].

(** A codec for examples.  A line holds one character per reward: a
    digit stands for that int, [h] for the float 0.5, [p] and [m] for the
    floats that [1e999] and [-1e999] decode to, [B] for the int
    [10**400]; any other character makes the line invalid.  A line that
    starts with [#] decodes to an object without a ['reward'] key. *)
Definition number_of_char (c : ascii) : option pynum :=
  let n := nat_of_ascii c in
  if (48 <=? n) && (n <=? 57) then Some (PInt (Z.of_nat (n - 48)))
  else if Ascii.eqb c "h" then Some (PFloat half)
  else if Ascii.eqb c "p" then Some (PFloat float_inf)
  else if Ascii.eqb c "m" then Some (PFloat float_neg_inf)
  else if Ascii.eqb c "B" then Some (PInt (10 ^ 400))
  else None.

Fixpoint numbers_of_line (line : string) : option (list pynum) :=
  match line with
  | EmptyString => Some []
  | String c rest =>
      match number_of_char c, numbers_of_line rest with
      | Some x, Some xs => Some (x :: xs)
      | _, _ => None
      end
  end.

Definition char_of_value (v : json pynum) : ascii :=
  match v with
  | JNum (PInt z) =>
      if ((0 <=? z) && (z <=? 9))%Z then ascii_of_nat (48 + Z.to_nat z)
      else "B"%char
  | JNum (PFloat (S754_infinity false)) => "p"%char
  | JNum (PFloat (S754_infinity true)) => "m"%char
  | JNum (PFloat _) => "h"%char
  | _ => "?"%char
  end.

Definition sample_codec : JsonCodec pynum := {|
  loads := fun line =>
    if String.prefix "#" line then Ok (JObj [])
    else match numbers_of_line line with
         | Some rewards => Ok (reward_record rewards)
         | None => Raise ValueError
         end;
  dumps := fun item =>
    match item with
    | JObj [(_, JArr items)] => string_of_list_ascii (map char_of_value items)
    | _ => "#"%string
    end
|}.

(** Twelve lines, of cumulative rewards 1, 4, 2, 7, 1, 3, 2.5, 5, 1, 3, 9
    and 3, and the records they decode to. *)
Definition sample_lines : list string :=
  [ "1"; "31"; "2"; "7"; "10"; "3"; "2h"; "5"; "01"; "12"; "9"; "21" ]%string.

Definition sample_rollouts : list (json pynum) :=
  map reward_record
    [ [PInt 1]; [PInt 3; PInt 1]; [PInt 2]; [PInt 7]; [PInt 1; PInt 0];
      [PInt 3]; [PInt 2; PFloat half]; [PInt 5]; [PInt 0; PInt 1];
      [PInt 1; PInt 2]; [PInt 9]; [PInt 2; PInt 1] ].

(** Twenty lines: a record of reward 2, one whose rewards [1e999] and
    [-1e999] sum to NaN, one of reward 4, and seventeen of reward 1; and
    the records they decode to. *)
Definition nan_lines : list string :=
  [ "2"; "pm"; "4" ]%string ++ repeat "1"%string 17.

Definition nan_rollouts : list (json pynum) :=
  map reward_record
    ([ [PInt 2]; [PFloat float_inf; PFloat float_neg_inf]; [PInt 4] ]
     ++ repeat [PInt 1] 17).

(** Ten lines, the last of which holds an int too large for a float
    next to a float; and the records they decode to. *)
Definition big_lines : list string := repeat "1"%string 9 ++ [ "Bh"%string ].

Definition big_rollouts : list (json pynum) :=
  map reward_record (repeat [PInt 1] 9 ++ [ [PInt (10 ^ 400); PFloat half] ]).

(** ** Words and normal forms (further properties) *)

(** A word: a non-empty string without whitespace. *)
Definition is_word (w : str) : Prop :=
  w <> [] /\ Forall (fun c => is_space c = false) w.

(** The keys under which [compute_metrics] reports a standard error. *)
Definition error_keys : list string :=
  [ "rouge1_err"; "rougeL_err"; "exact_match_err"; "avg_length_err" ]%string.


(** An interface that answers with one output only, whatever the number
    of prompts. *)
Definition terse_inference : Inference nat := {|
  generate_from_str := fun input_strs st => (firstn 1 input_strs, S st)
|}.


(** Two keys neither of which is smaller than the other. *)
Definition tied {num : Type} {N : Number num} (a b : num) : bool :=
  negb (num_ltb a b) && negb (num_ltb b a).


(* ================================================================== *)
(** * Properties *)

(** ** The definitions on small inputs *)

Example normalize_answer_example :
  normalize_answer (lit "  Hello,   World! It's  ") = lit "hello world its".
Proof. reflexivity. Qed.

Example split_example :
  split (lit "  a bc   d ") = [lit "a"; lit "bc"; lit "d"].
Proof. reflexivity. Qed.

Example strip_example : strip (lit "  a bc   d ") = lit "a bc   d".
Proof. reflexivity. Qed.

Example n_grams_example :
  n_grams_of 2 (split (lit "a b c d"))
  = [[lit "a"; lit "b"]; [lit "b"; lit "c"]; [lit "c"; lit "d"]].
Proof. reflexivity. Qed.

Example py_range_example :
  py_range 0 7 3 = Ok [0; 3; 6]%Z /\
  py_range 0 7 (-1) = Ok [] /\
  py_range 0 7 0 = Raise ValueError.
Proof. repeat split; reflexivity. Qed.

Example percent_count_example :
  map percent_count [0; 9; 10; 19; 20; 99; 100; 12345]%Z
  = map Ok [0; 0; 1; 1; 2; 9; 10; 1234]%Z.
Proof. vm_compute. reflexivity. Qed.

Example py_sorted_example :
  py_sorted (N := py_number)
    [(1, "a"); (2, "b"); (1, "c"); (2, "d"); (3, "e")]%Z%string
    (fun x => Ok (PInt (fst x))) true
  = Ok [(3, "e"); (2, "b"); (2, "d"); (1, "a"); (1, "c")]%Z%string.
Proof. vm_compute. reflexivity. Qed.

Example py_add_example :
  py_add (PInt 1) (PFloat half) = Some (PFloat (S754_finite false 6755399441055744 (-52))) /\
  py_add (PInt (10 ^ 400)) (PFloat half) = None /\
  py_add (PFloat float_inf) (PFloat float_neg_inf) = Some (PFloat S754_nan) /\
  py_ltb (PInt 1) (PFloat half) = false /\
  py_ltb (PFloat half) (PInt 1) = true /\
  py_ltb (PFloat S754_nan) (PInt 1) = false /\
  py_ltb (PInt 1) (PFloat S754_nan) = false.
Proof. vm_compute. repeat split; reflexivity. Qed.

Example generate_language_example :
  generate_language (I := echo_inference)
    [lit "a"; lit "b"; lit "c"] [[lit "x"]; [lit "y"]; [lit "z"]] 2 (Some 1%Z)
    (mk_world 0 [])
  = (Ok [mk_record (lit "a") [lit "x"] (lit "a!");
         mk_record (lit "b") [lit "y"] (lit "b!")],
     mk_world 1 [([lit "a"; lit "b"], [lit "a!"; lit "b!"])]).
Proof. reflexivity. Qed.

(** ** Results *)

Lemma rbind_ok {A B : Type} (r : result A) (k : A -> result B) (b : B) :
  rbind r k = Ok b -> exists a, r = Ok a /\ k a = Ok b.
Proof.
  destruct r as [a|e]; simpl; intros Hk; [exists a; auto | discriminate].
Qed.

(** ** Characters *)

Lemma mem_In (c : char) (l : list char) : mem c l = true <-> In c l.
Proof.
  unfold mem. rewrite existsb_exists. split.
  - intros (d & Hd & Heq). apply N.eqb_eq in Heq. now subst.
  - intros Hc. exists c. split; [exact Hc | apply N.eqb_refl].
Qed.

Lemma mem_checked (P : char -> bool) (l : list char) (c : char) :
  forallb P l = true -> mem c l = true -> P c = true.
Proof.
  intros Hall Hc. rewrite forallb_forall in Hall. now apply Hall, mem_In.
Qed.

Lemma settled_spec (c : char) :
  settled c = true -> lower_full c = [c] /\ c <> capital_sigma.
Proof.
  unfold settled. intros H. apply andb_true_iff in H. destruct H as [Hl Hs].
  split.
  - destruct (lower_full c) as [|d [|? ?]]; try discriminate.
    apply N.eqb_eq in Hl. now subst.
  - apply negb_true_iff, N.eqb_neq in Hs. exact Hs.
Qed.

Lemma space_settled (c : char) : is_space c = true -> settled c = true.
Proof. apply (mem_checked settled). vm_compute. reflexivity. Qed.


Lemma space_not_cased (c : char) : is_space c = true -> is_cased c = false.
Proof.
  intros Hc. apply negb_true_iff. revert Hc.
  apply (mem_checked (fun c => negb (is_cased c))). vm_compute. reflexivity.
Qed.

Lemma space_not_ignorable (c : char) :
  is_space c = true -> is_case_ignorable c = false.
Proof.
  intros Hc. apply negb_true_iff. revert Hc.
  apply (mem_checked (fun c => negb (is_case_ignorable c))). vm_compute. reflexivity.
Qed.


Lemma lower_full_cases (c : char) :
  lower_full c = [c] \/ lower_full c = [105; 775]%N \/
  exists p, In p lower_pairs /\ lower_full c = [snd p].
Proof.
  unfold lower_full. destruct (c =? 304)%N; [auto|].
  destruct (find _ lower_pairs) as [p|] eqn:Hfind; [|auto].
  right. right. exists p. split; [|reflexivity].
  now apply find_some in Hfind.
Qed.

Lemma lower_pairs_checked (P : char -> bool) (p : N * N) :
  forallb (fun p => P (snd p)) lower_pairs = true ->
  In p lower_pairs -> P (snd p) = true.
Proof. intros Hall Hp. rewrite forallb_forall in Hall. now apply Hall. Qed.

Lemma lower_full_settled (c : char) :
  c <> capital_sigma -> Forall (fun d => settled d = true) (lower_full c).
Proof.
  intros Hc. destruct (lower_full_cases c) as [H|[H|(p & Hp & H)]].
  - rewrite H. repeat constructor. unfold settled. rewrite H, N.eqb_refl.
    now apply negb_true_iff, N.eqb_neq.
  - rewrite H. repeat constructor.
  - rewrite H. repeat constructor. revert Hp.
    apply (lower_pairs_checked settled). vm_compute. reflexivity.
Qed.

Lemma lower_full_nonspace (c : char) :
  is_space c = false -> Forall (fun d => is_space d = false) (lower_full c).
Proof.
  intros Hc. destruct (lower_full_cases c) as [H|[H|(p & Hp & H)]].
  - rewrite H. now repeat constructor.
  - rewrite H. repeat constructor.
  - rewrite H. repeat constructor. apply negb_true_iff. revert Hp.
    apply (lower_pairs_checked (fun d => negb (is_space d))).
    vm_compute. reflexivity.
Qed.

Lemma lower_full_nonempty (c : char) : lower_full c <> [].
Proof.
  destruct (lower_full_cases c) as [H|[H|(p & _ & H)]]; rewrite H; discriminate.
Qed.

(** ** [split] *)

Lemma starts_word_app_space (x : str) (w : char) (y : str) :
  is_space w = true -> starts_word (x ++ w :: y) = starts_word x.
Proof. intros Hw. destruct x as [|c x]; simpl; [now rewrite Hw | reflexivity]. Qed.

Lemma split_starts_word (s : str) :
  starts_word s = true -> exists w ws, split s = w :: ws.
Proof.
  destruct s as [|c s]; simpl; [discriminate|].
  intros Hc. apply negb_true_iff in Hc. rewrite Hc.
  destruct (starts_word s); [destruct (split s)|]; eauto.
Qed.

Lemma split_app_space (x : str) (w : char) (y : str) :
  is_space w = true -> split (x ++ w :: y) = split x ++ split y.
Proof.
  intros Hw. induction x as [|c x IH]; simpl.
  - now rewrite Hw.
  - destruct (is_space c); [exact IH|].
    rewrite starts_word_app_space by exact Hw. rewrite IH.
    destruct (starts_word x) eqn:Hx; [|reflexivity].
    destruct (split_starts_word x Hx) as (w0 & ws & ->). reflexivity.
Qed.

Lemma split_word (w : str) : is_word w -> split w = [w].
Proof.
  intros [Hne Hsp]. induction Hsp as [|c w Hc Hw IH]; [congruence|].
  simpl. rewrite Hc. destruct w as [|c' w]; [reflexivity|].
  simpl starts_word. inversion Hw as [|? ? Hc' _]; subst. rewrite Hc'. simpl negb.
  cbv iota. rewrite IH by discriminate. reflexivity.
Qed.

Lemma split_spaceless (x : str) :
  Forall (fun c => is_space c = false) x ->
  split x = match x with [] => [] | _ :: _ => [x] end.
Proof.
  intros Hx. destruct x as [|c x]; [reflexivity|].
  apply split_word. split; [discriminate | exact Hx].
Qed.

Lemma first_space (s : str) :
  Forall (fun c => is_space c = false) s \/
  exists x w y, s = x ++ w :: y /\
    Forall (fun c => is_space c = false) x /\ is_space w = true.
Proof.
  induction s as [|c s [IH|(x & w & y & -> & Hx & Hw)]].
  - left. constructor.
  - destruct (is_space c) eqn:Hc.
    + right. exists [], c, s. repeat split; [constructor | exact Hc].
    + left. now constructor.
  - destruct (is_space c) eqn:Hc.
    + right. exists [], c, (x ++ w :: y). repeat split; [constructor | exact Hc].
    + right. exists (c :: x), w, y. repeat split; [now constructor | exact Hw].
Qed.

(** ** [lower] *)

Lemma cased_ahead_space (p : str) (w : char) (q : str) :
  is_space w = true -> cased_ahead (p ++ w :: q) = cased_ahead p.
Proof.
  intros Hw. induction p as [|c p IH]; simpl.
  - now rewrite (space_not_ignorable w Hw), (space_not_cased w Hw).
  - now rewrite IH.
Qed.

Lemma lower_from_before (p : str) (w : char) (q text : str) :
  is_space w = true -> lower_from (p ++ w :: q) text = lower_from p text.
Proof.
  intros Hw. revert p. induction text as [|c rest IH]; intros p; [reflexivity|].
  cbn [lower_from]. rewrite cased_ahead_space by exact Hw.
  change (c :: p ++ w :: q) with ((c :: p) ++ w :: q).
  now rewrite (IH (c :: p)).
Qed.

Lemma lower_from_space (before : str) (w : char) (y : str) :
  is_space w = true -> lower_from before (w :: y) = w :: lower_from [] y.
Proof.
  intros Hw. cbn [lower_from].
  destruct (settled_spec w (space_settled w Hw)) as [Hfull Hsigma].
  apply N.eqb_neq in Hsigma. rewrite Hsigma, Hfull.
  cbn [app]. f_equal. exact (lower_from_before [] w before y Hw).
Qed.

Lemma lower_from_app_space (before x : str) (w : char) (y : str) :
  is_space w = true ->
  lower_from before (x ++ w :: y) = lower_from before x ++ w :: lower_from [] y.
Proof.
  intros Hw. revert before. induction x as [|c x IH]; intros before.
  - now apply lower_from_space.
  - cbn [app lower_from]. rewrite cased_ahead_space by exact Hw.
    now rewrite IH, <- app_assoc.
Qed.

Lemma lower_app_space (x : str) (w : char) (y : str) :
  is_space w = true -> lower (x ++ w :: y) = lower x ++ w :: lower y.
Proof. apply lower_from_app_space. Qed.

Lemma lower_from_settled (before text : str) :
  Forall (fun c => settled c = true) text -> lower_from before text = text.
Proof.
  intros Htext. revert before.
  induction Htext as [|c rest Hc _ IH]; intros before; [reflexivity|].
  cbn [lower_from]. destruct (settled_spec c Hc) as [Hfull Hsigma].
  apply N.eqb_neq in Hsigma. now rewrite Hsigma, Hfull, IH.
Qed.

Lemma lower_from_all_settled (before text : str) :
  Forall (fun c => settled c = true) (lower_from before text).
Proof.
  revert before. induction text as [|c rest IH]; intros before; [constructor|].
  cbn [lower_from]. apply Forall_app. split; [|apply IH].
  destruct (N.eqb_spec c capital_sigma) as [_|Hc].
  - destruct (cased_ahead before && negb (cased_ahead rest));
      repeat constructor.
  - now apply lower_full_settled.
Qed.

Lemma lower_settled (text : str) :
  Forall (fun c => settled c = true) text -> lower text = text.
Proof. apply lower_from_settled. Qed.

Lemma lower_idem (s : str) : lower (lower s) = lower s.
Proof. apply lower_settled, lower_from_all_settled. Qed.


Lemma lower_from_nonspace (before text : str) :
  Forall (fun c => is_space c = false) text ->
  Forall (fun c => is_space c = false) (lower_from before text).
Proof.
  intros Htext. revert before.
  induction Htext as [|c rest Hc _ IH]; intros before; [constructor|].
  cbn [lower_from]. apply Forall_app. split; [|apply IH].
  destruct (c =? capital_sigma)%N; [|now apply lower_full_nonspace].
  destruct (cased_ahead before && negb (cased_ahead rest)); now repeat constructor.
Qed.

Lemma lower_from_nonempty (before : str) (c : char) (rest : str) :
  lower_from before (c :: rest) <> [].
Proof.
  cbn [lower_from]. intros H. apply app_eq_nil in H. destruct H as [H _].
  destruct (c =? capital_sigma)%N; [discriminate|].
  now apply lower_full_nonempty in H.
Qed.

Lemma split_lower_spaceless (x : str) :
  Forall (fun c => is_space c = false) x -> split (lower x) = map lower (split x).
Proof.
  intros Hx. rewrite (split_spaceless x Hx).
  rewrite split_spaceless by now apply lower_from_nonspace.
  destruct x as [|c x]; [reflexivity|]. cbn [map].
  destruct (lower (c :: x)) eqn:Hl; [|reflexivity].
  now apply lower_from_nonempty in Hl.
Qed.

Lemma split_lower_bounded (n : nat) (s : str) :
  length s <= n -> split (lower s) = map lower (split s).
Proof.
  revert s. induction n as [|n IH]; intros s Hn.
  - destruct s; [reflexivity | simpl in Hn; lia].
  - destruct (first_space s) as [Hs|(x & w & y & -> & Hx & Hw)].
    + now apply split_lower_spaceless.
    + rewrite lower_app_space, !split_app_space by exact Hw.
      rewrite map_app, (split_lower_spaceless x Hx). f_equal.
      apply IH. rewrite length_app in Hn. simpl in Hn. lia.
Qed.

Lemma split_lower (s : str) : split (lower s) = map lower (split s).
Proof. now apply (split_lower_bounded (length s)). Qed.

(** ** [words] *)

Lemma words_acc_split (cur s : str) :
  Forall (fun c => is_space c = false) cur ->
  words_acc cur s = split (rev cur ++ s).
Proof.
  revert cur. induction s as [|c s IH]; intros cur Hcur.
  - cbn [words_acc]. rewrite app_nil_r.
    rewrite split_spaceless by now apply Forall_rev.
    destruct cur as [|d cur]; [reflexivity|].
    destruct (rev (d :: cur)) eqn:Hr; [|reflexivity].
    apply (f_equal (@length char)) in Hr. rewrite length_rev in Hr. discriminate.
  - cbn [words_acc]. destruct (is_space c) eqn:Hc.
    + rewrite split_app_space by exact Hc.
      rewrite (IH [] (Forall_nil _)). cbn [rev app].
      rewrite (split_spaceless (rev cur)) by now apply Forall_rev.
      destruct cur as [|d cur]; [reflexivity|].
      destruct (rev (d :: cur)) eqn:Hr; [|reflexivity].
      apply (f_equal (@length char)) in Hr. rewrite length_rev in Hr. discriminate.
    + rewrite IH by now constructor. cbn [rev]. now rewrite <- app_assoc.
Qed.

Lemma split_words_eq (s : str) : split s = words s.
Proof. symmetry. apply (words_acc_split [] s). constructor. Qed.



Lemma join_cons2 (sep w w' : str) (ws : list str) :
  join sep (w :: w' :: ws) = w ++ sep ++ join sep (w' :: ws).
Proof. reflexivity. Qed.


(** ** Squeezed whitespace *)




(** ** [normalize_answer] *)










Lemma exact_match_cases (p r : str) :
  (normalize_answer p = normalize_answer r /\ exact_match p r = 1%R) \/
  (normalize_answer p <> normalize_answer r /\ exact_match p r = 0%R).
Proof.
  unfold exact_match, str_eqb.
  destruct (list_eq_dec N.eq_dec (normalize_answer p) (normalize_answer r));
    [left | right]; split; auto.
Qed.




(** ** [mapM] *)

Lemma mapM_map {A B C : Type} (f : B -> result C) (h : A -> B) (l : list A) :
  mapM f (map h l) = mapM (fun x => f (h x)) l.
Proof. induction l as [|x l IH]; simpl; [reflexivity | now rewrite IH]. Qed.

Lemma mapM_total {A B : Type} (f : A -> result B) (g : A -> B) (l : list A) :
  Forall (fun x => f x = Ok (g x)) l -> mapM f l = Ok (map g l).
Proof.
  induction 1 as [|x l Hx _ IH]; simpl; [reflexivity|].
  now rewrite Hx, IH.
Qed.

Lemma mapM_ext {A B : Type} (f g : A -> result B) (l : list A) :
  (forall x, f x = g x) -> mapM f l = mapM g l.
Proof.
  intros Hfg. induction l as [|x l IH]; simpl; [reflexivity|].
  now rewrite Hfg, IH.
Qed.

Lemma combine_map_same {A B C : Type} (f : A -> B) (g : A -> C) (l : list A) :
  combine (map f l) (map g l) = map (fun x => (f x, g x)) l.
Proof. induction l as [|x l IH]; simpl; [reflexivity | now rewrite IH]. Qed.

(** ** [max] and [metric_max_over_references] *)

Lemma max_step_Rmax (m y : R) : (if Rlt_dec m y then y else m) = Rmax m y.
Proof.
  unfold Rmax. destruct (Rlt_dec m y), (Rle_dec m y); try reflexivity; lra.
Qed.

Lemma py_max_maximum (x : R) (rest : list R) :
  py_max (x :: rest) = Ok (maximum (x :: rest)).
Proof.
  unfold py_max, maximum. f_equal.
  rewrite <- (fold_symmetric Rmax Rmax_assoc x (Rmax_comm x) rest).
  revert x. induction rest as [|y rest IH]; intros x; simpl; [reflexivity|].
  now rewrite max_step_Rmax, IH.
Qed.

Lemma maximum_is_maximum (xs : list R) : xs <> [] -> is_maximum (maximum xs) xs.
Proof.
  destruct xs as [|x rest]; [congruence|]. intros _. unfold maximum.
  induction rest as [|y rest [IHin IHle]]; simpl.
  - split; [now left | intros z [<-|[]]; lra].
  - split.
    + apply Rmax_case; [now right; left|].
      destruct IHin as [<-|Hin]; [now left | now right; right].
    + intros z [<-|[<-|Hz]].
      * eapply Rle_trans; [apply IHle; now left | apply Rmax_r].
      * apply Rmax_l.
      * eapply Rle_trans; [apply IHle; now right | apply Rmax_r].
Qed.

Lemma metric_max_nonempty (metric_fn : str -> str -> R) (prediction : str)
  (references : list str) :
  references <> [] ->
  metric_max_over_references metric_fn prediction references
  = Ok (maximum (map (fun r => metric_fn prediction r) references)).
Proof.
  destruct references as [|r rest]; [congruence|]. intros _.
  unfold metric_max_over_references. simpl map. apply py_max_maximum.
Qed.

Lemma max_scores_columns (metric_fn : str -> str -> R) (data : list gen_record) :
  max_scores metric_fn (map generation data) (map reference data)
  = mapM (fun rec => metric_max_over_references metric_fn
                       (generation rec) (reference rec)) data.
Proof.
  unfold max_scores. rewrite combine_map_same, mapM_map. reflexivity.
Qed.

Lemma max_scores_ok (metric_fn : str -> str -> R) (data : list gen_record) :
  Forall (fun rec => reference rec <> []) data ->
  max_scores metric_fn (map generation data) (map reference data)
  = Ok (map (best_score metric_fn) data).
Proof.
  intros Hrefs. rewrite max_scores_columns. apply mapM_total.
  eapply Forall_impl; [|exact Hrefs]. intros rec Hrec.
  now apply metric_max_nonempty.
Qed.

Lemma max_scores_raise (metric_fn : str -> str -> R) (data : list gen_record) :
  Exists (fun rec => reference rec = []) data ->
  max_scores metric_fn (map generation data) (map reference data)
  = Raise ValueError.
Proof.
  rewrite max_scores_columns.
  induction data as [|rec data IH]; intros Hex; [inversion Hex|].
  simpl. destruct (reference rec) as [|r rest] eqn:Href.
  - reflexivity.
  - rewrite metric_max_nonempty by discriminate. simpl.
    inversion Hex as [? ? Hrec | ? ? Htail]; subst; [congruence|].
    now rewrite IH.
Qed.

(** C9. [metric_max_over_references] raises (the maximum of an empty
    sequence) when the references list is empty, so [compute_metrics]
    fails on data with a record whose reference list is empty; for a
    non-empty references list it returns the maximum of
    [metric_fn prediction r] over the references [r]. *)
Theorem metric_max_over_references_raises_or_max
  (metric_fn : str -> str -> R) (prediction : str) (references : list str) :
  (references = [] ->
   metric_max_over_references metric_fn prediction references
   = Raise ValueError) /\
  (references <> [] ->
   exists m,
     metric_max_over_references metric_fn prediction references = Ok m /\
     is_maximum m (map (fun r => metric_fn prediction r) references)) /\
  (forall (S : Scorers) (data : list gen_record),
     Exists (fun rec => reference rec = []) data ->
     compute_metrics data = Raise ValueError).
Proof.
  repeat split.
  - intros ->. reflexivity.
  - intros Hne. eexists. split; [now apply metric_max_nonempty|].
    apply maximum_is_maximum. destruct references; [congruence | discriminate].
  - intros S data Hex. unfold compute_metrics.
    destruct data as [|rec data]; [inversion Hex|].
    unfold unpack_columns, rbind at 1.
    now rewrite max_scores_raise.
Qed.

Lemma metric_max_over_references_raises_or_max_witness :
  metric_max_over_references exact_match (lit "a") [] = Raise ValueError /\
  (exists m,
     metric_max_over_references exact_match (lit "a") [lit "b"; lit "A"] = Ok m /\
     is_maximum m (map (fun r => exact_match (lit "a") r) [lit "b"; lit "A"])) /\
  compute_metrics (S := constant_scorers 0)
    [sample_record; mk_record (lit "q") [] (lit "a")] = Raise ValueError.
Proof.
  split; [|split].
  - apply (metric_max_over_references_raises_or_max exact_match (lit "a") []).
    reflexivity.
  - apply (metric_max_over_references_raises_or_max
             exact_match (lit "a") [lit "b"; lit "A"]).
    discriminate.
  - apply (metric_max_over_references_raises_or_max exact_match (lit "a") []).
    apply Exists_cons_tl, Exists_cons_hd. reflexivity.
Defined.

(** ** [strip] *)

Lemma split_lstrip (s : str) : split (lstrip s) = split s.
Proof.
  induction s as [|c s IH]; simpl; [reflexivity|].
  destruct (is_space c) eqn:Hc; [exact IH|].
  simpl. now rewrite Hc.
Qed.

Lemma lstrip_decompose (s : str) :
  exists ws, s = ws ++ lstrip s /\ Forall (fun w => is_space w = true) ws.
Proof.
  induction s as [|c s (ws & Hs & Hws)]; simpl.
  - exists []. split; [reflexivity | constructor].
  - destruct (is_space c) eqn:Hc.
    + exists (c :: ws). split; [simpl; now rewrite <- Hs | now constructor].
    + exists []. split; [reflexivity | constructor].
Qed.

Lemma split_all_space (ws : str) :
  Forall (fun w => is_space w = true) ws -> split ws = [].
Proof. induction 1 as [|w ws Hw _ IH]; simpl; [reflexivity | now rewrite Hw]. Qed.

Lemma split_app_all_space (s ws : str) :
  Forall (fun w => is_space w = true) ws -> split (s ++ ws) = split s.
Proof.
  intros Hws. destruct Hws as [|w ws Hw Hws]; [now rewrite app_nil_r|].
  rewrite split_app_space by exact Hw.
  rewrite (split_all_space _ Hws). apply app_nil_r.
Qed.

Lemma split_rstrip (s : str) : split (rstrip s) = split s.
Proof.
  unfold rstrip. destruct (lstrip_decompose (rev s)) as (ws & Hs & Hws).
  assert (Hrev : s = rev (lstrip (rev s)) ++ rev ws).
  { rewrite <- rev_app_distr, <- Hs. symmetry. apply rev_involutive. }
  rewrite Hrev at 2. symmetry. apply split_app_all_space.
  now apply Forall_rev.
Qed.

Lemma split_strip (s : str) : split (strip s) = split s.
Proof. unfold strip. now rewrite split_rstrip, split_lstrip. Qed.

Lemma gram_length_token_count (s : str) : gram_length s = INR (token_count s).
Proof. unfold gram_length, token_count. now rewrite split_strip, split_words_eq. Qed.

(** ** numpy reductions *)

Lemma np_mean_arithmetic (xs : list R) : np_mean xs = arithmetic_mean xs.
Proof. reflexivity. Qed.

Lemma np_std_population (xs : list R) : np_std xs = population_std xs.
Proof.
  unfold np_std, population_std. rewrite !np_mean_arithmetic.
  do 2 f_equal. apply map_ext. intros x.
  now rewrite pow2_abs, Rsqr_pow2.
Qed.

(** ** [compute_metrics] *)

Lemma unpack_columns_ok (data : list gen_record) :
  data <> [] ->
  unpack_columns data
  = Ok (map prompt data, map generation data, map reference data).
Proof. destruct data; [congruence | reflexivity]. Qed.

Lemma compute_metrics_ok (S : Scorers) (data : list gen_record) :
  data <> [] -> Forall (fun rec => reference rec <> []) data ->
  let n := sqrt (INR (length data)) in
  let rouge1 := map (best_score rouge1_score) data in
  let rougel := map (best_score rougeL_score) data in
  let exact := map (best_score exact_match) data in
  let lengths := map (fun rec => INR (token_count (generation rec))) data in
  compute_metrics data
  = Ok [ ("rouge1"%string, arithmetic_mean rouge1);
         ("rouge1_err"%string, (population_std rouge1 / n)%R);
         ("rougeL"%string, arithmetic_mean rougel);
         ("rougeL_err"%string, (population_std rougel / n)%R);
         ("exact_match"%string, arithmetic_mean exact);
         ("exact_match_err"%string, (population_std exact / n)%R);
         ("diversity2"%string, diversity (map generation data) 2);
         ("diversity3"%string, diversity (map generation data) 3);
         ("avg_length"%string, arithmetic_mean lengths);
         ("avg_length_err"%string, (population_std lengths / n)%R) ].
Proof.
  intros Hne Hrefs n rouge1 rougel exact lengths.
  unfold compute_metrics. rewrite (unpack_columns_ok _ Hne).
  unfold rbind at 1. rewrite !max_scores_ok by exact Hrefs.
  unfold rbind. rewrite !np_std_population, !np_mean_arithmetic.
  unfold np_sqrt_len.
  rewrite map_map, !length_map.
  rewrite (map_ext (fun rec => gram_length (generation rec))
                   (fun rec => INR (token_count (generation rec))))
    by (intros rec; apply gram_length_token_count).
  reflexivity.
Qed.

Lemma references_checked (data : list gen_record) :
  Forall (fun rec => reference rec <> []) data \/
  Exists (fun rec => reference rec = []) data.
Proof.
  induction data as [|rec data [IH|IH]].
  - left. constructor.
  - destruct (reference rec) eqn:Href.
    + right. now apply Exists_cons_hd.
    + left. constructor; [congruence | exact IH].
  - right. now apply Exists_cons_tl.
Qed.

Lemma compute_metrics_raise (S : Scorers) (data : list gen_record) :
  data = [] \/ Exists (fun rec => reference rec = []) data ->
  compute_metrics data = Raise ValueError.
Proof.
  intros [-> | Hex]; [reflexivity|].
  unfold compute_metrics. destruct data as [|rec data]; [reflexivity|].
  unfold unpack_columns, rbind at 1. now rewrite max_scores_raise.
Qed.

Lemma compute_metrics_inv (S : Scorers) (data : list gen_record) (d : metrics) :
  compute_metrics data = Ok d ->
  data <> [] /\ Forall (fun rec => reference rec <> []) data.
Proof.
  intros Hd. split.
  - intros ->. discriminate.
  - destruct (references_checked data) as [Hall|Hex]; [exact Hall|].
    rewrite compute_metrics_raise in Hd by now right. discriminate.
Qed.

Lemma str_eqb_true (a b : str) : a = b -> str_eqb a b = true.
Proof.
  intros ->. unfold str_eqb. destruct (list_eq_dec N.eq_dec b b); congruence.
Qed.

Lemma str_eqb_false (a b : str) : a <> b -> str_eqb a b = false.
Proof.
  intros Hne. unfold str_eqb. destruct (list_eq_dec N.eq_dec a b); congruence.
Qed.

Lemma exact_match_one (p r : str) :
  normalize_answer p = normalize_answer r -> exact_match p r = 1%R.
Proof.
  intros Heq. destruct (exact_match_cases p r) as [[_ H]|[H _]];
    [exact H | contradiction].
Qed.

Lemma exact_match_zero (p r : str) :
  normalize_answer p <> normalize_answer r -> exact_match p r = 0%R.
Proof.
  intros Hne. destruct (exact_match_cases p r) as [[H _]|[_ H]];
    [contradiction | exact H].
Qed.

Ltac eval_max :=
  repeat match goal with
         | |- context [Rmax ?a ?b] =>
             first [ rewrite (Rmax_left a b) by lra
                   | rewrite (Rmax_right a b) by lra ]
         end.

(** Mean and deviation of two values. *)
Lemma arithmetic_mean_pair (a b : R) : arithmetic_mean [a; b] = ((a + b) / 2)%R.
Proof. unfold arithmetic_mean. cbn [fold_right length INR]. lra. Qed.

Lemma standard_error_pair (a b e : R) :
  (a - b = 2 * e \/ b - a = 2 * e)%R -> (0 <= e)%R ->
  (population_std [a; b] / sqrt (INR (length [a; b])) = e / sqrt 2)%R.
Proof.
  intros Hab He. unfold population_std. rewrite arithmetic_mean_pair.
  cbn [map]. rewrite arithmetic_mean_pair.
  replace ((Rsqr (a - (a + b) / 2) + Rsqr (b - (a + b) / 2)) / 2)%R
    with (Rsqr e) by (unfold Rsqr; destruct Hab; nra).
  rewrite sqrt_Rsqr by exact He.
  cbn [length INR]. now replace (1 + 1)%R with 2%R by lra.
Qed.

(** The scores of the sample data. *)
Lemma sample_rouge1 (bleu : R) :
  map (best_score (rouge1_score (Scorers := sample_scorers bleu))) sample_data
  = [0; 1]%R.
Proof.
  unfold sample_data, best_score.
  cbn [map generation reference rouge1_score sample_scorers maximum fold_right].
  rewrite (str_eqb_true (lit "a b") (lit "a b")) by reflexivity.
  rewrite !str_eqb_false by (vm_compute; discriminate).
  eval_max.
  reflexivity.
Qed.

Lemma sample_rougeL (bleu : R) :
  map (best_score (rougeL_score (Scorers := sample_scorers bleu))) sample_data
  = [1 / 2; 1]%R.
Proof.
  unfold sample_data, best_score.
  cbn [map generation reference rougeL_score sample_scorers maximum fold_right].
  rewrite (str_eqb_true (lit "a b") (lit "a b")) by reflexivity.
  rewrite !str_eqb_false by (vm_compute; discriminate).
  eval_max.
  reflexivity.
Qed.

Lemma sample_exact_match :
  map (best_score exact_match) sample_data = [0; 1]%R.
Proof.
  unfold sample_data, best_score.
  cbn [map generation reference maximum fold_right].
  rewrite (exact_match_zero (lit "a b") (lit "x y")) by (vm_compute; discriminate).
  rewrite (exact_match_one (lit "a b") (lit "a b")) by reflexivity.
  rewrite (exact_match_one (lit "a b") (lit "A  b.")) by (vm_compute; reflexivity).
  rewrite (exact_match_zero (lit "d e  f g") (lit "c")) by (vm_compute; discriminate).
  eval_max.
  reflexivity.
Qed.

Lemma sample_lengths :
  map (fun rec => INR (token_count (generation rec))) sample_data = [4; 2]%R.
Proof.
  unfold sample_data. cbn [map generation].
  replace (token_count (lit "d e  f g")) with 4 by (vm_compute; reflexivity).
  replace (token_count (lit "a b")) with 2 by (vm_compute; reflexivity).
  rewrite !INR_IZR_INZ. reflexivity.
Qed.

Lemma sample_data_checked :
  sample_data <> [] /\ Forall (fun rec => reference rec <> []) sample_data.
Proof. split; [discriminate | repeat constructor; discriminate]. Qed.

(** C7. On non-empty data whose reference lists are all non-empty,
    [compute_metrics] reports rouge1, rougeL and exact_match as the
    arithmetic mean over the records of the record's maximum metric value
    over its references, avg_length as the mean number of
    whitespace-separated tokens of the generations, and every [_err] as
    the population standard deviation of the same per-record scores
    divided by the square root of the number of records. *)
Theorem compute_metrics_aggregates (S : Scorers) (data : list gen_record) :
  data <> [] -> Forall (fun rec => reference rec <> []) data ->
  exists d : metrics,
    compute_metrics data = Ok d /\
    reports d "rouge1" (map (best_score rouge1_score) data) /\
    reports d "rougeL" (map (best_score rougeL_score) data) /\
    reports d "exact_match" (map (best_score exact_match) data) /\
    reports d "avg_length"
      (map (fun rec => INR (token_count (generation rec))) data).
Proof.
  intros Hne Hrefs. eexists. split; [apply (compute_metrics_ok S _ Hne Hrefs)|].
  unfold reports. rewrite !length_map.
  repeat split; reflexivity.
Qed.

Lemma compute_metrics_aggregates_witness :
  exists d : metrics,
    compute_metrics (S := sample_scorers 0) sample_data = Ok d /\
    dict_get "rouge1" d = Some (1 / 2)%R /\
    dict_get "rouge1_err" d = Some (1 / 2 / sqrt 2)%R /\
    dict_get "rougeL" d = Some (3 / 4)%R /\
    dict_get "rougeL_err" d = Some (1 / 4 / sqrt 2)%R /\
    dict_get "exact_match" d = Some (1 / 2)%R /\
    dict_get "exact_match_err" d = Some (1 / 2 / sqrt 2)%R /\
    dict_get "avg_length" d = Some 3%R /\
    dict_get "avg_length_err" d = Some (1 / sqrt 2)%R.
Proof.
  destruct sample_data_checked as [Hne Hrefs].
  destruct (compute_metrics_aggregates (sample_scorers 0) sample_data Hne Hrefs)
    as (d & Hd & [H1 H1e] & [HL HLe] & [HE HEe] & [Hlen Hlene]).
  rewrite (sample_rouge1 0) in H1, H1e. rewrite (sample_rougeL 0) in HL, HLe.
  rewrite sample_exact_match in HE, HEe. rewrite sample_lengths in Hlen, Hlene.
  rewrite arithmetic_mean_pair in H1, HL, HE, Hlen.
  rewrite (standard_error_pair 0 1 (1 / 2)) in H1e, HEe by lra.
  rewrite (standard_error_pair (1 / 2) 1 (1 / 4)) in HLe by lra.
  rewrite (standard_error_pair 4 2 1) in Hlene by lra.
  exists d. split; [exact Hd|].
  repeat split;
    [ rewrite H1 | exact H1e | rewrite HL | exact HLe
    | rewrite HE | exact HEe | rewrite Hlen | exact Hlene ];
    f_equal; lra.
Defined.


(** ** n-grams and [diversity] *)

Lemma windows_one {A : Type} (l : list A) : windows 1 l = map (fun x => [x]) l.
Proof. induction l as [|x l IH]; simpl; [reflexivity | now rewrite <- IH]. Qed.

Lemma windows_cons {A : Type} (n : nat) (x : A) (l : list A) :
  windows n (x :: l)
  = if n <=? S (length l) then firstn n (x :: l) :: windows n l else [].
Proof. reflexivity. Qed.

Lemma windows_succ {A : Type} (k : nat) (l : list A) :
  1 <= k ->
  windows (S k) l = map (fun p => fst p :: snd p) (combine l (windows k (tl l))).
Proof.
  intros Hk. induction l as [|x l IH]; [reflexivity|].
  rewrite windows_cons. cbn [tl]. destruct l as [|y l].
  - replace (S k <=? S (length (@nil A))) with false
      by (symmetry; apply Nat.leb_gt; simpl; lia).
    reflexivity.
  - cbn [tl] in IH. rewrite IH, (windows_cons k y l).
    change (S k <=? S (length (y :: l))) with (k <=? S (length l)).
    destruct (k <=? S (length l)); reflexivity.
Qed.

Lemma suffixes_shift {A : Type} (k : nat) (l : list A) :
  map (fun i => skipn i l) (seq 1 k) = map (fun i => skipn i (tl l)) (seq 0 k).
Proof.
  rewrite <- seq_shift, map_map. apply map_ext. intros i.
  destruct l; [now rewrite !skipn_nil | reflexivity].
Qed.

Lemma zip_star_suffixes {A : Type} (k : nat) (l : list A) :
  zip_star (map (fun i => skipn i l) (seq 0 (S k))) = windows (S k) l.
Proof.
  revert l. induction k as [|k IH]; intros l.
  - simpl. symmetry. apply windows_one.
  - rewrite windows_succ by lia. rewrite <- IH.
    change (seq 0 (S (S k))) with (0 :: seq 1 (S k)).
    cbn [map]. rewrite suffixes_shift.
    change (seq 0 (S k)) with (0 :: seq 1 k). reflexivity.
Qed.

Lemma n_grams_of_windows (n : Z) (tokens : list str) :
  (1 <= n)%Z -> n_grams_of n tokens = windows (Z.to_nat n) tokens.
Proof.
  intros Hn. unfold n_grams_of, py_range1.
  destruct (Z.to_nat n) as [|k] eqn:Hk; [lia|]. apply zip_star_suffixes.
Qed.

Lemma flat_map_map {A B C : Type} (f : B -> list C) (g : A -> B) (l : list A) :
  flat_map f (map g l) = flat_map (fun x => f (g x)) l.
Proof. induction l as [|x l IH]; simpl; [reflexivity | now rewrite IH]. Qed.

Lemma all_n_grams_word_ngrams (predictions : list str) (n : Z) :
  (1 <= n)%Z -> all_n_grams predictions n = word_ngrams predictions n.
Proof.
  intros Hn. unfold all_n_grams, word_ngrams, raw_ngrams.
  rewrite flat_map_map. apply flat_map_ext. intros p.
  now rewrite n_grams_of_windows, split_strip, split_words_eq.
Qed.

Lemma token_count_lower (p : str) : token_count (lower p) = token_count p.
Proof.
  unfold token_count. now rewrite <- !split_words_eq, split_lower, length_map.
Qed.

Lemma windows_short {A : Type} (n : nat) (l : list A) :
  length l < n -> windows n l = [].
Proof.
  intros Hlt. destruct l as [|x l]; [reflexivity|].
  cbn [windows]. destruct (Nat.leb_spec n (length (x :: l))); [lia | reflexivity].
Qed.

Lemma word_ngrams_short (predictions : list str) (n : Z) :
  Forall (fun p => (Z.of_nat (token_count p) < n)%Z) predictions ->
  word_ngrams predictions n = [].
Proof.
  unfold word_ngrams, raw_ngrams.
  induction 1 as [|p ps Hp _ IH]; simpl; [reflexivity|].
  rewrite <- token_count_lower in Hp. unfold token_count in Hp.
  rewrite windows_short by lia. exact IH.
Qed.

Lemma len_set_le (xs : list (list str)) : len_set xs <= length xs.
Proof.
  unfold len_set. apply NoDup_incl_length; [apply NoDup_nodup|].
  intros x Hx. now apply nodup_In in Hx.
Qed.

Lemma len_set_pos (xs : list (list str)) : xs <> [] -> 1 <= len_set xs.
Proof.
  unfold len_set. destruct xs as [|x xs]; [congruence|]. intros _.
  assert (Hin : In x (nodup ngram_eq_dec (x :: xs)))
    by (apply nodup_In; now left).
  destruct (nodup ngram_eq_dec (x :: xs)); [destruct Hin | simpl; lia].
Qed.

Lemma ratio_in_unit (d t : nat) : 1 <= d -> d <= t -> (0 < INR d / INR t <= 1)%R.
Proof.
  intros Hd Hdt.
  assert (Hd' : (0 < INR d)%R) by (apply lt_0_INR; lia).
  assert (Ht' : (0 < INR t)%R) by (apply lt_0_INR; lia).
  assert (Hle : (INR d <= INR t)%R) by now apply le_INR.
  split.
  - now apply Rdiv_lt_0_compat.
  - apply (Rmult_le_reg_r (INR t)); [exact Ht'|].
    unfold Rdiv. rewrite Rmult_assoc, Rinv_l by lra. lra.
Qed.

Lemma lists_distinct_length (distinct xs : list (list str)) :
  lists_distinct distinct xs -> length distinct = len_set xs.
Proof.
  intros [Hnd Hsame]. unfold len_set. apply Permutation_length.
  apply NoDup_Permutation; [exact Hnd | apply NoDup_nodup|].
  intros g. rewrite nodup_In. apply Hsame.
Qed.

(** C6, as the code has it. For [1 <= n], [diversity] is the number of
    distinct word-level n-grams of the lower-cased predictions over the
    number of n-grams collected across them; it is defined on every
    input: with no n-gram at all (an empty list, or every prediction
    shorter than [n] tokens) it is 1.0, and its value always lies in
    (0, 1]. *)
Theorem diversity_distinct_ratio (predictions : list str) (n : Z) :
  (1 <= n)%Z ->
  let grams := word_ngrams predictions n in
  (forall distinct : list (list str),
     lists_distinct distinct grams -> grams <> [] ->
     diversity predictions n
     = (INR (length distinct) / INR (length grams))%R) /\
  (grams = [] -> diversity predictions n = 1%R) /\
  (predictions = [] -> diversity predictions n = 1%R) /\
  (Forall (fun p => (Z.of_nat (token_count p) < n)%Z) predictions ->
   diversity predictions n = 1%R) /\
  (0 < diversity predictions n <= 1)%R.
Proof.
  intros Hn grams. unfold diversity.
  rewrite (all_n_grams_word_ngrams predictions n Hn). fold grams.
  assert (Hempty : grams = [] -> (if length grams =? 0 then 1%R
            else (INR (len_set grams) / INR (length grams))%R) = 1%R)
    by (intros ->; reflexivity).
  repeat split.
  - intros distinct Hdistinct Hne.
    rewrite (lists_distinct_length distinct grams Hdistinct).
    destruct grams; [congruence | reflexivity].
  - exact Hempty.
  - intros ->. reflexivity.
  - intros Hshort. apply Hempty. now apply word_ngrams_short.
  - destruct grams as [|g gs] eqn:Hg; simpl Nat.eqb; cbv iota; [lra|].
    apply ratio_in_unit; [apply len_set_pos; discriminate | apply len_set_le].
  - destruct grams as [|g gs] eqn:Hg; simpl Nat.eqb; cbv iota; [lra|].
    apply ratio_in_unit; [apply len_set_pos; discriminate | apply len_set_le].
Qed.

Lemma diversity_distinct_ratio_witness :
  diversity [lit "a b a b"; lit "A B"] 2 = (INR 2 / INR 4)%R /\
  diversity [lit "a b"] 3 = 1%R /\
  (0 < diversity [lit "a b a b"; lit "A B"] 2 <= 1)%R.
Proof.
  assert (H2 : (1 <= 2)%Z) by lia.
  assert (H3 : (1 <= 3)%Z) by lia.
  destruct (diversity_distinct_ratio [lit "a b a b"; lit "A B"] 2 H2)
    as (Hratio & _ & _ & _ & Hunit).
  destruct (diversity_distinct_ratio [lit "a b"] 3 H3)
    as (_ & _ & _ & Hshort & _).
  split; [|split].
  - apply (Hratio [[lit "a"; lit "b"]; [lit "b"; lit "a"]]).
    + split.
      * repeat constructor; simpl; intuition discriminate.
      * intros g. vm_compute. tauto.
    + vm_compute. discriminate.
  - apply Hshort. repeat constructor.
  - exact Hunit.
Defined.

(** C6, as stated, fails: the two predictions below have two word-level
    2-grams, which differ in the case of one letter, so two distinct
    2-grams out of two; [diversity] lower-cases the predictions first and
    returns one half. *)
Lemma diversity_distinct_ratio_counterexample :
  let predictions := [lit "A b"; lit "a b"] in
  lists_distinct (raw_ngrams predictions 2) (raw_ngrams predictions 2) /\
  length (raw_ngrams predictions 2) = 2 /\
  diversity predictions 2 = (1 / 2)%R /\
  diversity predictions 2
  <> (INR (length (raw_ngrams predictions 2))
      / INR (length (raw_ngrams predictions 2)))%R.
Proof.
  cbv zeta.
  assert (Hraw : raw_ngrams [lit "A b"; lit "a b"] 2
                 = [[lit "A"; lit "b"]; [lit "a"; lit "b"]])
    by (vm_compute; reflexivity).
  assert (Hgrams : all_n_grams [lit "A b"; lit "a b"] 2
                   = [[lit "a"; lit "b"]; [lit "a"; lit "b"]])
    by (vm_compute; reflexivity).
  assert (Hset : len_set [[lit "a"; lit "b"]; [lit "a"; lit "b"]] = 1)
    by (vm_compute; reflexivity).
  assert (Hhalf : diversity [lit "A b"; lit "a b"] 2 = (1 / 2)%R).
  { unfold diversity. rewrite Hgrams, Hset. cbn [length Nat.eqb INR]. lra. }
  rewrite Hraw, Hhalf. cbn [length INR].
  split; [|split; [reflexivity | split; [reflexivity | lra]]].
  split; [|tauto].
  repeat constructor; simpl; intuition discriminate.
Qed.

(** ** The metrics of [compute_metrics] *)

Lemma diversity_ratio (predictions : list str) (n : Z) :
  (1 <= n)%Z ->
  distinct_ratio (word_ngrams predictions n) (diversity predictions n).
Proof.
  intros Hn. unfold diversity, distinct_ratio.
  rewrite (all_n_grams_word_ngrams predictions n Hn).
  destruct (word_ngrams predictions n) as [|g gs] eqn:Hg; [now left|].
  right. split; [discriminate|].
  exists (nodup ngram_eq_dec (g :: gs)). split; [|reflexivity].
  split; [apply NoDup_nodup | intros x; apply nodup_In].
Qed.

Lemma best_score_ext (f g : str -> str -> R) (data : list gen_record) :
  (forall p r, f p r = g p r) ->
  map (best_score f) data = map (best_score g) data.
Proof.
  intros Hfg. apply map_ext. intros rec. unfold best_score. f_equal.
  apply map_ext. intros r. apply Hfg.
Qed.

(** C1, as the code has it. On non-empty data whose reference lists are
    all non-empty [compute_metrics] returns a dictionary; whenever it
    returns one, its keys are exactly rouge1, rouge1_err, rougeL,
    rougeL_err, exact_match, exact_match_err, diversity2, diversity3,
    avg_length and avg_length_err, in this order; rouge1, rougeL,
    exact_match and avg_length and their [_err] are computed from the
    ROUGE-1, ROUGE-L and exact-match scores and the token counts of the
    records; diversity2 and diversity3 are the ratios of distinct word
    2-grams and 3-grams; there is no BLEU score under any key, and the
    dictionary is the same whatever [sentence_bleu] computes. *)
Theorem compute_metrics_keys_without_bleu (S : Scorers) (data : list gen_record) :
  (data <> [] -> Forall (fun rec => reference rec <> []) data ->
   exists d : metrics, compute_metrics data = Ok d) /\
  (forall d : metrics,
     compute_metrics data = Ok d ->
     dict_keys d = metric_keys /\
     reports d "rouge1" (map (best_score rouge1_score) data) /\
     reports d "rougeL" (map (best_score rougeL_score) data) /\
     reports d "exact_match" (map (best_score exact_match) data) /\
     reports d "avg_length"
       (map (fun rec => INR (token_count (generation rec))) data) /\
     (exists v, dict_get "diversity2" d = Some v /\
                distinct_ratio (word_ngrams (map generation data) 2) v) /\
     (exists v, dict_get "diversity3" d = Some v /\
                distinct_ratio (word_ngrams (map generation data) 3) v) /\
     dict_get "bleu" d = None /\
     forall S' : Scorers,
       (forall p r, rouge1_score (Scorers := S') p r
                    = rouge1_score (Scorers := S) p r) ->
       (forall p r, rougeL_score (Scorers := S') p r
                    = rougeL_score (Scorers := S) p r) ->
       compute_metrics (S := S') data = Ok d).
Proof.
  split.
  - intros Hne Hrefs. eexists. apply (compute_metrics_ok S _ Hne Hrefs).
  - intros d Hd. destruct (compute_metrics_inv S data d Hd) as [Hne Hrefs].
    rewrite (compute_metrics_ok S data Hne Hrefs) in Hd. injection Hd as <-.
    unfold reports. rewrite !length_map.
    split; [reflexivity|]. split; [now split|]. split; [now split|].
    split; [now split|]. split; [now split|].
    split; [eexists; split; [reflexivity | apply diversity_ratio; lia]|].
    split; [eexists; split; [reflexivity | apply diversity_ratio; lia]|].
    split; [reflexivity|].
    intros S' Hr1 HrL. rewrite (compute_metrics_ok S' data Hne Hrefs).
    cbv zeta.
    rewrite (best_score_ext (@rouge1_score S') (@rouge1_score S) data Hr1).
    rewrite (best_score_ext (@rougeL_score S') (@rougeL_score S) data HrL).
    reflexivity.
Qed.

Lemma compute_metrics_keys_without_bleu_witness :
  exists d : metrics,
    compute_metrics (S := sample_scorers 0) sample_data = Ok d /\
    dict_keys d = metric_keys /\
    dict_get "rouge1" d = Some (1 / 2)%R /\
    dict_get "avg_length" d = Some 3%R /\
    dict_get "bleu" d = None /\
    compute_metrics (S := sample_scorers 1) sample_data = Ok d.
Proof.
  destruct sample_data_checked as [Hne Hrefs].
  destruct (compute_metrics_keys_without_bleu (sample_scorers 0) sample_data)
    as [Hex Hkeys].
  destruct (Hex Hne Hrefs) as (d & Hd).
  destruct (Hkeys d Hd)
    as (Hk & [H1 _] & _ & _ & [Hlen _] & _ & _ & Hbleu & Hsame).
  rewrite (sample_rouge1 0), arithmetic_mean_pair in H1.
  rewrite sample_lengths, arithmetic_mean_pair in Hlen.
  exists d. split; [exact Hd|]. split; [exact Hk|].
  split; [rewrite H1; f_equal; lra|].
  split; [rewrite Hlen; f_equal; lra|].
  split; [exact Hbleu|].
  apply Hsame; reflexivity.
Defined.

(** C1, as stated, fails: on a one-record list the two BLEU scorers give
    [bleu_score] different values, yet [compute_metrics] returns one and
    the same dictionary, and none of its ten keys holds a BLEU score. *)
Lemma compute_metrics_bleu_counterexample :
  [sample_record] <> [] /\
  bleu_score (S := constant_scorers 0)
    (generation sample_record) (reference sample_record)
  <> bleu_score (S := constant_scorers 1)
       (generation sample_record) (reference sample_record) /\
  compute_metrics (S := constant_scorers 0) [sample_record]
  = compute_metrics (S := constant_scorers 1) [sample_record] /\
  exists d : metrics,
    compute_metrics (S := constant_scorers 0) [sample_record] = Ok d /\
    dict_keys d = metric_keys /\
    dict_get "bleu" d = None.
Proof.
  assert (Hne : [sample_record] <> []) by discriminate.
  assert (Hrefs : Forall (fun rec => reference rec <> []) [sample_record])
    by (repeat constructor; discriminate).
  split; [exact Hne|]. split; [|split].
  - unfold bleu_score. simpl. lra.
  - rewrite (compute_metrics_ok (constant_scorers 0) _ Hne Hrefs).
    rewrite (compute_metrics_ok (constant_scorers 1) _ Hne Hrefs).
    reflexivity.
  - eexists. split; [apply (compute_metrics_ok (constant_scorers 0) _ Hne Hrefs)|].
    split; reflexivity.
Qed.

(** ** Slices and batches *)

Lemma firstn_add {A : Type} (a b : nat) (l : list A) :
  firstn (a + b) l = firstn a l ++ firstn b (skipn a l).
Proof.
  revert l. induction a as [|a IH]; intros l; [reflexivity|].
  destruct l as [|x l]; simpl; [now rewrite firstn_nil | now rewrite IH].
Qed.

Lemma batch_nat {A : Type} (l : list A) (bsize : Z) (j : nat) :
  (1 <= bsize)%Z ->
  batch l bsize j = firstn (Z.to_nat bsize) (skipn (j * Z.to_nat bsize) l).
Proof.
  intros Hb. unfold batch, py_slice. f_equal; [nia | f_equal; nia].
Qed.

Lemma concat_batches {A : Type} (l : list A) (bsize : Z) (k : nat) :
  (1 <= bsize)%Z ->
  concat (map (batch l bsize) (seq 0 k)) = firstn (k * Z.to_nat bsize) l.
Proof.
  intros Hb. induction k as [|k IH]; [reflexivity|].
  rewrite seq_S, map_app, concat_app, IH. simpl.
  rewrite app_nil_r, batch_nat by exact Hb.
  rewrite <- firstn_add. f_equal. lia.
Qed.

Lemma batch_count_covers (n : nat) (bsize : Z) :
  (1 <= bsize)%Z -> n <= batch_count n bsize * Z.to_nat bsize.
Proof.
  intros Hb. unfold batch_count.
  pose proof (Z.mul_succ_div_gt (Z.of_nat n + bsize - 1) bsize ltac:(lia)) as Hgt.
  assert (0 <= (Z.of_nat n + bsize - 1) / bsize)%Z
    by (apply Z.div_pos; lia).
  nia.
Qed.





Lemma batch_same_length {A B : Type} (l : list A) (l' : list B) (bsize : Z) (j : nat) :
  length l = length l' -> length (batch l bsize j) = length (batch l' bsize j).
Proof.
  intros Hlen. unfold batch, py_slice.
  now rewrite !length_firstn, !length_skipn, Hlen.
Qed.

Lemma py_range_batches (n : nat) (bsize : Z) :
  (1 <= bsize)%Z ->
  py_range 0 (Z.of_nat n) bsize
  = Ok (map (fun j => (Z.of_nat j * bsize)%Z) (seq 0 (batch_count n bsize))).
Proof.
  intros Hb. unfold py_range, batch_count.
  destruct (Z.eqb_spec bsize 0); [lia|].
  destruct (Z.ltb_spec 0 bsize); [|lia].
  f_equal. replace (Z.to_nat (if (0 <? Z.of_nat n)%Z
                              then ((Z.of_nat n - 0 - 1) / bsize + 1)%Z else 0%Z))
    with (Z.to_nat ((Z.of_nat n + bsize - 1) / bsize)).
  - apply map_ext. intros j. lia.
  - f_equal. destruct (Z.ltb_spec 0 (Z.of_nat n)) as [Hpos|Hz].
    + replace (Z.of_nat n + bsize - 1)%Z with (Z.of_nat n - 0 - 1 + 1 * bsize)%Z
        by lia.
      rewrite Z.div_add by lia. reflexivity.
    + replace (Z.of_nat n) with 0%Z by lia. apply Z.div_small. lia.
Qed.

Lemma make_batches_paired (prompts : list str) (references : list (list str))
  (bsize : Z) :
  (1 <= bsize)%Z ->
  make_batches prompts references bsize
  = Ok (paired_batches prompts references bsize
          (batch_count (length prompts) bsize)).
Proof.
  intros Hb. unfold make_batches, paired_batches.
  rewrite py_range_batches by exact Hb. unfold rbind.
  rewrite map_map. f_equal. apply map_ext. intros j. unfold batch.
  f_equal; f_equal; lia.
Qed.

Lemma firstn_seq (k a n : nat) : firstn k (seq a n) = seq a (Nat.min k n).
Proof.
  revert a n. induction k as [|k IH]; intros a n; [reflexivity|].
  destruct n as [|n]; [reflexivity|]. simpl. now rewrite IH.
Qed.

Lemma combine_skipn {A B : Type} (n : nat) (l : list A) (l' : list B) :
  skipn n (combine l l') = combine (skipn n l) (skipn n l').
Proof.
  revert l l'. induction n as [|n IH]; intros l l'; [reflexivity|].
  destruct l as [|x l]; [reflexivity|].
  destruct l' as [|y l']; simpl; [now rewrite combine_nil | apply IH].
Qed.

Lemma batch_combine {A B : Type} (l : list A) (l' : list B) (bsize : Z) (j : nat) :
  batch (combine l l') bsize j = combine (batch l bsize j) (batch l' bsize j).
Proof. unfold batch, py_slice. now rewrite combine_skipn, combine_firstn. Qed.

Lemma paired_batches_fst (P : list str) (R : list (list str)) (b : Z) (m : nat) :
  map fst (paired_batches P R b m) = map (batch P b) (seq 0 m).
Proof. unfold paired_batches. rewrite map_map. reflexivity. Qed.

Lemma paired_batches_firstn (P : list str) (R : list (list str)) (b : Z) (k m : nat) :
  firstn k (paired_batches P R b m) = paired_batches P R b (Nat.min k m).
Proof. unfold paired_batches. now rewrite firstn_map, firstn_seq. Qed.

Lemma paired_batches_pairs (P : list str) (R : list (list str)) (b : Z) (m : nat) :
  (1 <= b)%Z ->
  concat (map (fun x => combine (fst x) (snd x)) (paired_batches P R b m))
  = firstn (m * Z.to_nat b) (combine P R).
Proof.
  intros Hb. unfold paired_batches. rewrite map_map. simpl.
  rewrite <- (concat_batches (combine P R) b m Hb). f_equal.
  apply map_ext. intros j. symmetry. apply batch_combine.
Qed.

Lemma paired_batches_aligned (P : list str) (R : list (list str)) (b : Z) (m : nat) :
  length P = length R ->
  Forall (fun x => length (fst x) = length (snd x)) (paired_batches P R b m).
Proof.
  intros Hlen. unfold paired_batches. apply Forall_map, Forall_forall.
  intros j _. simpl. now apply batch_same_length.
Qed.

(** ** Subsequences *)

Lemma subseq_nil_l {A : Type} (l : list A) : subseq [] l.
Proof. induction l; [apply subseq_nil | now apply subseq_skip]. Qed.

Lemma subseq_firstn {A : Type} (n : nat) (l : list A) : subseq (firstn n l) l.
Proof.
  revert l. induction n as [|n IH]; intros l; [apply subseq_nil_l|].
  destruct l; simpl; [apply subseq_nil | apply subseq_keep, IH].
Qed.

Lemma subseq_app {A : Type} (s l s' l' : list A) :
  subseq s l -> subseq s' l' -> subseq (s ++ s') (l ++ l').
Proof.
  induction 1; intros Hs'; simpl;
    [exact Hs' | apply subseq_skip; auto | apply subseq_keep; auto].
Qed.

Lemma subseq_length {A : Type} (s l : list A) : subseq s l -> length s <= length l.
Proof. induction 1; simpl; lia. Qed.

(** ** Records of one batch *)

Lemma map_fst_combine {A B : Type} (l : list A) (l' : list B) :
  map fst (combine l l') = firstn (length l') l.
Proof.
  revert l'. induction l as [|x l IH]; intros l'.
  - now rewrite firstn_nil.
  - destruct l' as [|y l']; simpl; [reflexivity | now rewrite IH].
Qed.

Lemma map_snd_combine {A B : Type} (l : list A) (l' : list B) :
  map snd (combine l l') = firstn (length l) l'.
Proof.
  revert l'. induction l as [|x l IH]; intros l'; [reflexivity|].
  destruct l' as [|y l']; simpl; [reflexivity | now rewrite IH].
Qed.

Lemma zip_records_pairs (p : list str) (r : list (list str)) (g : list str) :
  map pair_of (zip_records p r g) = firstn (length g) (combine p r).
Proof.
  unfold zip_records. rewrite map_map. simpl.
  rewrite <- map_fst_combine. apply map_ext. now intros [[a b] c].
Qed.

Lemma zip_records_generations (p : list str) (r : list (list str)) (g : list str) :
  length p = length r -> length g = length p ->
  map generation (zip_records p r g) = g.
Proof.
  intros Hpr Hg. unfold zip_records. rewrite map_map. simpl.
  change (map (fun x => snd x) (combine (combine p r) g))
    with (map snd (combine (combine p r) g)).
  rewrite map_snd_combine, length_combine, <- Hpr, Nat.min_id, <- Hg.
  apply firstn_all.
Qed.

(** ** The loop *)

Section Loop.
Context {St : Type} {I : Inference St}.

Lemma loop_run (batches : list (list str * list (list str))) (i : Z)
  (acc : list gen_record) (w : world St) :
  generation_loop i batches None acc w
  = (Ok (acc ++ fst (fst (run_batches batches (inf_state w)))),
     mk_world (snd (run_batches batches (inf_state w)))
              (calls w ++ snd (fst (run_batches batches (inf_state w))))).
Proof.
  revert i acc w. induction batches as [|[p r] rest IH]; intros i acc w.
  - simpl. unfold ret. rewrite !app_nil_r. now destruct w.
  - cbn [generation_loop stop_early run_batches].
    unfold bind, call_generate.
    destruct (generate_from_str p (inf_state w)) as [out st1].
    rewrite IH. cbn [inf_state calls].
    destruct (run_batches rest st1) as [[recs cs] st2]. simpl.
    now rewrite <- !app_assoc.
Qed.

Lemma loop_processed (batches : list (list str * list (list str)))
  (k i : Z) (acc : list gen_record) (w : world St) :
  generation_loop i batches (Some k) acc w
  = generation_loop i (firstn (Z.to_nat (k - i)) batches) None acc w.
Proof.
  revert i acc w. induction batches as [|[p r] rest IH]; intros i acc w.
  - now rewrite firstn_nil.
  - cbn [generation_loop stop_early].
    destruct (Z.leb_spec k i) as [Hstop|Hgo].
    + replace (Z.to_nat (k - i)) with 0 by lia. reflexivity.
    + replace (Z.to_nat (k - i)) with (S (Z.to_nat (k - (i + 1)))) by lia.
      cbn [firstn generation_loop stop_early]. unfold bind.
      destruct (call_generate p w) as [[out|e] w1]; [apply IH | reflexivity].
Qed.

Lemma loop_as_run (batches : list (list str * list (list str)))
  (generation_batches : option Z) (w : world St) :
  let bs := processed generation_batches batches in
  generation_loop 0 batches generation_batches [] w
  = (Ok (fst (fst (run_batches bs (inf_state w)))),
     mk_world (snd (run_batches bs (inf_state w)))
              (calls w ++ snd (fst (run_batches bs (inf_state w))))).
Proof.
  destruct generation_batches as [k|]; simpl.
  - rewrite loop_processed, Z.sub_0_r. apply loop_run.
  - apply loop_run.
Qed.

Lemma generate_language_run (prompts : list str) (references : list (list str))
  (bsize : Z) (generation_batches : option Z) (w : world St) :
  length prompts = length references -> (1 <= bsize)%Z ->
  let bs := processed generation_batches
              (paired_batches prompts references bsize
                 (batch_count (length prompts) bsize)) in
  generate_language prompts references bsize generation_batches w
  = (Ok (fst (fst (run_batches bs (inf_state w)))),
     mk_world (snd (run_batches bs (inf_state w)))
              (calls w ++ snd (fst (run_batches bs (inf_state w))))).
Proof.
  intros Hlen Hb bs. unfold generate_language.
  rewrite Hlen, Nat.eqb_refl. cbn [negb]. unfold bind, lift.
  rewrite make_batches_paired by exact Hb. apply loop_as_run.
Qed.

Lemma run_calls (bs : list (list str * list (list str))) (st : St) :
  map fst (snd (fst (run_batches bs st))) = map fst bs.
Proof.
  revert st. induction bs as [|[p r] rest IH]; intros st; [reflexivity|].
  cbn [run_batches]. destruct (generate_from_str p st) as [out st1].
  specialize (IH st1). destruct (run_batches rest st1) as [[recs cs] st2].
  simpl in *. now rewrite IH.
Qed.

Lemma run_subseq (bs : list (list str * list (list str))) (st : St) :
  subseq (map pair_of (fst (fst (run_batches bs st))))
         (concat (map (fun x => combine (fst x) (snd x)) bs)).
Proof.
  revert st. induction bs as [|[p r] rest IH]; intros st; [constructor|].
  cbn [run_batches]. destruct (generate_from_str p st) as [out st1].
  specialize (IH st1). destruct (run_batches rest st1) as [[recs cs] st2].
  simpl in *. rewrite map_app. apply subseq_app; [|exact IH].
  rewrite zip_records_pairs. apply subseq_firstn.
Qed.

Lemma run_aligned (bs : list (list str * list (list str))) (st : St) :
  one_output_per_prompt I ->
  Forall (fun x => length (fst x) = length (snd x)) bs ->
  map pair_of (fst (fst (run_batches bs st)))
  = concat (map (fun x => combine (fst x) (snd x)) bs) /\
  map generation (fst (fst (run_batches bs st)))
  = concat (map snd (snd (fst (run_batches bs st)))) /\
  Forall (fun c => length (snd c) = length (fst c)) (snd (fst (run_batches bs st))).
Proof.
  intros Hwb Hbs. revert st.
  induction Hbs as [|[p r] rest Hpr _ IH]; intros st.
  - simpl. auto.
  - cbn [run_batches]. pose proof (Hwb p st) as Hout.
    destruct (generate_from_str p st) as [out st1].
    destruct (IH st1) as (IHp & IHg & IHc).
    destruct (run_batches rest st1) as [[recs cs] st2].
    simpl in *. rewrite !map_app, IHp, IHg, zip_records_pairs.
    rewrite zip_records_generations by congruence.
    repeat split.
    + f_equal. apply firstn_all2. rewrite length_combine. lia.
    + constructor; assumption.
Qed.

End Loop.

(** ** [generate_language] *)

Lemma make_batches_raise (prompts : list str) (references : list (list str))
  (bsize : Z) (e : exn) :
  make_batches prompts references bsize = Raise e -> e = ValueError.
Proof.
  unfold make_batches, py_range.
  destruct (bsize =? 0)%Z; simpl; congruence.
Qed.

Lemma firstn_past_batches {A : Type} (l : list A) (k nb B : nat) :
  length l <= nb * B -> firstn (Nat.min k nb * B) l = firstn (k * B) l.
Proof.
  intros Hcover. destruct (Nat.le_gt_cases k nb) as [Hle|Hgt].
  - now rewrite Nat.min_l.
  - rewrite Nat.min_r by lia. rewrite !firstn_all2; [reflexivity | nia | lia].
Qed.

Lemma map_fst_pair_of (recs : list gen_record) :
  map fst (map pair_of recs) = map prompt recs.
Proof. rewrite map_map. reflexivity. Qed.

Lemma map_snd_pair_of (recs : list gen_record) :
  map snd (map pair_of recs) = map reference recs.
Proof. rewrite map_map. reflexivity. Qed.

(** C10. [generate_language] raises [AssertionError] exactly when the
    prompts and the references differ in length, and then before any call
    to the inference interface: the world is left as it was.  When the
    lengths agree the assertion passes and the run continues with the
    batching. *)
Theorem generate_language_asserts_lengths {St : Type} (I : Inference St)
  (prompts : list str) (references : list (list str)) (bsize : Z)
  (generation_batches : option Z) (w : world St) :
  (fst (generate_language prompts references bsize generation_batches w)
   = Raise AssertionError
   <-> length prompts <> length references) /\
  (length prompts <> length references ->
   generate_language prompts references bsize generation_batches w
   = (Raise AssertionError, w)) /\
  (length prompts = length references ->
   generate_language prompts references bsize generation_batches w
   = (batches <- lift (make_batches prompts references bsize) ;;
      generation_loop 0 batches generation_batches []) w).
Proof.
  unfold generate_language.
  destruct (Nat.eqb_spec (length prompts) (length references)) as [Heq|Hne];
    cbn [negb].
  - split; [|split]; [|congruence|reflexivity].
    split; [|congruence]. unfold bind, lift.
    destruct (make_batches prompts references bsize) as [bs|e] eqn:Hbs.
    + rewrite loop_as_run. discriminate.
    + apply make_batches_raise in Hbs. subst e. discriminate.
  - split; [|split]; [|reflexivity|congruence].
    split; [intros _; exact Hne | reflexivity].
Qed.

Lemma generate_language_asserts_lengths_witness :
  generate_language (I := echo_inference) [lit "a"; lit "b"] [[lit "x"]] 1 None
    (mk_world 0 [])
  = (Raise AssertionError, mk_world 0 []) /\
  fst (generate_language (I := echo_inference) [lit "a"] [[lit "x"]] 1 None
         (mk_world 0 []))
  <> Raise AssertionError.
Proof.
  split.
  - apply (generate_language_asserts_lengths echo_inference
             [lit "a"; lit "b"] [[lit "x"]] 1 None (mk_world 0 [])).
    discriminate.
  - intros Hraise.
    apply (generate_language_asserts_lengths echo_inference
             [lit "a"] [[lit "x"]] 1 None (mk_world 0 [])) in Hraise.
    apply Hraise. reflexivity.
Defined.




Lemma echo_one_output_per_prompt : one_output_per_prompt echo_inference.
Proof. intros input_strs st. simpl. apply length_map. Qed.

(** C3, as the code has it. When the lengths agree, [1 <= bsize],
    [generation_batches] is [None] and the interface answers every call
    with one output per prompt, [generate_language] returns one record
    per prompt, in input order: the i-th record holds [prompts[i]],
    [references[i]] and the i-th of the outputs of the calls put end to
    end, the calls being made on the batches of the prompts, each output
    list as long as its batch. *)
Theorem generate_language_one_record_per_prompt {St : Type} (I : Inference St)
  (prompts : list str) (references : list (list str)) (bsize : Z)
  (w : world St) :
  length prompts = length references -> (1 <= bsize)%Z ->
  one_output_per_prompt I ->
  exists (recs : list gen_record) (cs : list (list str * list str)) (st' : St),
    generate_language prompts references bsize None w
    = (Ok recs, mk_world st' (calls w ++ cs)) /\
    length recs = length prompts /\
    map fst cs = batches_of prompts bsize /\
    Forall (fun c => length (snd c) = length (fst c)) cs /\
    forall (i : nat) (rec : gen_record),
      nth_error recs i = Some rec ->
      nth_error prompts i = Some (prompt rec) /\
      nth_error references i = Some (reference rec) /\
      nth_error (concat (map snd cs)) i = Some (generation rec).
Proof.
  intros Hlen Hb Hwb.
  set (nb := batch_count (length prompts) bsize).
  set (bs := paired_batches prompts references bsize nb).
  pose proof (generate_language_run prompts references bsize None w Hlen Hb)
    as Hrun.
  cbn [processed] in Hrun. fold nb in Hrun. fold bs in Hrun.
  destruct (run_aligned bs (inf_state w) Hwb
              (paired_batches_aligned prompts references bsize nb Hlen))
    as (Hpairs & Hgens & Hcs).
  pose proof (run_calls bs (inf_state w)) as Hcalls.
  destruct (run_batches bs (inf_state w)) as [[recs cs] st'].
  cbn [fst snd] in *.
  unfold bs in Hpairs. rewrite paired_batches_pairs in Hpairs by exact Hb.
  rewrite firstn_all2 in Hpairs
    by (rewrite length_combine; pose proof (batch_count_covers (length prompts) bsize Hb);
        fold nb in H; lia).
  assert (Hprompts : map prompt recs = prompts).
  { rewrite <- map_fst_pair_of, Hpairs, map_fst_combine, <- Hlen.
    apply firstn_all. }
  assert (Hrefs : map reference recs = references).
  { rewrite <- map_snd_pair_of, Hpairs, map_snd_combine, Hlen.
    apply firstn_all. }
  exists recs, cs, st'. split; [exact Hrun|].
  split; [rewrite <- Hprompts; symmetry; apply length_map|].
  split; [rewrite Hcalls; apply paired_batches_fst|].
  split; [exact Hcs|].
  intros i rec Hi.
  rewrite <- Hprompts, <- Hrefs, <- Hgens, !nth_error_map, Hi.
  auto.
Qed.

Lemma generate_language_one_record_per_prompt_witness :
  exists (recs : list gen_record) (cs : list (list str * list str)) (st' : nat),
    generate_language (I := echo_inference)
      [lit "a"; lit "b"; lit "c"] [[lit "x"]; [lit "y"]; [lit "z"]] 2 None
      (mk_world 0 [])
    = (Ok recs, mk_world st' ([] ++ cs)) /\
    length recs = 3.
Proof.
  destruct (generate_language_one_record_per_prompt echo_inference
              [lit "a"; lit "b"; lit "c"] [[lit "x"]; [lit "y"]; [lit "z"]]
              2 (mk_world 0 []))
    as (recs & cs & st' & Hrun & Hlen & _).
  - reflexivity.
  - lia.
  - intros input_strs st. simpl. apply length_map.
  - exists recs, cs, st'. auto.
Defined.

(** C3, as stated, fails for a batch size below one: the lengths agree,
    [generation_batches] is [None] and the interface answers with one
    output per prompt, yet with [bsize = -1] no record is returned for the
    one prompt, and with [bsize = 0] the run raises [ValueError]. *)
Lemma generate_language_one_record_per_prompt_counterexample :
  length [lit "a"] = length [[lit "x"]] /\
  one_output_per_prompt echo_inference /\
  generate_language (I := echo_inference) [lit "a"] [[lit "x"]] (-1) None
    (mk_world 0 [])
  = (Ok [], mk_world 0 []) /\
  length (@nil gen_record) <> length [lit "a"] /\
  generate_language (I := echo_inference) [lit "a"] [[lit "x"]] 0 None
    (mk_world 0 [])
  = (Raise ValueError, mk_world 0 []).
Proof.
  split; [reflexivity|]. split; [exact echo_one_output_per_prompt|].
  split; [reflexivity|]. split; [discriminate | reflexivity].
Qed.

(** C8, as the code has it. With [generation_batches = k], [0 <= k],
    [1 <= bsize] and lists of equal length, [generate_language] returns
    without error, calls the inference interface on the first [k] batches
    only, and returns at most [k * bsize] records, all of them made from
    prompts and references at indices below [k * bsize]: what lies at
    index [k * bsize] or beyond is left out.  When the interface answers
    with one output per prompt, the records are exactly those of the
    first [k * bsize] prompts. *)
Theorem generate_language_stops_after_k_batches {St : Type} (I : Inference St)
  (prompts : list str) (references : list (list str)) (bsize k : Z)
  (w : world St) :
  length prompts = length references -> (1 <= bsize)%Z -> (0 <= k)%Z ->
  exists (recs : list gen_record) (cs : list (list str * list str)) (st' : St),
    generate_language prompts references bsize (Some k) w
    = (Ok recs, mk_world st' (calls w ++ cs)) /\
    map fst cs = firstn (Z.to_nat k) (batches_of prompts bsize) /\
    (Z.of_nat (length recs) <= k * bsize)%Z /\
    subseq (map pair_of recs)
           (firstn (Z.to_nat (k * bsize)) (combine prompts references)) /\
    (one_output_per_prompt I ->
     map pair_of recs
     = firstn (Z.to_nat (k * bsize)) (combine prompts references)).
Proof.
  intros Hlen Hb Hk.
  set (nb := batch_count (length prompts) bsize).
  pose proof (generate_language_run prompts references bsize (Some k) w Hlen Hb)
    as Hrun.
  cbn [processed] in Hrun. fold nb in Hrun.
  rewrite paired_batches_firstn in Hrun.
  set (bs := paired_batches prompts references bsize (Nat.min (Z.to_nat k) nb))
    in Hrun.
  assert (Hcut : concat (map (fun x => combine (fst x) (snd x)) bs)
                 = firstn (Z.to_nat (k * bsize)) (combine prompts references)).
  { unfold bs. rewrite paired_batches_pairs by exact Hb.
    rewrite firstn_past_batches.
    - f_equal. lia.
    - rewrite length_combine.
      pose proof (batch_count_covers (length prompts) bsize Hb). fold nb in H.
      lia. }
  pose proof (run_subseq bs (inf_state w)) as Hsub.
  pose proof (run_calls bs (inf_state w)) as Hcalls.
  pose proof (fun Hwb => run_aligned bs (inf_state w) Hwb
     (paired_batches_aligned prompts references bsize _ Hlen)) as Hal.
  destruct (run_batches bs (inf_state w)) as [[recs cs] st'].
  cbn [fst snd] in *. rewrite Hcut in Hsub.
  exists recs, cs, st'. split; [exact Hrun|]. split; [|split; [|split]].
  - rewrite Hcalls. unfold bs. rewrite <- paired_batches_firstn.
    rewrite <- firstn_map. f_equal. apply paired_batches_fst.
  - apply subseq_length in Hsub. rewrite length_map, length_firstn in Hsub.
    lia.
  - exact Hsub.
  - intros Hwb. destruct (Hal Hwb) as (Hpairs & _). now rewrite Hpairs.
Qed.

Lemma generate_language_stops_after_k_batches_witness :
  exists (recs : list gen_record) (cs : list (list str * list str)) (st' : nat),
    generate_language (I := echo_inference)
      [lit "a"; lit "b"; lit "c"] [[lit "x"]; [lit "y"]; [lit "z"]] 2 (Some 1%Z)
      (mk_world 0 [])
    = (Ok recs, mk_world st' ([] ++ cs)) /\
    (Z.of_nat (length recs) <= 1 * 2)%Z /\
    map fst cs
    = firstn (Z.to_nat 1) (batches_of [lit "a"; lit "b"; lit "c"] 2).
Proof.
  destruct (generate_language_stops_after_k_batches echo_inference
              [lit "a"; lit "b"; lit "c"] [[lit "x"]; [lit "y"]; [lit "z"]]
              2 1 (mk_world 0 []))
    as (recs & cs & st' & Hrun & Hcalls & Hle & _).
  - reflexivity.
  - lia.
  - lia.
  - exists recs, cs, st'. auto.
Defined.

(** C8, as stated, fails when [k] or [bsize] is negative: the run returns
    the empty list, which is not at most [k * bsize] records; and with
    [bsize = 0] the run raises [ValueError]. *)
Lemma generate_language_stops_after_k_batches_counterexample :
  (generate_language (I := echo_inference) [lit "a"] [[lit "x"]] 1 (Some (-1)%Z)
     (mk_world 0 [])
   = (Ok [], mk_world 0 []) /\
   ~ (Z.of_nat (length (@nil gen_record)) <= (-1) * 1)%Z) /\
  (generate_language (I := echo_inference) [lit "a"] [[lit "x"]] (-1) (Some 1%Z)
     (mk_world 0 [])
   = (Ok [], mk_world 0 []) /\
   ~ (Z.of_nat (length (@nil gen_record)) <= 1 * (-1))%Z) /\
  generate_language (I := echo_inference) [lit "a"] [[lit "x"]] 0 (Some 1%Z)
    (mk_world 0 [])
  = (Raise ValueError, mk_world 0 []).
Proof.
  split; [|split]; [split; [reflexivity | simpl; lia]
                   | split; [reflexivity | simpl; lia] | reflexivity].
Qed.

(** ** binary64: rounding of a positive mantissa *)

Section Binary64.
Local Open Scope Z_scope.

Lemma digits2_size (p : positive) : digits2_pos p = Pos.size p.
Proof. induction p; simpl; congruence. Qed.

Lemma digits2_log2 (p : positive) : Z.pos (digits2_pos p) = Z.log2 (Z.pos p) + 1.
Proof.
  rewrite digits2_size. destruct p; simpl; lia.
Qed.

Lemma digits2_bounds (p : positive) :
  2 ^ (Z.pos (digits2_pos p) - 1) <= Z.pos p < 2 ^ Z.pos (digits2_pos p).
Proof.
  rewrite digits2_log2.
  pose proof (Z.log2_spec (Z.pos p) ltac:(lia)) as H.
  replace (Z.log2 (Z.pos p) + 1 - 1) with (Z.log2 (Z.pos p)) by lia.
  replace (Z.log2 (Z.pos p) + 1) with (Z.succ (Z.log2 (Z.pos p))) by lia.
  exact H.
Qed.

Lemma digits2_unique (p : positive) (d : Z) :
  2 ^ (d - 1) <= Z.pos p < 2 ^ d -> Z.pos (digits2_pos p) = d.
Proof.
  intros H. rewrite digits2_log2.
  assert (0 < d).
  { destruct (Z.lt_ge_cases 0 d) as [|Hd]; [assumption|].
    destruct H as [_ H]. 
    assert (2 ^ d <= 2 ^ 0) by (destruct (Z.eq_dec d 0) as [->|]; [lia| rewrite Z.pow_neg_r by lia; simpl; lia]).
    simpl in *. lia. }
  rewrite (Z.log2_unique (Z.pos p) (d - 1)); [lia | lia |].
  replace (Z.succ (d - 1)) with d by lia. exact H.
Qed.

Lemma shr_1_m (mrs : shr_record) :
  0 <= shr_m mrs -> shr_m (shr_1 mrs) = shr_m mrs / 2.
Proof.
  destruct mrs as [m r s]. simpl. intros Hm.
  rewrite <- Z.div2_div.
  destruct m as [|[p|p|]|]; simpl; try reflexivity. lia.
Qed.

Lemma iter_shr_m (p : positive) (mrs : shr_record) :
  0 <= shr_m mrs ->
  shr_m (iter_pos shr_1 p mrs) = shr_m mrs / 2 ^ Z.pos p.
Proof.
  revert mrs. induction p as [p IH|p IH|]; intros mrs Hm; simpl iter_pos.
  - assert (H1 : 0 <= shr_m (shr_1 mrs))
      by (rewrite shr_1_m by assumption; apply Z.div_pos; lia).
    assert (H2 : 0 <= shr_m (iter_pos shr_1 p (shr_1 mrs)))
      by (rewrite IH by assumption; apply Z.div_pos; lia).
    rewrite IH, IH, shr_1_m by assumption.
    rewrite !Z.div_div by lia. f_equal.
    replace (Z.pos p~1) with (1 + Z.pos p + Z.pos p) by lia.
    rewrite !Z.pow_add_r by lia. change (2 ^ 1) with 2. ring.
  - assert (H2 : 0 <= shr_m (iter_pos shr_1 p mrs))
      by (rewrite IH by assumption; apply Z.div_pos; lia).
    rewrite IH, IH by assumption.
    rewrite !Z.div_div by lia. f_equal.
    replace (Z.pos p~0) with (Z.pos p + Z.pos p) by lia.
    rewrite !Z.pow_add_r by lia. ring.
  - rewrite shr_1_m by assumption. reflexivity.
Qed.

Lemma fexp_normal (d e : Z) :
  emin prec emax <= d + e - prec -> fexp prec emax (d + e) - e = d - prec.
Proof. unfold fexp. intros H. rewrite Z.max_l by exact H. ring. Qed.

Lemma round_nearest_even_cases (mrs : shr_record) :
  round_nearest_even (shr_m mrs) (loc_of_shr_record mrs) = shr_m mrs \/
  round_nearest_even (shr_m mrs) (loc_of_shr_record mrs) = shr_m mrs + 1.
Proof.
  destruct mrs as [m [] []]; simpl; auto. destruct (Z.even m); auto.
Qed.

Lemma shr_fexp_fit (m : positive) (e : Z) :
  Z.pos (digits2_pos m) = prec -> emin prec emax <= e ->
  shr_fexp prec emax (Z.pos m) e loc_Exact
  = (Build_shr_record (Z.pos m) false false, e).
Proof.
  intros Hd He. unfold shr_fexp. cbn [Zdigits2 shr_record_of_loc].
  rewrite fexp_normal by (rewrite Hd; lia).
  rewrite Hd, Z.sub_diag. reflexivity.
Qed.

Lemma binary_round_aux_fit (sx : bool) (m : positive) (e : Z) :
  Z.pos (digits2_pos m) = prec -> emin prec emax <= e -> e <= emax - prec ->
  binary_round_aux prec emax sx (Z.pos m) e loc_Exact = S754_finite sx m e.
Proof.
  intros Hd He Hmax. unfold binary_round_aux.
  rewrite shr_fexp_fit by assumption.
  cbn [shr_m loc_of_shr_record round_nearest_even].
  rewrite shr_fexp_fit by assumption. cbn [shr_m].
  destruct (Z.leb_spec e (emax - prec)); [reflexivity | lia].
Qed.

Lemma binary_round_aux_shift (P : positive) (e : Z) :
  let s := Z.pos (digits2_pos P) - prec in
  0 < s -> emin prec emax <= e + s -> e + s + 1 <= emax - prec ->
  exists (M : positive) (E : Z),
    binary_round_aux prec emax false (Z.pos P) e loc_Exact
    = S754_finite false M E /\
    e + s <= E <= e + s + 1 /\
    (Z.pos M * 2 ^ (E - (e + s)) = Z.pos P / 2 ^ s \/
     Z.pos M * 2 ^ (E - (e + s)) = Z.pos P / 2 ^ s + 1).
Proof.
  intros s Hs Hmin Hmax.
  pose proof (digits2_bounds P) as HP.
  unfold binary_round_aux.
  unfold shr_fexp at 1. cbn [Zdigits2 shr_record_of_loc].
  rewrite fexp_normal by (fold s; lia). fold s.
  destruct s as [|sp|sp] eqn:Hsp; try lia.
  cbn [shr]. rewrite <- Hsp.
  set (mrs := iter_pos shr_1 sp _).
  assert (Hq : shr_m mrs = Z.pos P / 2 ^ s).
  { unfold mrs. rewrite iter_shr_m by (simpl; lia). rewrite Hsp. reflexivity. }
  assert (Hpow : 2 ^ Z.pos (digits2_pos P) = 2 ^ prec * 2 ^ s).
  { rewrite <- Z.pow_add_r by (unfold prec; lia). f_equal. lia. }
  assert (Hpow' : 2 ^ (Z.pos (digits2_pos P) - 1) = 2 ^ (prec - 1) * 2 ^ s).
  { rewrite <- Z.pow_add_r by (unfold prec; lia). f_equal. lia. }
  assert (H2s : 0 < 2 ^ s) by (apply Z.pow_pos_nonneg; lia).
  assert (Hqb : 2 ^ (prec - 1) <= shr_m mrs < 2 ^ prec).
  { rewrite Hq. split.
    - apply Z.div_le_lower_bound; [exact H2s|]. lia.
    - apply Z.div_lt_upper_bound; [exact H2s|]. lia. }
  destruct (round_nearest_even_cases mrs) as [Hr|Hr];
    rewrite Hr, Hq; rewrite Hq in Hqb.
  - (* rounded down: the mantissa already fits *)
    destruct (Z.pos P / 2 ^ s) as [|M|M] eqn:HM;
      try (unfold prec in Hqb; simpl in Hqb; lia).
    assert (HdM : Z.pos (digits2_pos M) = prec) by (apply digits2_unique; exact Hqb).
    rewrite shr_fexp_fit by (try exact HdM; lia). cbn [shr_m].
    exists M, (e + s). destruct (Z.leb_spec (e + s) (emax - prec)); [|lia].
    split; [reflexivity|]. split; [lia|]. left.
    rewrite Z.sub_diag. simpl. lia.
  - destruct (Z.eq_dec (Z.pos P / 2 ^ s + 1) (2 ^ prec)) as [Hcarry|Hno].
    + (* rounded up to 2^prec: one more shift *)
      rewrite Hcarry. unfold shr_fexp.
      change (Zdigits2 (2 ^ prec)) with (prec + 1).
      rewrite fexp_normal by lia.
      replace (prec + 1 - prec) with 1 by lia.
      cbn [shr_record_of_loc shr iter_pos]. cbn [shr_m shr_1 prec Z.pow Z.pow_pos Pos.iter Z.mul Pos.mul].
      exists (4503599627370496)%positive, (e + s + 1).
      destruct (Z.leb_spec (e + s + 1) (emax - prec)); [|lia].
      split; [reflexivity|]. split; [lia|]. right.
      replace (e + s + 1 - (e + s)) with 1 by lia.
      reflexivity.
    + destruct (Z.pos P / 2 ^ s + 1) as [|M|M] eqn:HM;
        try (unfold prec in Hqb; simpl in Hqb; lia).
      assert (HdM : Z.pos (digits2_pos M) = prec)
        by (apply digits2_unique; lia).
      rewrite shr_fexp_fit by (try exact HdM; lia). cbn [shr_m].
      exists M, (e + s). destruct (Z.leb_spec (e + s) (emax - prec)); [|lia].
      split; [reflexivity|]. split; [lia|]. right.
      rewrite Z.sub_diag. simpl. lia.
Qed.

Lemma pos_iter_xO (p k : positive) :
  Z.pos (Pos.iter xO p k) = Z.pos p * 2 ^ Z.pos k.
Proof.
  rewrite (Pos.iter_swap_gen _ _ Z.pos xO (Z.mul 2)) by reflexivity.
  change (Pos.iter (Z.mul 2) (Z.pos p) k) with (Z.shiftl (Z.pos p) (Z.pos k)).
  apply Z.shiftl_mul_pow2. lia.
Qed.

Lemma pow2_lt_exp (a b : Z) : 0 <= b -> 2 ^ a < 2 ^ b -> a < b.
Proof. intros Hb H. apply (Z.pow_lt_mono_r_iff 2); [lia | exact Hb | exact H]. Qed.

Lemma float_of_pos (p : positive) :
  let d := Z.pos (digits2_pos p) in
  Z.pos p < 2 ^ prec ->
  exists mz : positive,
    binary_normalize prec emax (Z.pos p) 0 false
    = S754_finite false mz (d - prec) /\
    Z.pos mz = Z.pos p * 2 ^ (prec - d) /\
    Z.pos (digits2_pos mz) = prec.
Proof.
  intros d Hp. pose proof (digits2_bounds p) as Hb. fold d in Hb.
  assert (Hd : 1 <= d <= prec).
  { split; [unfold d; lia|].
    assert (d - 1 < prec); [|lia].
    apply pow2_lt_exp; [unfold prec; lia | lia]. }
  assert (Hmz : forall mz : positive,
             Z.pos mz = Z.pos p * 2 ^ (prec - d) ->
             Z.pos (digits2_pos mz) = prec).
  { intros mz Hmz. apply digits2_unique. rewrite Hmz.
    assert (H1 : 2 ^ (prec - 1) = 2 ^ (d - 1) * 2 ^ (prec - d))
      by (rewrite <- Z.pow_add_r by lia; f_equal; lia).
    assert (H2 : 2 ^ prec = 2 ^ d * 2 ^ (prec - d))
      by (rewrite <- Z.pow_add_r by lia; f_equal; lia).
    assert (0 < 2 ^ (prec - d)) by (apply Z.pow_pos_nonneg; lia).
    rewrite H1, H2. nia. }
  unfold binary_normalize, binary_round, shl_align.
  rewrite Z.add_0_r. fold d.
  replace (fexp prec emax d - 0) with (d - prec)
    by (unfold fexp, emin, prec, emax in *; lia).
  destruct (d - prec) as [|k|k] eqn:Hk; try lia.
  - exists p. assert (Hpz : Z.pos p = Z.pos p * 2 ^ (prec - d))
      by (replace (prec - d) with 0 by lia; lia).
    replace (fexp prec emax d) with 0
      by (unfold fexp, emin, prec, emax in *; lia).
    rewrite binary_round_aux_fit;
      [auto | apply Hmz; exact Hpz | unfold emin, prec, emax; lia
      | unfold prec, emax; lia].
  - exists (Pos.iter xO p k).
    assert (Hpz : Z.pos (Pos.iter xO p k) = Z.pos p * 2 ^ (prec - d))
      by (rewrite pos_iter_xO; f_equal; f_equal; lia).
    replace (fexp prec emax d) with (Z.neg k)
      by (unfold fexp, emin, prec, emax in *; lia).
    rewrite binary_round_aux_fit;
      [auto | apply Hmz; exact Hpz | unfold emin, prec, emax in *; lia
      | unfold prec, emax in *; lia].
Qed.
(** ** One tenth of an integer, in binary64 *)

Lemma tenth_of_rounded (p A B K q' : Z) :
  0 < p < 2 ^ 50 -> 8 <= A -> 0 < B <= 2 ^ 50 * A -> 0 < K ->
  A * 2 ^ 56 = B * K ->
  q' = p * A * 7205759403792794 / B \/ q' = p * A * 7205759403792794 / B + 1 ->
  q' / K = p / 10.
Proof.
  intros Hp HA HB HK Hpow Hq'.
  change (2 ^ 56) with 72057594037927936 in Hpow.
  change (2 ^ 50) with 1125899906842624 in *.
  pose proof (Z.div_mod p 10 ltac:(lia)) as Hdm.
  pose proof (Z.mod_pos_bound p 10 ltac:(lia)) as Hr.
  set (a := p / 10) in *. set (r := p mod 10) in *.
  assert (Ha : 0 <= a) by (apply Z.div_pos; lia).
  set (P := p * A * 7205759403792794) in *.
  assert (HP : P = a * A * 72057594037927940 + r * A * 7205759403792794)
    by (unfold P; rewrite Hdm; ring).
  assert (HaA : 0 <= a * A) by nia.
  assert (HrA : 0 <= r * A <= 9 * A) by nia.
  assert (Hlow : a * K <= P / B).
  { apply Z.div_le_lower_bound; [lia|].
    replace (B * (a * K)) with (a * (B * K)) by ring.
    rewrite <- Hpow. nia. }
  assert (Hup : P / B + 1 < (a + 1) * K).
  { assert (P / B < (a + 1) * K - 1); [|lia].
    apply Z.div_lt_upper_bound; [lia|].
    replace (B * ((a + 1) * K - 1)) with ((a + 1) * (B * K) - B) by ring.
    rewrite <- Hpow. nia. }
  symmetry. apply (Z.div_unique_pos q' K a (q' - a * K)); [|lia].
  destruct Hq' as [-> | ->]; lia.
Qed.

Lemma int_of_finite (M : positive) (E j K : Z) :
  0 <= j -> 0 < K - j -> E = j - K ->
  int_of_float (S754_finite false M E) = Ok (Z.pos M * 2 ^ j / 2 ^ K).
Proof.
  intros Hj HK ->. unfold int_of_float, cond_Zopp.
  destruct (Z.leb_spec 0 (j - K)); [lia|]. f_equal.
  replace (- (j - K)) with (K - j) by lia.
  replace K with ((K - j) + j) at 2 by lia.
  rewrite Z.pow_add_r by lia.
  symmetry. apply Z.div_mul_cancel_r.
  - apply Z.pow_nonzero; lia.
  - apply Z.pow_nonzero; lia.
Qed.

Lemma percent_count_pos (p : positive) :
  Z.pos p < 2 ^ 50 -> percent_count (Z.pos p) = Ok (Z.pos p / 10).
Proof.
  intros Hp. pose proof (digits2_bounds p) as Hdp.
  set (d := Z.pos (digits2_pos p)) in *.
  assert (Hd : 1 <= d <= 50).
  { split; [unfold d; lia|]. assert (d - 1 < 50); [|lia].
    apply pow2_lt_exp; lia. }
  destruct (float_of_pos p) as (mz & Hfloat & Hmz & Hdmz).
  { eapply Z.lt_trans; [exact Hp | reflexivity]. }
  fold d in Hfloat, Hmz.
  unfold percent_count, float_of_int. rewrite Hfloat. unfold rbind.
  unfold percentage, SFmul. cbn [xorb].
  set (m0 := 7205759403792794%positive).
  pose proof (digits2_bounds mz) as Hbmz. rewrite Hdmz in Hbmz.
  pose proof (digits2_bounds (mz * m0)) as HbP.
  set (D := Z.pos (digits2_pos (mz * m0))) in *.
  assert (HPlo : 2 ^ 104 <= Z.pos (mz * m0)).
  { rewrite Pos2Z.inj_mul. unfold prec in Hbmz.
    change (2 ^ 104) with (2 ^ (53 - 1) * 4503599627370496).
    apply Z.mul_le_mono_nonneg; unfold m0; lia. }
  assert (HPhi : Z.pos (mz * m0) < 2 ^ 106).
  { rewrite Pos2Z.inj_mul. unfold prec in Hbmz.
    change (2 ^ 106) with (2 ^ 53 * 9007199254740992).
    apply Z.mul_lt_mono_nonneg; unfold m0; lia. }
  assert (HD : 105 <= D <= 106).
  { assert (0 <= D) by (unfold D; lia).
    assert (104 < D) by (apply pow2_lt_exp; lia).
    assert (D - 1 < 106) by (apply pow2_lt_exp; lia). lia. }
  destruct (binary_round_aux_shift (mz * m0) (d - prec + -56))
    as (M & E & Hround & HE & HM); fold D;
    try (unfold emin, prec, emax; lia).
  rewrite Hround.
  set (s := D - prec) in *. set (e := d - prec + -56) in *.
  rewrite (int_of_finite M E (E - (e + s)) (- (e + s)));
    [| lia | unfold e, s, prec in *; lia | lia].
  f_equal.
  apply (tenth_of_rounded (Z.pos p) (2 ^ (prec - d)) (2 ^ s));
    try lia.
  - change 8 with (2 ^ 3). apply Z.pow_le_mono_r; unfold prec; lia.
  - split; [apply Z.pow_pos_nonneg; unfold s, prec; lia|].
    rewrite <- Z.pow_add_r by (unfold prec; lia).
    apply Z.pow_le_mono_r; unfold s, prec; lia.
  - apply Z.pow_pos_nonneg; unfold e, s, prec; lia.
  - rewrite <- !Z.pow_add_r by (unfold e, s, prec; lia).
    f_equal. unfold e, s. lia.
  - rewrite Pos2Z.inj_mul, Hmz in HM. exact HM.
Qed.

Lemma percent_count_tenth (n : Z) :
  0 <= n < 2 ^ 50 -> percent_count n = Ok (n / 10).
Proof.
  intros [Hlo Hhi]. destruct n as [|p|p]; [reflexivity | | lia].
  now apply percent_count_pos.
Qed.

End Binary64.

(** ** Sorted lists *)

Lemma StronglySorted_snoc {A : Type} (R : A -> A -> Prop) (l : list A) (x : A) :
  StronglySorted R l -> Forall (fun y => R y x) l -> StronglySorted R (l ++ [x]).
Proof.
  induction 1 as [|y l Hl IH Hy]; intros Hall; simpl.
  - repeat constructor.
  - inversion Hall as [|? ? Hyx Hlx]; subst. constructor; [now apply IH|].
    apply Forall_app. split; [exact Hy | now repeat constructor].
Qed.

Lemma StronglySorted_rev {A : Type} (R : A -> A -> Prop) (l : list A) :
  StronglySorted R l -> StronglySorted (fun a b => R b a) (rev l).
Proof.
  induction 1 as [|y l Hl IH Hy]; simpl; [constructor|].
  apply StronglySorted_snoc; [exact IH | now apply Forall_rev].
Qed.

Lemma StronglySorted_map {A B : Type} (f : A -> B) (R : B -> B -> Prop)
  (l : list A) :
  StronglySorted (fun a b => R (f a) (f b)) l -> StronglySorted R (map f l).
Proof.
  induction 1 as [|y l Hl IH Hy]; simpl; constructor; [exact IH|].
  now apply Forall_map.
Qed.

Lemma StronglySorted_weaken {A : Type} (R R' : A -> A -> Prop) (l : list A) :
  (forall a b, In a l -> In b l -> R a b -> R' a b) ->
  StronglySorted R l -> StronglySorted R' l.
Proof.
  intros Himp Hs. induction Hs as [|y l Hl IH Hy]; constructor.
  - apply IH. intros a b Ha Hb. apply Himp; now right.
  - rewrite Forall_forall in *. intros z Hz.
    apply Himp; [now left | now right | now apply Hy].
Qed.

Lemma StronglySorted_app_inv {A : Type} (R : A -> A -> Prop) (l1 l2 : list A) :
  StronglySorted R (l1 ++ l2) ->
  StronglySorted R l1 /\ forall x y, In x l1 -> In y l2 -> R x y.
Proof.
  induction l1 as [|z l1 IH]; simpl; intros Hs.
  - split; [constructor | intros x y []].
  - apply StronglySorted_inv in Hs. destruct Hs as [Hs Hz].
    destruct (IH Hs) as [Hs1 Hcross]. split.
    + constructor; [exact Hs1|]. apply Forall_app in Hz. tauto.
    + intros x y [<-|Hx] Hy.
      * rewrite Forall_forall in Hz. apply Hz, in_or_app. now right.
      * now apply Hcross.
Qed.

(** ** Stable sorting by key *)

Section Sorting.
Context {num : Type} {N : Number num} {A : Type}.
Variable ordered : num -> Prop.
Hypothesis Hordered : strict_weak_on ordered.

Lemma insert_keyed_perm (x : num * A) (l : list (num * A)) :
  Permutation (insert_keyed x l) (x :: l).
Proof.
  induction l as [|y l IH]; simpl; [reflexivity|].
  destruct (num_ltb (fst y) (fst x)); [|reflexivity].
  rewrite IH. apply perm_swap.
Qed.

Lemma stable_sort_perm (l : list (num * A)) : Permutation (stable_sort l) l.
Proof.
  induction l as [|x l IH]; simpl; [reflexivity|].
  rewrite insert_keyed_perm. now constructor.
Qed.

Lemma stable_sort_run (l : list (num * A)) :
  Sorted (fun a b => num_ltb (fst b) (fst a) = false) l -> stable_sort l = l.
Proof.
  induction 1 as [|x l _ IH Hx]; [reflexivity|].
  cbn [stable_sort fold_right]. fold (stable_sort l). rewrite IH.
  destruct Hx as [|y l Hyx]; [reflexivity|].
  cbn [insert_keyed]. now rewrite Hyx.
Qed.

Lemma insert_keyed_sorted (x : num * A) (l : list (num * A)) :
  ordered (fst x) -> Forall (fun p => ordered (fst p)) l ->
  StronglySorted (fun a b => num_ltb (fst b) (fst a) = false) l ->
  StronglySorted (fun a b => num_ltb (fst b) (fst a) = false) (insert_keyed x l).
Proof.
  destruct Hordered as [Hasym Hneg]. intros Hx Hl.
  induction 1 as [|y l Hs IH Hy]; simpl.
  - repeat constructor.
  - inversion Hl as [|? ? Hoy Hol]; subst.
    destruct (num_ltb (fst y) (fst x)) eqn:Hyx.
    + constructor; [now apply IH|].
      apply (Permutation_Forall (Permutation_sym (insert_keyed_perm x l))).
      constructor; [|exact Hy]. now apply Hasym.
    + constructor; [now constructor|].
      constructor; [exact Hyx|].
      rewrite Forall_forall in *. intros z Hz.
      apply (Hneg (fst z) (fst y) (fst x)); auto.
Qed.

Lemma stable_sort_sorted (l : list (num * A)) :
  Forall (fun p => ordered (fst p)) l ->
  StronglySorted (fun a b => num_ltb (fst b) (fst a) = false) (stable_sort l).
Proof.
  induction 1 as [|x l Hx Hl IH]; simpl; [constructor|].
  apply insert_keyed_sorted; [exact Hx | | exact IH].
  now apply (Permutation_Forall (Permutation_sym (stable_sort_perm l))).
Qed.

Lemma py_sorted_reverse (items : list A) (key : A -> result num) (k : A -> num) :
  Forall (fun x => key x = Ok (k x) /\ ordered (k x)) items ->
  exists ranked : list A,
    py_sorted items key true = Ok ranked /\
    Permutation ranked items /\
    StronglySorted (fun x y => num_ltb (k x) (k y) = false) ranked.
Proof.
  intros Hkeys. unfold py_sorted.
  rewrite (mapM_total _ (fun x => (k x, x))).
  2:{ eapply Forall_impl; [|exact Hkeys]. cbv beta. now intros x [-> _]. }
  unfold rbind. eexists. split; [reflexivity|].
  set (keyed := map (fun x => (k x, x)) items).
  set (sorted := rev (stable_sort (rev keyed))).
  assert (Hperm : Permutation sorted keyed).
  { unfold sorted. rewrite <- Permutation_rev, stable_sort_perm.
    symmetry. apply Permutation_rev. }
  split.
  - replace items with (map snd keyed)
      by (unfold keyed; rewrite map_map; apply map_id).
    now apply Permutation_map.
  - apply StronglySorted_map.
    apply StronglySorted_weaken
      with (R := fun a b => num_ltb (fst a) (fst b) = false).
    + assert (Hfst : Forall (fun p => fst p = k (snd p)) sorted).
      { apply (Permutation_Forall (Permutation_sym Hperm)).
        unfold keyed. apply Forall_map, Forall_forall. reflexivity. }
      rewrite Forall_forall in Hfst. intros a b Ha Hb.
      now rewrite (Hfst a Ha), (Hfst b Hb).
    + unfold sorted.
      apply (StronglySorted_rev (fun a b => num_ltb (fst b) (fst a) = false)).
      apply stable_sort_sorted. apply Forall_rev.
      unfold keyed. apply Forall_map.
      eapply Forall_impl; [|exact Hkeys]. cbv beta. now intros x [_ Hx].
Qed.

End Sorting.

(** ** The filter script *)

Lemma percentage_is_one_tenth :
  SFdiv prec emax (S754_finite false 1 0) (S754_finite false 10 0) = percentage.
Proof. vm_compute. reflexivity. Qed.

(** *** The Python numbers *)

Lemma extended_ltb_asym (x y : extended) :
  extended_ltb x y = true -> extended_ltb y x = false.
Proof.
  destruct x as [|p|], y as [|q|]; simpl; try congruence.
  intros H. apply negb_true_iff in H. apply negb_false_iff.
  apply QArith_base.Qle_bool_iff.
  destruct (QArith_base.Qlt_le_dec q p) as [Hlt|Hle].
  - apply QArith_base.Qlt_le_weak in Hlt.
    apply QArith_base.Qle_bool_iff in Hlt. congruence.
  - exact Hle.
Qed.

Lemma extended_ltb_negtrans (x y z : extended) :
  extended_ltb x y = false -> extended_ltb y z = false ->
  extended_ltb x z = false.
Proof.
  destruct x as [|p|], y as [|q|], z as [|r|]; simpl; try congruence.
  intros H1 H2. apply negb_false_iff in H1, H2. apply negb_false_iff.
  apply QArith_base.Qle_bool_iff in H1, H2. apply QArith_base.Qle_bool_iff.
  now apply QArith_base.Qle_trans with q.
Qed.

Lemma py_strict_weak : strict_weak_on (N := py_number) comparable.
Proof.
  unfold comparable. split.
  - intros a b Ha Hb. cbn [num_ltb py_number]. unfold py_ltb.
    destruct (py_value a), (py_value b); try congruence.
    apply extended_ltb_asym.
  - intros a b c Ha Hb Hc. cbn [num_ltb py_number]. unfold py_ltb.
    destruct (py_value a), (py_value b), (py_value c); try congruence.
    apply extended_ltb_negtrans.
Qed.

Section FilterScript.
Context {num : Type} {N : Number num}.

Lemma numbers_of_items (items : list (json num)) (xs : list num) :
  numbers_of items = Some xs -> items = map JNum xs.
Proof.
  revert xs. induction items as [|v items IH]; intros xs; simpl.
  - now intros [= <-].
  - destruct v; try discriminate.
    destruct (numbers_of items) as [ys|]; [|discriminate].
    intros [= <-]. simpl. f_equal. now apply IH.
Qed.

Lemma sum_from_total (xs : list num) (acc k : num) :
  total_from acc xs = Some k -> sum_from acc (map JNum xs) = Ok k.
Proof.
  revert acc. induction xs as [|x xs IH]; intros acc; simpl.
  - now intros [= ->].
  - unfold add_number. destruct (num_add acc x) as [acc'|]; [|discriminate].
    apply IH.
Qed.

Lemma cumulative_reward_sum (x : json num) (k : num) :
  reward_sum x = Some k -> cumulative_reward x = Ok k.
Proof.
  unfold reward_sum, cumulative_reward, get_reward.
  destruct x as [| | | | |fields]; try discriminate.
  destruct (assoc_get "reward" fields) as [[| | | |items|]|]; try discriminate.
  destruct (numbers_of items) as [xs|] eqn:Hxs; [|discriminate].
  apply numbers_of_items in Hxs. subst items. intros Hk.
  cbn [rbind py_sum]. now apply sum_from_total.
Qed.

Lemma reward_of_sum (x : json num) (k : num) :
  reward_sum x = Some k -> reward_of x = k.
Proof.
  intros Hk. unfold reward_of. now rewrite (cumulative_reward_sum x k Hk).
Qed.

Lemma reward_sum_numbers (x : json num) (k : num) :
  reward_sum x = Some k -> has_reward_numbers x.
Proof.
  unfold reward_sum, has_reward_numbers.
  destruct x as [| | | | |fields]; try discriminate.
  destruct (assoc_get "reward" fields) as [[| | | |items|]|] eqn:Hget;
    try discriminate.
  destruct (numbers_of items) as [xs|] eqn:Hxs; [|discriminate].
  apply numbers_of_items in Hxs. subst items. intros _.
  exists fields, (map JNum xs). repeat split; [exact Hget|].
  apply Forall_map, Forall_forall. intros y _. now exists y.
Qed.

Variable ordered : num -> Prop.
Hypothesis Hordered : strict_weak_on ordered.

Lemma filter_top_spec (all_data : list (json num)) :
  Forall (fun x => exists k, reward_sum x = Some k /\ ordered k) all_data ->
  (Z.of_nat (length all_data) < 2 ^ 50)%Z ->
  exists ranked : list (json num),
    filter_top all_data = Ok (firstn (length all_data / 10) ranked) /\
    Permutation ranked all_data /\
    StronglySorted outranks ranked.
Proof.
  intros Hwf Hsmall. unfold filter_top.
  destruct (py_sorted_reverse ordered Hordered all_data cumulative_reward reward_of)
    as (ranked & Hsorted & Hperm & Hdesc).
  { eapply Forall_impl; [|exact Hwf]. cbv beta. intros x (k & Hk & Hok).
    rewrite (reward_of_sum x k Hk). split; [|exact Hok].
    now apply cumulative_reward_sum. }
  rewrite Hsorted. unfold rbind.
  rewrite percent_count_tenth by lia.
  exists ranked. split; [|split; [exact Hperm|]].
  - unfold py_slice_to.
    change 10%Z with (Z.of_nat 10). rewrite <- Nat2Z.inj_div.
    destruct (Z.ltb_spec (Z.of_nat (length all_data / 10)) 0); [lia|].
    now rewrite Nat2Z.id.
  - apply StronglySorted_weaken
      with (R := fun x y => num_ltb (reward_of x) (reward_of y) = false);
      [|exact Hdesc].
    rewrite Forall_forall in Hwf.
    intros x y Hx Hy Hxy.
    destruct (Hwf x (Permutation_in x Hperm Hx)) as (a & Ha & _).
    destruct (Hwf y (Permutation_in y Hperm Hy)) as (b & Hb & _).
    exists a, b. rewrite (reward_of_sum x a Ha), (reward_of_sum y b Hb) in Hxy.
    auto.
Qed.

End FilterScript.

Lemma in_firstn {A : Type} (n : nat) (l : list A) (x : A) :
  In x (firstn n l) -> In x l.
Proof.
  intros Hx. rewrite <- (firstn_skipn n l). apply in_or_app. now left.
Qed.

(** C2, as the code has it. For input lines that decode to [n] records
    (fewer than 2^50), each carrying a ['reward'] list of numbers whose
    sum is defined (no addition overflows) and ordered by [<] (it is not
    NaN), the script writes one line per kept record, each the encoding
    of an input record, unchanged; it keeps exactly [int(n * 0.1)]
    records, which is [n // 10], hence none when [n < 10]; every kept
    record has a cumulative reward [sum(x['reward'])] no smaller than
    that of every record left out; and the kept records are written in
    non-increasing order of cumulative reward. *)
Theorem main_writes_top_tenth {num : Type} (N : Number num) (J : JsonCodec num)
  (ordered : num -> Prop) (lines : list string) (all_data : list (json num)) :
  strict_weak_on ordered ->
  read_all lines = Ok all_data ->
  Forall (fun x => exists k, reward_sum x = Some k /\ ordered k) all_data ->
  (Z.of_nat (length all_data) < 2 ^ 50)%Z ->
  exists out rest : list (json num),
    main lines = Ok (map (fun item => (dumps item ++ newline)%string) out) /\
    percent_count (Z.of_nat (length all_data)) = Ok (Z.of_nat (length out)) /\
    length out = length all_data / 10 /\
    (length all_data < 10 -> out = []) /\
    Permutation all_data (out ++ rest) /\
    (forall x, In x out -> In x all_data) /\
    (forall x y, In x out -> In y rest -> outranks x y) /\
    StronglySorted outranks out.
Proof.
  intros Hordered Hread Hwf Hsmall.
  destruct (filter_top_spec ordered Hordered all_data Hwf Hsmall)
    as (ranked & Htop & Hperm & Hdesc).
  set (k := length all_data / 10) in *.
  exists (firstn k ranked), (skipn k ranked).
  assert (Hlen : length (firstn k ranked) = k).
  { rewrite length_firstn, (Permutation_length Hperm). unfold k.
    pose proof (Nat.Div0.div_le_upper_bound (length all_data) 10
                  (length all_data) ltac:(lia)).
    lia. }
  rewrite firstn_skipn.
  rewrite <- (firstn_skipn k ranked) in Hdesc.
  apply StronglySorted_app_inv in Hdesc. destruct Hdesc as [Hout Hcross].
  split; [|split; [|split; [|split; [|split; [|split; [|split]]]]]].
  - unfold main. rewrite Hread. unfold rbind at 1. rewrite Htop. reflexivity.
  - rewrite Hlen. unfold k.
    rewrite percent_count_tenth by lia.
    change 10%Z with (Z.of_nat 10). now rewrite <- Nat2Z.inj_div.
  - exact Hlen.
  - intros Hfew. unfold k. rewrite Nat.div_small by exact Hfew. reflexivity.
  - now symmetry.
  - intros x Hx. apply (Permutation_in x Hperm). eapply in_firstn; eassumption.
  - exact Hcross.
  - exact Hout.
Qed.

Lemma sample_rollouts_ordered :
  Forall (fun x => exists k, reward_sum (N := py_number) x = Some k /\ comparable k)
         sample_rollouts.
Proof.
  unfold sample_rollouts. apply Forall_map.
  repeat (apply Forall_cons;
          [eexists; split; [vm_compute; reflexivity | discriminate]|]).
  apply Forall_nil.
Qed.

Lemma main_writes_top_tenth_witness :
  exists out rest : list (json pynum),
    main (N := py_number) (J := sample_codec) sample_lines
    = Ok (map (fun item =>
                 (dumps (JsonCodec := sample_codec) item ++ newline)%string)
              out) /\
    main (N := py_number) (J := sample_codec) sample_lines
    = Ok [ ("9" ++ newline)%string ] /\
    percent_count (Z.of_nat (length sample_rollouts)) = Ok (Z.of_nat (length out)) /\
    length out = 1 /\
    Permutation sample_rollouts (out ++ rest) /\
    (forall x y, In x out -> In y rest -> outranks (N := py_number) x y) /\
    StronglySorted (outranks (N := py_number)) out.
Proof.
  destruct (main_writes_top_tenth py_number sample_codec comparable
              sample_lines sample_rollouts)
    as (out & rest & Hmain & Hcount & Hlen & _ & Hperm & _ & Hcross & Hsorted).
  - exact py_strict_weak.
  - vm_compute. reflexivity.
  - exact sample_rollouts_ordered.
  - reflexivity.
  - exists out, rest. split; [exact Hmain|].
    split; [vm_compute; reflexivity|]. repeat split; assumption.
Defined.

Lemma reward_record_numbers {num : Type} (rewards : list num) :
  has_reward_numbers (reward_record rewards).
Proof.
  exists [("reward"%string, JArr (map JNum rewards))], (map JNum rewards).
  repeat split. apply Forall_map, Forall_forall. intros x _. now exists x.
Qed.

(** C2, as stated, fails on rewards that are numbers but whose sum is NaN
    or raises.  Of the twenty records of [nan_lines] the script keeps
    two: the first record, of cumulative reward 2, and the record whose
    rewards [1e999, -1e999] sum to NaN; the record of cumulative reward
    4 is left out (no comparison with NaN is true, so the reversed list
    is one ascending run and the sort leaves it as it is).  On the ten
    records of [big_lines] the script writes nothing: adding the float
    0.5 to the int [10**400] raises OverflowError. *)
Lemma main_writes_top_tenth_counterexample :
  (read_all (J := sample_codec) nan_lines = Ok nan_rollouts /\
   Forall has_reward_numbers nan_rollouts /\
   length nan_rollouts = 20 /\
   filter_top (N := py_number) nan_rollouts
   = Ok [ reward_record [PInt 2];
          reward_record [PFloat float_inf; PFloat float_neg_inf] ] /\
   main (N := py_number) (J := sample_codec) nan_lines
   = Ok [ ("2" ++ newline)%string; ("pm" ++ newline)%string ] /\
   In (reward_record [PInt 4]) nan_rollouts /\
   reward_sum (N := py_number) (reward_record [PInt 2]) = Some (PInt 2) /\
   reward_sum (N := py_number) (reward_record [PInt 4]) = Some (PInt 4) /\
   num_ltb (PInt 2) (PInt 4) = true /\
   reward_sum (N := py_number)
     (reward_record [PFloat float_inf; PFloat float_neg_inf])
   = Some (PFloat S754_nan)) /\
  (read_all (J := sample_codec) big_lines = Ok big_rollouts /\
   Forall has_reward_numbers big_rollouts /\
   length big_rollouts = 10 /\
   filter_top (N := py_number) big_rollouts = Raise OverflowError /\
   main (N := py_number) (J := sample_codec) big_lines = Raise OverflowError).
Proof.
  assert (Hnumbers : forall rewards : list (list pynum),
             Forall has_reward_numbers (map reward_record rewards)).
  { intros rewards. apply Forall_map, Forall_forall. intros r _.
    apply reward_record_numbers. }
  split.
  - split; [vm_compute; reflexivity|]. split; [apply Hnumbers|].
    split; [reflexivity|]. split; [vm_compute; reflexivity|].
    split; [vm_compute; reflexivity|].
    split; [right; right; left; reflexivity|].
    repeat split; vm_compute; reflexivity.
  - split; [vm_compute; reflexivity|]. split; [apply Hnumbers|].
    split; [reflexivity|]. split; vm_compute; reflexivity.
Qed.

(* ================================================================== *)
(** * Further properties of generation_eval.py *)

(** ** Words: [split] and [join] *)

Lemma split_words (s : str) : Forall is_word (split s).
Proof.
  induction s as [|c s IH]; simpl; [constructor|].
  destruct (is_space c) eqn:Hc; [exact IH|].
  destruct (starts_word s).
  - destruct (split s) as [|w ws].
    + repeat constructor; [discriminate | exact Hc].
    + inversion IH as [|? ? [Hw Hsp] Hws]; subst.
      constructor; [|exact Hws]. split; [discriminate | now constructor].
  - constructor; [|exact IH]. split; [discriminate | now repeat constructor].
Qed.

Lemma split_chars (P : char -> Prop) (s : str) :
  Forall P s -> Forall (Forall P) (split s).
Proof.
  induction 1 as [|c s Hc _ IH]; simpl; [constructor|].
  destruct (is_space c); [exact IH|].
  destruct (starts_word s).
  - destruct (split s) as [|w ws]; [now repeat constructor|].
    inversion IH; subst. constructor; [now constructor | assumption].
  - constructor; [now repeat constructor | exact IH].
Qed.

Lemma split_word_app_space (w : str) (sp : char) (rest : str) :
  is_word w -> is_space sp = true -> split (w ++ sp :: rest) = w :: split rest.
Proof.
  intros Hw Hsp. rewrite split_app_space by exact Hsp.
  now rewrite split_word.
Qed.

Lemma split_join (ws : list str) :
  Forall is_word ws -> split (join (lit " ") ws) = ws.
Proof.
  induction 1 as [|w ws Hw Hws IH]; [reflexivity|].
  destruct ws as [|w' ws']; [now apply split_word|].
  rewrite join_cons2.
  change (lit " " ++ join (lit " ") (w' :: ws'))
    with (32%N :: join (lit " ") (w' :: ws')).
  rewrite split_word_app_space by (auto; reflexivity).
  now rewrite IH.
Qed.

Lemma join_chars (P : char -> Prop) (sep : str) (ws : list str) :
  Forall P sep -> Forall (Forall P) ws -> Forall P (join sep ws).
Proof.
  intros Hsep. induction 1 as [|w ws Hw Hws IH]; simpl; [constructor|].
  destruct ws; [exact Hw|].
  apply Forall_app. split; [exact Hw|]. apply Forall_app. now split.
Qed.

(** ** [normalize_answer] is a normal form *)

Lemma normalize_answer_settled (s : str) :
  Forall (fun c => settled c = true) (normalize_answer s).
Proof.
  unfold normalize_answer, white_space_fix. apply join_chars.
  - repeat constructor.
  - apply split_chars. unfold remove_punc.
    apply Forall_forall. intros c Hc. apply filter_In in Hc.
    destruct Hc as [Hc _]. revert c Hc. apply Forall_forall.
    apply lower_from_all_settled.
Qed.

Lemma normalize_answer_unmarked (s : str) :
  Forall (fun c => is_punct c = false) (normalize_answer s).
Proof.
  unfold normalize_answer, white_space_fix. apply join_chars.
  - repeat constructor.
  - apply split_chars. unfold remove_punc.
    apply Forall_forall. intros c Hc. apply filter_In in Hc.
    destruct Hc as [_ Hc]. now apply negb_true_iff in Hc.
Qed.

Lemma remove_punc_unmarked (s : str) :
  Forall (fun c => is_punct c = false) s -> remove_punc s = s.
Proof.
  induction 1 as [|c s Hc _ IH]; [reflexivity|].
  cbn [remove_punc filter]. rewrite Hc. cbn [negb]. f_equal. exact IH.
Qed.

Lemma normalize_answer_split (s : str) :
  split (normalize_answer s) = split (remove_punc (lower s)).
Proof. unfold normalize_answer, white_space_fix. apply split_join, split_words. Qed.

(** X1. [normalize_answer] yields a normal form: lower-casing its result
    changes nothing, the result holds no punctuation and is its words
    joined by single spaces (so it has no leading, trailing or repeated
    whitespace), and normalising it again changes nothing; hence
    [exact_match] gives the same value on a string and on its normal
    form. *)
Theorem normalize_answer_normal_form (s : str) :
  lower (normalize_answer s) = normalize_answer s /\
  Forall (fun c => is_punct c = false) (normalize_answer s) /\
  normalize_answer s = join (lit " ") (split (normalize_answer s)) /\
  Forall is_word (split (normalize_answer s)) /\
  normalize_answer (normalize_answer s) = normalize_answer s /\
  forall r : str,
    exact_match (normalize_answer s) r = exact_match s r /\
    exact_match r (normalize_answer s) = exact_match r s.
Proof.
  assert (Hlower : lower (normalize_answer s) = normalize_answer s)
    by apply lower_settled, normalize_answer_settled.
  assert (Hidem : normalize_answer (normalize_answer s) = normalize_answer s).
  { unfold normalize_answer at 1. unfold white_space_fix.
    rewrite Hlower, remove_punc_unmarked by apply normalize_answer_unmarked.
    now rewrite normalize_answer_split. }
  split; [exact Hlower|].
  split; [apply normalize_answer_unmarked|].
  split; [now rewrite normalize_answer_split|].
  split; [apply split_words|]. split; [exact Hidem|].
  intros r. unfold exact_match. now rewrite Hidem.
Qed.

(** ** Maximum over the references *)

Lemma is_maximum_unique (m m' : R) (xs xs' : list R) :
  (forall x, In x xs <-> In x xs') ->
  is_maximum m xs -> is_maximum m' xs' -> m = m'.
Proof.
  intros Hsame [Hin Hle] [Hin' Hle'].
  apply Rle_antisym; [apply Hle', Hsame, Hin | apply Hle, Hsame, Hin'].
Qed.

(** X2. Over a non-empty list of references, the best exact match is 1.0
    as soon as one reference has the normal form of the prediction, and
    0.0 when none has. *)
Theorem exact_match_over_references (prediction : str) (references : list str) :
  references <> [] ->
  (Exists (fun r => normalize_answer prediction = normalize_answer r) references ->
   metric_max_over_references exact_match prediction references = Ok 1%R) /\
  (Forall (fun r => normalize_answer prediction <> normalize_answer r) references ->
   metric_max_over_references exact_match prediction references = Ok 0%R).
Proof.
  intros Hne. rewrite metric_max_nonempty by exact Hne.
  set (scores := map (fun r => exact_match prediction r) references).
  assert (Hscores : scores <> [])
    by (unfold scores; destruct references; [congruence | discriminate]).
  destruct (maximum_is_maximum scores Hscores) as [Hin Hle].
  apply in_map_iff in Hin. destruct Hin as (r0 & Hr0 & Hin0).
  split.
  - intros Hex. apply Exists_exists in Hex. destruct Hex as (r & Hr & Heq).
    assert (H1 : (1 <= maximum scores)%R).
    { apply Hle. apply in_map_iff. exists r. split; [|exact Hr].
      destruct (exact_match_cases prediction r) as [[_ ->]|[Hn _]];
        [reflexivity | contradiction]. }
    f_equal. rewrite <- Hr0 in *.
    destruct (exact_match_cases prediction r0) as [[_ E]|[_ E]];
      rewrite E in *; [reflexivity | lra].
  - intros Hall. rewrite Forall_forall in Hall. f_equal. rewrite <- Hr0.
    destruct (exact_match_cases prediction r0) as [[E _]|[_ E]];
      [destruct (Hall r0 Hin0 E) | exact E].
Qed.

Lemma exact_match_over_references_witness :
  metric_max_over_references exact_match (lit "The cat.")
    [lit "a dog"; lit "the  CAT"] = Ok 1%R /\
  metric_max_over_references exact_match (lit "The cat.")
    [lit "a dog"; lit "a cat"] = Ok 0%R.
Proof.
  split.
  - apply (exact_match_over_references (lit "The cat.")
             [lit "a dog"; lit "the  CAT"]); [discriminate|].
    apply Exists_cons_tl, Exists_cons_hd. reflexivity.
  - apply (exact_match_over_references (lit "The cat.")
             [lit "a dog"; lit "a cat"]); [discriminate|].
    repeat constructor; vm_compute; discriminate.
Defined.

(** X3. The score of a prediction over its references does not depend on
    the order of the references, and more references never lower it. *)
Theorem metric_max_over_references_order_and_growth
  (metric_fn : str -> str -> R) (prediction : str)
  (references references' more : list str) :
  references <> [] ->
  (Permutation references references' ->
   metric_max_over_references metric_fn prediction references'
   = metric_max_over_references metric_fn prediction references) /\
  exists m m' : R,
    metric_max_over_references metric_fn prediction references = Ok m /\
    metric_max_over_references metric_fn prediction (references ++ more) = Ok m' /\
    (m <= m')%R.
Proof.
  intros Hne.
  assert (Hmap : forall l : list str,
             l <> [] -> map (fun r => metric_fn prediction r) l <> []).
  { intros l Hl. destruct l; [congruence | discriminate]. }
  split.
  - intros Hperm.
    assert (Hne' : references' <> []).
    { intros ->. apply Permutation_sym, Permutation_nil in Hperm. congruence. }
    rewrite !metric_max_nonempty by assumption. f_equal.
    eapply is_maximum_unique;
      [| apply maximum_is_maximum, Hmap, Hne'
       | apply maximum_is_maximum, Hmap, Hne].
    intros x. split; apply Permutation_in, Permutation_map;
      [now symmetry | exact Hperm].
  - assert (Hne2 : references ++ more <> [])
      by (destruct references; [congruence | discriminate]).
    do 2 eexists. rewrite !metric_max_nonempty by assumption.
    split; [reflexivity|]. split; [reflexivity|].
    destruct (maximum_is_maximum _ (Hmap _ Hne)) as [Hin _].
    destruct (maximum_is_maximum _ (Hmap _ Hne2)) as [_ Hle].
    apply Hle. rewrite map_app. apply in_or_app. now left.
Qed.

Lemma metric_max_over_references_order_and_growth_witness :
  metric_max_over_references exact_match (lit "a") [lit "A"; lit "b"]
  = metric_max_over_references exact_match (lit "a") [lit "b"; lit "A"].
Proof.
  apply (metric_max_over_references_order_and_growth exact_match (lit "a")
           [lit "b"; lit "A"] [lit "A"; lit "b"] []).
  - discriminate.
  - apply perm_swap.
Defined.

(** ** When [compute_metrics] returns, and what *)

(** X4. [compute_metrics] returns a dictionary exactly on non-empty data
    whose reference lists are all non-empty; on any other data it raises
    [ValueError], from unpacking the empty list or from [max] of no
    score. *)
Theorem compute_metrics_returns_iff (S : Scorers) (data : list gen_record) :
  ((exists d : metrics, compute_metrics data = Ok d) <->
   data <> [] /\ Forall (fun rec => reference rec <> []) data) /\
  (forall e : exn, compute_metrics data = Raise e -> e = ValueError).
Proof.
  split; [split|].
  - intros [d Hd]. split.
    + intros ->. discriminate.
    + destruct (references_checked data) as [Hall|Hex]; [exact Hall|].
      rewrite compute_metrics_raise in Hd by now right. discriminate.
  - intros [Hne Hrefs]. eexists. apply (compute_metrics_ok S data Hne Hrefs).
  - intros e He. destruct (references_checked data) as [Hall|Hex].
    + destruct data as [|rec rest];
        [rewrite compute_metrics_raise in He by (now left); congruence|].
      rewrite (compute_metrics_ok S (rec :: rest)) in He;
        [discriminate | discriminate | exact Hall].
    + rewrite compute_metrics_raise in He by now right. congruence.
Qed.

(** X5. [compute_metrics] reads the generations and the references only:
    data that agree on these two columns, whatever their prompts, get the
    same result. *)
Theorem compute_metrics_ignores_prompts (S : Scorers) (data data' : list gen_record) :
  map generation data = map generation data' ->
  map reference data = map reference data' ->
  compute_metrics data = compute_metrics data'.
Proof.
  intros Hgen Href. unfold compute_metrics.
  destruct data as [|rec data], data' as [|rec' data'];
    try discriminate; [reflexivity|].
  unfold unpack_columns, rbind at 1 6.
  now rewrite Hgen, Href.
Qed.

Lemma compute_metrics_ignores_prompts_witness :
  compute_metrics (S := constant_scorers 0)
    [mk_record (lit "one prompt") [lit "a b"] (lit "a b")]
  = compute_metrics (S := constant_scorers 0)
      [mk_record (lit "another") [lit "a b"] (lit "a b")].
Proof.
  apply (compute_metrics_ignores_prompts (constant_scorers 0)); reflexivity.
Defined.

(** ** Ranges of the reported values *)

Lemma sum_bounds (a b : R) (xs : list R) :
  Forall (fun x => (a <= x <= b)%R) xs ->
  (INR (length xs) * a <= fold_right Rplus 0 xs <= INR (length xs) * b)%R.
Proof.
  induction 1 as [|x xs Hx _ IH].
  - simpl. lra.
  - cbn [fold_right length]. rewrite S_INR. lra.
Qed.

Lemma arithmetic_mean_bounds (a b : R) (xs : list R) :
  xs <> [] -> Forall (fun x => (a <= x <= b)%R) xs ->
  (a <= arithmetic_mean xs <= b)%R.
Proof.
  intros Hne Hxs. unfold arithmetic_mean.
  assert (Hn : (0 < INR (length xs))%R)
    by (apply lt_0_INR; destruct xs; [congruence | simpl; lia]).
  pose proof (sum_bounds a b xs Hxs) as [Hlo Hhi].
  split.
  - apply Rmult_le_reg_r with (INR (length xs)); [exact Hn|].
    unfold Rdiv. rewrite Rmult_assoc, Rinv_l by lra. lra.
  - apply Rmult_le_reg_r with (INR (length xs)); [exact Hn|].
    unfold Rdiv. rewrite Rmult_assoc, Rinv_l by lra. lra.
Qed.

Lemma standard_error_nonneg (xs : list R) (n : nat) :
  1 <= n -> (0 <= population_std xs / sqrt (INR n))%R.
Proof.
  intros Hn. unfold population_std.
  assert (0 < sqrt (INR n))%R by (apply sqrt_lt_R0, lt_0_INR; lia).
  apply Rmult_le_pos; [apply sqrt_pos | left; now apply Rinv_0_lt_compat].
Qed.

Lemma best_exact_match_unit (rec : gen_record) :
  reference rec <> [] -> (0 <= best_score exact_match rec <= 1)%R.
Proof.
  intros Hne. unfold best_score.
  set (scores := map (fun r => exact_match (generation rec) r) (reference rec)).
  assert (Hscores : scores <> [])
    by (unfold scores; destruct (reference rec); [congruence | discriminate]).
  destruct (maximum_is_maximum scores Hscores) as [Hin _].
  apply in_map_iff in Hin. destruct Hin as (r & <- & _).
  destruct (exact_match_cases (generation rec) r) as [[_ ->]|[_ ->]]; lra.
Qed.

Lemma diversity_in_unit (predictions : list str) (n : Z) :
  (0 < diversity predictions n <= 1)%R.
Proof.
  unfold diversity.
  destruct (all_n_grams predictions n) as [|g gs] eqn:Hg; simpl Nat.eqb;
    cbv iota; [lra|].
  apply ratio_in_unit; [apply len_set_pos; discriminate | apply len_set_le].
Qed.

Lemma arithmetic_mean_nonneg (xs : list R) :
  xs <> [] -> Forall (fun x => (0 <= x)%R) xs -> (0 <= arithmetic_mean xs)%R.
Proof.
  intros Hne Hxs. unfold arithmetic_mean.
  assert (Hn : (0 < INR (length xs))%R)
    by (apply lt_0_INR; destruct xs; [congruence | simpl; lia]).
  assert (Hsum : (0 <= fold_right Rplus 0 xs)%R).
  { clear Hne Hn. induction Hxs as [|x xs Hx _ IH]; simpl; lra. }
  apply Rmult_le_pos; [exact Hsum | left; now apply Rinv_0_lt_compat].
Qed.

(** X6. Whatever the ROUGE scorers return, the dictionary of
    [compute_metrics] has exact_match in [0, 1], avg_length at least 0,
    diversity2 and diversity3 in (0, 1], and a standard error at least 0
    under each of the four [_err] keys. *)
Theorem compute_metrics_ranges (S : Scorers) (data : list gen_record) (d : metrics) :
  compute_metrics data = Ok d ->
  (exists v, dict_get "exact_match" d = Some v /\ (0 <= v <= 1)%R) /\
  (exists v, dict_get "avg_length" d = Some v /\ (0 <= v)%R) /\
  (exists v, dict_get "diversity2" d = Some v /\ (0 < v <= 1)%R) /\
  (exists v, dict_get "diversity3" d = Some v /\ (0 < v <= 1)%R) /\
  (forall key, In key error_keys ->
     exists v, dict_get key d = Some v /\ (0 <= v)%R).
Proof.
  intros Hd. destruct (compute_metrics_inv S data d Hd) as [Hne Hrefs].
  rewrite (compute_metrics_ok S data Hne Hrefs) in Hd. injection Hd as <-.
  assert (Hn : 1 <= length data) by (destruct data; [congruence | simpl; lia]).
  assert (Hmap : forall (f : gen_record -> R), map f data <> [])
    by (intros f; destruct data; [congruence | discriminate]).
  split; [|split; [|split; [|split]]].
  - eexists. split; [reflexivity|].
    apply arithmetic_mean_bounds; [apply Hmap|].
    apply Forall_map. eapply Forall_impl; [|exact Hrefs].
    apply best_exact_match_unit.
  - eexists. split; [reflexivity|].
    apply arithmetic_mean_nonneg; [apply Hmap|].
    apply Forall_map, Forall_forall. intros rec _. apply pos_INR.
  - eexists. split; [reflexivity | apply diversity_in_unit].
  - eexists. split; [reflexivity | apply diversity_in_unit].
  - intros key [<-|[<-|[<-|[<-|[]]]]]; eexists;
      (split; [reflexivity | now apply standard_error_nonneg]).
Qed.

Lemma compute_metrics_ranges_witness :
  exists d : metrics,
    compute_metrics (S := constant_scorers 0) [sample_record] = Ok d /\
    exists v, dict_get "exact_match" d = Some v /\ (0 <= v <= 1)%R.
Proof.
  assert (Hne : [sample_record] <> []) by discriminate.
  assert (Hrefs : Forall (fun rec => reference rec <> []) [sample_record])
    by (repeat constructor; discriminate).
  pose proof (compute_metrics_ok (constant_scorers 0) [sample_record] Hne Hrefs)
    as Hd.
  cbv zeta in Hd. eexists. split; [exact Hd|].
  apply (compute_metrics_ranges (constant_scorers 0) [sample_record] _ Hd).
Defined.

Lemma arithmetic_mean_single (x : R) : arithmetic_mean [x] = x.
Proof. unfold arithmetic_mean. simpl. field. Qed.

Lemma population_std_single (x : R) : population_std [x] = 0%R.
Proof.
  unfold population_std. rewrite arithmetic_mean_single.
  cbn [map]. rewrite arithmetic_mean_single.
  replace (x - x)%R with 0%R by ring. rewrite Rsqr_0. apply sqrt_0.
Qed.

(** X7. On a single record (with a reference) [compute_metrics] reports
    the record's own scores as the means: its best ROUGE-1, ROUGE-L and
    exact match over the references and its token count; every standard
    error is 0. *)
Theorem compute_metrics_single_record (S : Scorers) (rec : gen_record) :
  reference rec <> [] ->
  exists d : metrics,
    compute_metrics [rec] = Ok d /\
    dict_get "rouge1" d = Some (best_score rouge1_score rec) /\
    dict_get "rougeL" d = Some (best_score rougeL_score rec) /\
    dict_get "exact_match" d = Some (best_score exact_match rec) /\
    dict_get "avg_length" d = Some (INR (token_count (generation rec))) /\
    forall key, In key error_keys -> dict_get key d = Some 0%R.
Proof.
  intros Href. eexists. split.
  - apply (compute_metrics_ok S [rec]); [discriminate | now repeat constructor].
  - cbn [map length]. rewrite !arithmetic_mean_single, !population_std_single.
    replace (0 / sqrt (INR 1))%R with 0%R by (unfold Rdiv; ring).
    repeat split; try reflexivity.
    intros key [<-|[<-|[<-|[<-|[]]]]]; reflexivity.
Qed.

Lemma compute_metrics_single_record_witness :
  exists d : metrics,
    compute_metrics (S := constant_scorers 0) [sample_record] = Ok d /\
    dict_get "exact_match" d = Some (best_score exact_match sample_record) /\
    dict_get "exact_match_err" d = Some 0%R.
Proof.
  destruct (compute_metrics_single_record (constant_scorers 0) sample_record)
    as (d & Hd & _ & _ & Hem & _ & Herr); [discriminate|].
  exists d. repeat split; [exact Hd | exact Hem |].
  apply Herr. right. right. now left.
Defined.

(** ** Tokens, n-grams and [diversity] *)

Lemma tokens_of_prediction (p : str) :
  split (strip (lower p)) = map lower (split p).
Proof. now rewrite split_strip, split_lower. Qed.

Lemma windows_length {A : Type} (n : nat) (l : list A) :
  1 <= n -> length (windows n l) = length l + 1 - n.
Proof.
  intros Hn. induction l as [|x l IH]; [cbn [windows length]; lia|].
  rewrite windows_cons. destruct (Nat.leb_spec n (S (length l))) as [Hle|Hgt].
  - cbn [length]. rewrite IH. lia.
  - cbn [length]. lia.
Qed.

Lemma flat_map_length {A B : Type} (f : A -> list B) (l : list A) :
  length (flat_map f l) = list_sum (map (fun x => length (f x)) l).
Proof.
  induction l as [|x l IH]; [reflexivity|].
  cbn [flat_map map list_sum]. now rewrite length_app, IH.
Qed.

(** X8. For [1 <= n], a prediction of [t] whitespace-separated tokens
    contributes [t + 1 - n] n-grams (none when [t < n]): the number of
    n-grams [diversity] divides by is the sum of these over the
    predictions. *)
Theorem all_n_grams_count (predictions : list str) (n : Z) :
  (1 <= n)%Z ->
  length (all_n_grams predictions n)
  = list_sum (map (fun p => token_count p + 1 - Z.to_nat n) predictions).
Proof.
  intros Hn. unfold all_n_grams. rewrite flat_map_length. f_equal.
  apply map_ext. intros p.
  rewrite n_grams_of_windows by exact Hn.
  rewrite windows_length by lia.
  rewrite tokens_of_prediction, length_map. unfold token_count.
  now rewrite split_words_eq.
Qed.

Lemma all_n_grams_count_witness :
  length (all_n_grams [lit "a b c d"; lit "x"; lit " y  z "] 2)
  = list_sum (map (fun p => token_count p + 1 - Z.to_nat 2)
                  [lit "a b c d"; lit "x"; lit " y  z "]).
Proof.
  apply (all_n_grams_count [lit "a b c d"; lit "x"; lit " y  z "] 2). lia.
Defined.

Lemma nodup_length_NoDup (xs : list (list str)) :
  len_set xs = length xs <-> NoDup xs.
Proof.
  unfold len_set. split.
  - induction xs as [|x xs IH]; [constructor|].
    cbn [nodup]. pose proof (len_set_le xs) as Hle. unfold len_set in Hle.
    destruct (in_dec ngram_eq_dec x xs) as [Hin|Hnot]; cbn [length]; intros Hlen.
    + lia.
    + constructor; [exact Hnot | apply IH; lia].
  - intros Hnd. now rewrite nodup_fixed_point.
Qed.

(** X9. [diversity] is 1.0 exactly when no n-gram occurs twice among
    those collected from the predictions. *)
Theorem diversity_one_iff (predictions : list str) (n : Z) :
  diversity predictions n = 1%R <-> NoDup (all_n_grams predictions n).
Proof.
  unfold diversity. set (grams := all_n_grams predictions n).
  destruct grams as [|g gs] eqn:Hg.
  - simpl. split; [constructor | reflexivity].
  - change (length (g :: gs) =? 0) with false. cbv iota.
    rewrite <- nodup_length_NoDup.
    assert (Ht : (0 < INR (length (g :: gs)))%R)
      by (apply lt_0_INR; simpl; lia).
    split.
    + intros Hone. apply INR_eq.
      apply (Rmult_eq_compat_r (INR (length (g :: gs)))) in Hone.
      unfold Rdiv in Hone. rewrite Rmult_assoc, Rinv_l in Hone by lra. lra.
    + intros ->. unfold Rdiv. apply Rinv_r. lra.
Qed.

Lemma all_n_grams_pointwise (f : str -> str) (predictions : list str) (n : Z) :
  (forall p, split (strip (lower (f p))) = split (strip (lower p))) ->
  all_n_grams (map f predictions) n = all_n_grams predictions n.
Proof.
  intros Hf. unfold all_n_grams.
  induction predictions as [|p ps IH]; [reflexivity|].
  cbn [map flat_map]. now rewrite Hf, IH.
Qed.

(** X10. [diversity] looks at the lower-cased tokens only: lower-casing
    the predictions, stripping them, or rewriting their whitespace to
    single spaces beforehand leaves its value unchanged. *)
Theorem diversity_case_and_whitespace (predictions : list str) (n : Z) :
  diversity (map lower predictions) n = diversity predictions n /\
  diversity (map strip predictions) n = diversity predictions n /\
  diversity (map white_space_fix predictions) n = diversity predictions n.
Proof.
  unfold diversity. repeat split.
  - rewrite all_n_grams_pointwise; [reflexivity|].
    intros p. now rewrite lower_idem.
  - rewrite all_n_grams_pointwise; [reflexivity|].
    intros p. now rewrite !tokens_of_prediction, split_strip.
  - rewrite all_n_grams_pointwise; [reflexivity|].
    intros p. rewrite !tokens_of_prediction. unfold white_space_fix.
    now rewrite split_join by apply split_words.
Qed.

Lemma len_set_permutation (xs ys : list (list str)) :
  Permutation xs ys -> len_set xs = len_set ys.
Proof.
  intros Hperm. unfold len_set. apply Permutation_length.
  apply NoDup_Permutation; try apply NoDup_nodup.
  intros g. rewrite !nodup_In.
  split; apply Permutation_in; [exact Hperm | now symmetry].
Qed.

(** X11. [diversity] does not depend on the order of the predictions. *)
Theorem diversity_permutation (predictions predictions' : list str) (n : Z) :
  Permutation predictions predictions' ->
  diversity predictions' n = diversity predictions n.
Proof.
  intros Hperm. unfold diversity.
  assert (Hgrams : Permutation (all_n_grams predictions' n)
                               (all_n_grams predictions n))
    by (unfold all_n_grams; apply Permutation_flat_map; now symmetry).
  rewrite (Permutation_length Hgrams).
  now rewrite (len_set_permutation _ _ Hgrams).
Qed.

Lemma diversity_permutation_witness :
  diversity [lit "c d"; lit "a b a b"] 2 = diversity [lit "a b a b"; lit "c d"] 2.
Proof.
  apply (diversity_permutation [lit "a b a b"; lit "c d"]
           [lit "c d"; lit "a b a b"] 2).
  apply perm_swap.
Defined.

(** X12. For [n <= 0] there is nothing to zip: [diversity] collects no
    n-gram and returns 1.0, whatever the predictions. *)
Theorem diversity_nonpositive_n (predictions : list str) (n : Z) :
  (n <= 0)%Z ->
  all_n_grams predictions n = [] /\ diversity predictions n = 1%R.
Proof.
  intros Hn.
  assert (Hnone : all_n_grams predictions n = []).
  { unfold all_n_grams, n_grams_of, py_range1.
    replace (Z.to_nat n) with 0 by lia.
    induction predictions as [|p ps IH]; [reflexivity | exact IH]. }
  split; [exact Hnone|]. unfold diversity. now rewrite Hnone.
Qed.

Lemma diversity_nonpositive_n_witness :
  diversity [lit "a b a b"] 0 = 1%R.
Proof. apply (diversity_nonpositive_n [lit "a b a b"] 0). lia. Defined.

(** ** [gram_length] and [bleu_score] *)

Lemma split_nil_blank (s : str) :
  split s = [] <-> Forall (fun c => is_space c = true) s.
Proof.
  split; [|apply split_all_space].
  induction s as [|c s IH]; [constructor|]. simpl.
  destruct (is_space c) eqn:Hc.
  - intros Hs. constructor; [exact Hc | now apply IH].
  - destruct (starts_word s); [destruct (split s)|]; discriminate.
Qed.

(** X13. [gram_length] counts the whitespace-separated words: it is 0.0
    exactly on strings made of whitespace only (the empty string among
    them), it is the number of words on words joined by single spaces,
    and rewriting the whitespace of a string does not change it. *)
Theorem gram_length_counts_words (s : str) (words : list str) :
  (gram_length s = 0%R <-> Forall (fun c => is_space c = true) s) /\
  (Forall is_word words ->
   gram_length (join (lit " ") words) = INR (length words)) /\
  gram_length (white_space_fix s) = gram_length s.
Proof.
  rewrite !gram_length_token_count. unfold token_count.
  rewrite <- !split_words_eq. split; [|split].
  - rewrite <- split_nil_blank. split.
    + intros Hzero. change 0%R with (INR 0) in Hzero. apply INR_eq in Hzero.
      now apply length_zero_iff_nil.
    + now intros ->.
  - intros Hwords. now rewrite split_join.
  - unfold white_space_fix. now rewrite split_join by apply split_words.
Qed.

Lemma gram_length_counts_words_witness :
  gram_length [32; 9; 32]%N = 0%R /\
  gram_length (join (lit " ") [lit "to"; lit "be"; lit "or"]) = INR 3.
Proof.
  destruct (gram_length_counts_words [32; 9; 32]%N
              [lit "to"; lit "be"; lit "or"])
    as (Hblank & Hwords & _).
  split.
  - apply Hblank. repeat constructor.
  - apply Hwords. repeat constructor; discriminate.
Defined.

(** X14. [bleu_score] hands [sentence_bleu] the whitespace-separated
    tokens only, case and punctuation kept: a prediction and references
    with the same tokens get the same score, so leading, trailing or
    repeated whitespace never matters. *)
Theorem bleu_score_tokens (S : Scorers) (prediction prediction' : str)
  (references references' : list str) :
  split prediction = split prediction' ->
  Forall2 (fun r r' => split r = split r') references references' ->
  bleu_score prediction references = bleu_score prediction' references'.
Proof.
  intros Hp Hrefs. unfold bleu_score. rewrite !split_strip, Hp. f_equal.
  induction Hrefs as [|r r' rs rs' Hr _ IH]; [reflexivity|].
  cbn [map]. now rewrite !split_strip, Hr, IH.
Qed.

Lemma bleu_score_tokens_witness :
  bleu_score (S := constant_scorers 0) (lit "  the cat ") [lit "a   cat"]
  = bleu_score (S := constant_scorers 0) (lit "the cat") [lit "a cat"].
Proof.
  apply (bleu_score_tokens (constant_scorers 0)); [reflexivity|].
  repeat constructor.
Defined.

(* ================================================================== *)
(** * Further properties of [generate_language] *)

Section Runs.
Context {St : Type} {I : Inference St}.

Lemma run_lengths (bs : list (list str * list (list str))) (st : St) :
  Forall (fun x => length (fst x) = length (snd x)) bs ->
  length (fst (fst (run_batches bs st)))
  = list_sum (map (fun c => Nat.min (length (fst c)) (length (snd c)))
                  (snd (fst (run_batches bs st)))).
Proof.
  intros Hbs. revert st. induction Hbs as [|[p r] rest Hpr _ IH]; intros st.
  - reflexivity.
  - cbn [run_batches]. destruct (generate_from_str p st) as [out st1].
    specialize (IH st1). destruct (run_batches rest st1) as [[recs cs] st2].
    cbn [fst snd map list_sum] in *. rewrite length_app, IH.
    unfold zip_records. rewrite length_map, !length_combine, <- Hpr.
    cbn [list_sum]. now rewrite Nat.min_id.
Qed.

Lemma run_nil (st : St) : run_batches [] st = ([], [], st).
Proof. reflexivity. Qed.

End Runs.

(** X15. The batch size is not validated: with lists of equal length,
    [bsize = 0] makes [generate_language] raise [ValueError] and a
    negative [bsize] makes it return the empty list; in both cases the
    inference interface is never called. *)
Theorem generate_language_bad_bsize {St : Type} (I : Inference St)
  (prompts : list str) (references : list (list str)) (bsize : Z)
  (generation_batches : option Z) (w : world St) :
  length prompts = length references ->
  (bsize = 0%Z ->
   generate_language prompts references bsize generation_batches w
   = (Raise ValueError, w)) /\
  ((bsize < 0)%Z ->
   generate_language prompts references bsize generation_batches w
   = (Ok [], w)).
Proof.
  intros Hlen. unfold generate_language.
  rewrite Hlen, Nat.eqb_refl. cbn [negb]. unfold bind, lift, make_batches.
  split.
  - intros ->. reflexivity.
  - intros Hneg. unfold py_range.
    destruct (Z.eqb_spec bsize 0); [lia|].
    destruct (Z.ltb_spec 0 bsize); [lia|].
    destruct (Z.ltb_spec (Z.of_nat (length prompts)) 0); [lia|].
    reflexivity.
Qed.

Lemma generate_language_bad_bsize_witness :
  generate_language (I := echo_inference) [lit "a"; lit "b"]
    [[lit "x"]; [lit "y"]] 0 None (mk_world 0 [])
  = (Raise ValueError, mk_world 0 []) /\
  generate_language (I := echo_inference) [lit "a"; lit "b"]
    [[lit "x"]; [lit "y"]] (-3) None (mk_world 0 [])
  = (Ok [], mk_world 0 []).
Proof.
  split.
  - apply (generate_language_bad_bsize echo_inference [lit "a"; lit "b"]
             [[lit "x"]; [lit "y"]] 0 None (mk_world 0 []));
      reflexivity.
  - apply (generate_language_bad_bsize echo_inference [lit "a"; lit "b"]
             [[lit "x"]; [lit "y"]] (-3) None (mk_world 0 []));
      [reflexivity | lia].
Defined.

(** X16. Whatever the inference interface returns, with lists of equal
    length and [1 <= bsize] [generate_language] returns without error at
    most one record per prompt, never pairs a prompt with the reference of
    another one (the records follow the order of the input pairs), and
    makes [min k nb] calls, or [nb] without a limit, where [nb] is the
    number of batches. *)
Theorem generate_language_never_mispairs {St : Type} (I : Inference St)
  (prompts : list str) (references : list (list str)) (bsize : Z)
  (generation_batches : option Z) (w : world St) :
  length prompts = length references -> (1 <= bsize)%Z ->
  exists (recs : list gen_record) (cs : list (list str * list str)) (st' : St),
    generate_language prompts references bsize generation_batches w
    = (Ok recs, mk_world st' (calls w ++ cs)) /\
    subseq (map pair_of recs) (combine prompts references) /\
    length recs <= length prompts /\
    length cs
    = match generation_batches with
      | Some k => Nat.min (Z.to_nat k) (batch_count (length prompts) bsize)
      | None => batch_count (length prompts) bsize
      end.
Proof.
  intros Hlen Hb.
  set (nb := batch_count (length prompts) bsize).
  pose proof (generate_language_run prompts references bsize
                generation_batches w Hlen Hb) as Hrun.
  cbv zeta in Hrun. fold nb in Hrun.
  set (m := match generation_batches with
            | Some k => Nat.min (Z.to_nat k) nb
            | None => nb
            end).
  assert (Hbs : processed generation_batches
                  (paired_batches prompts references bsize nb)
                = paired_batches prompts references bsize m).
  { unfold m. destruct generation_batches as [k|]; simpl; [|reflexivity].
    apply paired_batches_firstn. }
  rewrite Hbs in Hrun.
  pose proof (run_subseq (paired_batches prompts references bsize m)
                (inf_state w)) as Hsub.
  pose proof (run_calls (paired_batches prompts references bsize m)
                (inf_state w)) as Hcalls.
  destruct (run_batches (paired_batches prompts references bsize m)
              (inf_state w)) as [[recs cs] st'].
  cbn [fst snd] in *.
  rewrite paired_batches_pairs in Hsub by exact Hb.
  assert (Hall : subseq (map pair_of recs) (combine prompts references)).
  { clear - Hsub. revert Hsub.
    generalize (m * Z.to_nat bsize) as j, (map pair_of recs) as s,
               (combine prompts references) as l.
    intros j s l. revert j s.
    induction l as [|x l IH]; intros j s Hs.
    - now rewrite firstn_nil in Hs.
    - destruct j as [|j]; cbn [firstn] in Hs.
      + inversion Hs. apply subseq_nil_l.
      + inversion Hs as [|? ? ? Hs'|? ? ? Hs']; subst.
        * apply subseq_skip. now apply (IH j).
        * apply subseq_keep. now apply (IH j). }
  exists recs, cs, st'. split; [exact Hrun|]. split; [exact Hall|]. split.
  - apply subseq_length in Hall.
    rewrite length_map, length_combine in Hall. lia.
  - apply (f_equal (@length _)) in Hcalls.
    rewrite !length_map in Hcalls. rewrite Hcalls.
    unfold paired_batches. now rewrite length_map, length_seq.
Qed.

Lemma generate_language_never_mispairs_witness :
  exists (recs : list gen_record) (cs : list (list str * list str)) (st' : nat),
    generate_language (I := terse_inference)
      [lit "a"; lit "b"; lit "c"] [[lit "x"]; [lit "y"]; [lit "z"]] 2 None
      (mk_world 0 [])
    = (Ok recs, mk_world st' ([] ++ cs)) /\
    subseq (map pair_of recs)
      (combine [lit "a"; lit "b"; lit "c"] [[lit "x"]; [lit "y"]; [lit "z"]]) /\
    length cs = 2.
Proof.
  destruct (generate_language_never_mispairs terse_inference
              [lit "a"; lit "b"; lit "c"] [[lit "x"]; [lit "y"]; [lit "z"]]
              2 None (mk_world 0 []))
    as (recs & cs & st' & Hrun & Hsub & _ & Hcalls); [reflexivity | lia |].
  exists recs, cs, st'. auto.
Defined.

(** X17. The records of a batch come from zipping its prompts with the
    outputs of its call: with lists of equal length and [1 <= bsize] the
    number of records returned is the sum, over the calls made, of the
    smaller of the number of prompts sent and the number of outputs
    received.  Prompts the interface gave no output for are dropped
    without an error, and surplus outputs are ignored. *)
Theorem generate_language_record_count {St : Type} (I : Inference St)
  (prompts : list str) (references : list (list str)) (bsize : Z)
  (generation_batches : option Z) (w : world St) :
  length prompts = length references -> (1 <= bsize)%Z ->
  exists (recs : list gen_record) (cs : list (list str * list str)) (st' : St),
    generate_language prompts references bsize generation_batches w
    = (Ok recs, mk_world st' (calls w ++ cs)) /\
    length recs
    = list_sum (map (fun c => Nat.min (length (fst c)) (length (snd c))) cs).
Proof.
  intros Hlen Hb.
  pose proof (generate_language_run prompts references bsize
                generation_batches w Hlen Hb) as Hrun.
  cbv zeta in Hrun.
  set (bs := processed generation_batches _) in Hrun.
  assert (Hbs : Forall (fun x => length (fst x) = length (snd x)) bs).
  { unfold bs. destruct generation_batches as [k|]; cbn [processed].
    - rewrite paired_batches_firstn. now apply paired_batches_aligned.
    - now apply paired_batches_aligned. }
  pose proof (run_lengths bs (inf_state w) Hbs) as Hcount.
  destruct (run_batches bs (inf_state w)) as [[recs cs] st'].
  cbn [fst snd] in *. exists recs, cs, st'. auto.
Qed.

Lemma generate_language_record_count_witness :
  generate_language (I := terse_inference)
    [lit "a"; lit "b"; lit "c"] [[lit "x"]; [lit "y"]; [lit "z"]] 2 None
    (mk_world 0 [])
  = (Ok [mk_record (lit "a") [lit "x"] (lit "a");
         mk_record (lit "c") [lit "z"] (lit "c")],
     mk_world 2 [([lit "a"; lit "b"], [lit "a"]); ([lit "c"], [lit "c"])]) /\
  exists (recs : list gen_record) (cs : list (list str * list str)) (st' : nat),
    generate_language (I := terse_inference)
      [lit "a"; lit "b"; lit "c"] [[lit "x"]; [lit "y"]; [lit "z"]] 2 None
      (mk_world 0 [])
    = (Ok recs, mk_world st' ([] ++ cs)) /\
    length recs
    = list_sum (map (fun c => Nat.min (length (fst c)) (length (snd c))) cs).
Proof.
  split; [reflexivity|].
  apply (generate_language_record_count terse_inference
           [lit "a"; lit "b"; lit "c"] [[lit "x"]; [lit "y"]; [lit "z"]]
           2 None (mk_world 0 [])); [reflexivity | lia].
Defined.

(** X18. A limit that is not below the number of batches changes
    nothing: the run is the run without a limit.  A limit of zero or less
    stops the loop at once: no call is made and the empty list is
    returned. *)
Theorem generate_language_limit_extremes {St : Type} (I : Inference St)
  (prompts : list str) (references : list (list str)) (bsize k : Z)
  (w : world St) :
  length prompts = length references -> (1 <= bsize)%Z ->
  ((Z.of_nat (batch_count (length prompts) bsize) <= k)%Z ->
   generate_language prompts references bsize (Some k) w
   = generate_language prompts references bsize None w) /\
  ((k <= 0)%Z ->
   generate_language prompts references bsize (Some k) w = (Ok [], w)).
Proof.
  intros Hlen Hb.
  rewrite (generate_language_run prompts references bsize (Some k) w Hlen Hb).
  rewrite (generate_language_run prompts references bsize None w Hlen Hb).
  cbn [processed]. split.
  - intros Hk. rewrite firstn_all2; [reflexivity|].
    unfold paired_batches. rewrite length_map, length_seq. lia.
  - intros Hk. replace (Z.to_nat k) with 0 by lia. cbn [firstn].
    rewrite run_nil. cbn [fst snd]. rewrite app_nil_r. now destruct w.
Qed.

Lemma generate_language_limit_extremes_witness :
  generate_language (I := echo_inference)
    [lit "a"; lit "b"; lit "c"] [[lit "x"]; [lit "y"]; [lit "z"]] 2 (Some 5%Z)
    (mk_world 0 [])
  = generate_language (I := echo_inference)
      [lit "a"; lit "b"; lit "c"] [[lit "x"]; [lit "y"]; [lit "z"]] 2 None
      (mk_world 0 []) /\
  generate_language (I := echo_inference)
    [lit "a"; lit "b"; lit "c"] [[lit "x"]; [lit "y"]; [lit "z"]] 2 (Some 0%Z)
    (mk_world 0 [])
  = (Ok [], mk_world 0 []).
Proof.
  split.
  - apply (generate_language_limit_extremes echo_inference
             [lit "a"; lit "b"; lit "c"] [[lit "x"]; [lit "y"]; [lit "z"]]
             2 5 (mk_world 0 [])); [reflexivity | lia |].
    vm_compute. discriminate.
  - apply (generate_language_limit_extremes echo_inference
             [lit "a"; lit "b"; lit "c"] [[lit "x"]; [lit "y"]; [lit "z"]]
             2 0 (mk_world 0 [])); [reflexivity | lia | lia].
Defined.

Lemma batch_count_one (n : nat) (bsize : Z) :
  1 <= n -> (Z.of_nat n <= bsize)%Z -> batch_count n bsize = 1.
Proof.
  intros Hn Hb. unfold batch_count.
  replace ((Z.of_nat n + bsize - 1) / bsize)%Z with 1%Z; [reflexivity|].
  apply (Z.div_unique_pos _ _ 1 (Z.of_nat n - 1)); lia.
Qed.

(** X19. A batch size that covers all the prompts (of which there is at
    least one) gives a single call of the inference interface, with the
    whole prompt list. *)
Theorem generate_language_single_batch {St : Type} (I : Inference St)
  (prompts : list str) (references : list (list str)) (bsize : Z)
  (w : world St) :
  length prompts = length references ->
  prompts <> [] -> (Z.of_nat (length prompts) <= bsize)%Z ->
  exists (outputs : list str) (st' : St),
    generate_from_str prompts (inf_state w) = (outputs, st') /\
    generate_language prompts references bsize None w
    = (Ok (zip_records prompts references outputs),
       mk_world st' (calls w ++ [(prompts, outputs)])).
Proof.
  intros Hlen Hne Hcover.
  assert (Hn : 1 <= length prompts)
    by (destruct prompts; [congruence | simpl; lia]).
  assert (Hb : (1 <= bsize)%Z) by lia.
  rewrite (generate_language_run prompts references bsize None w Hlen Hb).
  cbn [processed]. rewrite (batch_count_one _ _ Hn Hcover).
  unfold paired_batches. cbn [seq map].
  rewrite !batch_nat by exact Hb. cbn [Nat.mul skipn].
  rewrite !firstn_all2 by lia.
  cbn [run_batches].
  destruct (generate_from_str prompts (inf_state w)) as [outputs st'].
  exists outputs, st'.
  cbn [fst snd]. now rewrite app_nil_r.
Qed.

Lemma generate_language_single_batch_witness :
  exists (outputs : list str) (st' : nat),
    generate_language (I := echo_inference)
      [lit "a"; lit "b"] [[lit "x"]; [lit "y"]] 8 None (mk_world 0 [])
    = (Ok (zip_records [lit "a"; lit "b"] [[lit "x"]; [lit "y"]] outputs),
       mk_world st' ([] ++ [([lit "a"; lit "b"], outputs)])).
Proof.
  destruct (generate_language_single_batch echo_inference
              [lit "a"; lit "b"] [[lit "x"]; [lit "y"]] 8 (mk_world 0 []))
    as (outputs & st' & _ & Hrun);
    [reflexivity | discriminate | simpl; lia |].
  exists outputs, st'. exact Hrun.
Defined.

Lemma generate_language_all_pairs {St : Type} (I : Inference St)
  (prompts : list str) (references : list (list str)) (bsize : Z)
  (w : world St) :
  length prompts = length references -> (1 <= bsize)%Z ->
  one_output_per_prompt I ->
  exists (recs : list gen_record) (w' : world St),
    generate_language prompts references bsize None w = (Ok recs, w') /\
    map pair_of recs = combine prompts references.
Proof.
  intros Hlen Hb Hwb.
  rewrite (generate_language_run prompts references bsize None w Hlen Hb).
  cbn [processed].
  set (nb := batch_count (length prompts) bsize).
  destruct (run_aligned (paired_batches prompts references bsize nb)
              (inf_state w) Hwb
              (paired_batches_aligned prompts references bsize nb Hlen))
    as (Hpairs & _).
  do 2 eexists. split; [reflexivity|].
  rewrite Hpairs, paired_batches_pairs by exact Hb.
  apply firstn_all2. rewrite length_combine.
  pose proof (batch_count_covers (length prompts) bsize Hb). fold nb in H. lia.
Qed.

(** X20. The evaluation pipeline.  With an interface that answers with
    one output per prompt, lists of equal length, [1 <= bsize] and no
    limit, the records [generate_language] returns can be scored by
    [compute_metrics] whenever there is at least one prompt and every
    prompt has a reference.  With no prompt at all [generate_language]
    returns the empty list, on which [compute_metrics] raises
    [ValueError]. *)
Theorem evaluation_pipeline {St : Type} (I : Inference St) (S : Scorers)
  (prompts : list str) (references : list (list str)) (bsize : Z)
  (w : world St) :
  length prompts = length references -> (1 <= bsize)%Z ->
  one_output_per_prompt I ->
  (prompts <> [] -> Forall (fun refs => refs <> []) references ->
   exists (recs : list gen_record) (w' : world St) (d : metrics),
     generate_language prompts references bsize None w = (Ok recs, w') /\
     compute_metrics recs = Ok d) /\
  (prompts = [] ->
   generate_language prompts references bsize None w = (Ok [], w) /\
   compute_metrics [] = Raise ValueError).
Proof.
  intros Hlen Hb Hwb.
  destruct (generate_language_all_pairs I prompts references bsize w Hlen Hb Hwb)
    as (recs & w' & Hrun & Hpairs).
  split.
  - intros Hne Hrefs. exists recs, w'.
    assert (Hrecs : map reference recs = references).
    { rewrite <- map_snd_pair_of, Hpairs, map_snd_combine, Hlen.
      apply firstn_all. }
    assert (Hrne : recs <> []).
    { intros ->. simpl in Hrecs. subst references.
      destruct prompts; [congruence | discriminate]. }
    eexists. split; [exact Hrun|].
    apply (compute_metrics_ok S recs Hrne).
    rewrite <- Hrecs in Hrefs. rewrite Forall_map in Hrefs. exact Hrefs.
  - intros ->. split; [|reflexivity].
    destruct references; [|discriminate].
    rewrite (generate_language_run [] [] bsize None w eq_refl Hb).
    cbn [processed length].
    replace (batch_count 0 bsize) with 0.
    + cbn. rewrite app_nil_r. now destruct w.
    + unfold batch_count. rewrite Z.div_small; [reflexivity | lia].
Qed.

Lemma evaluation_pipeline_witness :
  exists (recs : list gen_record) (w' : world nat) (d : metrics),
    generate_language (I := echo_inference)
      [lit "a"; lit "b"; lit "c"] [[lit "x"]; [lit "y"]; [lit "z"]] 2 None
      (mk_world 0 [])
    = (Ok recs, w') /\
    compute_metrics (S := constant_scorers 0) recs = Ok d.
Proof.
  destruct (evaluation_pipeline echo_inference (constant_scorers 0)
              [lit "a"; lit "b"; lit "c"] [[lit "x"]; [lit "y"]; [lit "z"]]
              2 (mk_world 0 [])) as [Hrun _].
  - reflexivity.
  - lia.
  - intros input_strs st. simpl. apply length_map.
  - apply Hrun; [discriminate | repeat constructor; discriminate].
Defined.

(* ================================================================== *)
(** * Further properties of create_percent_bc_data.py *)

Lemma mapM_first_error {A B : Type} (f : A -> result B)
  (good : list A) (bad : A) (rest : list A) (e : exn) :
  Forall (fun x => exists y, f x = Ok y) good -> f bad = Raise e ->
  mapM f (good ++ bad :: rest) = Raise e.
Proof.
  intros Hgood Hbad. induction Hgood as [|x good [y Hy] _ IH]; simpl.
  - now rewrite Hbad.
  - now rewrite Hy, IH.
Qed.

Section FilterErrors.
Context {num : Type} {N : Number num}.




End FilterErrors.

(** X21. The sort key is computed for every record before anything is
    sliced or written: the first record in file order whose key raises
    aborts the script with that exception, whatever its rank would have
    been and however few records there are. *)
Theorem main_aborts_on_first_bad_record {num : Type} (N : Number num)
  (J : JsonCodec num) (lines : list string)
  (good : list (json num)) (bad : json num) (rest : list (json num)) (e : exn) :
  read_all lines = Ok (good ++ bad :: rest) ->
  Forall (fun x => exists k, cumulative_reward x = Ok k) good ->
  cumulative_reward bad = Raise e ->
  main lines = Raise e.
Proof.
  intros Hread Hgood Hbad. unfold main. rewrite Hread. unfold rbind at 1.
  unfold filter_top, py_sorted.
  rewrite (mapM_first_error _ good bad rest e); [reflexivity | |].
  - eapply Forall_impl; [|exact Hgood]. cbv beta. intros x [k ->].
    now eexists.
  - now rewrite Hbad.
Qed.

Lemma main_aborts_on_first_bad_record_witness :
  main (N := py_number) (J := sample_codec) ["2"; "#"; "1"]%string
  = Raise KeyError.
Proof.
  apply (main_aborts_on_first_bad_record py_number sample_codec
           ["2"; "#"; "1"]%string
           [reward_record [PInt 2]]
           (JObj [])
           [reward_record [PInt 1]]
           KeyError).
  - reflexivity.
  - repeat constructor. eexists. reflexivity.
  - reflexivity.
Defined.



(** ** Ties keep their input order *)

Section Stability.
Context {num : Type} {N : Number num} {A : Type}.
Variable ordered : num -> Prop.
Hypothesis Hordered : strict_weak_on ordered.

Lemma tied_below (x y pivot : num) :
  ordered x -> ordered y -> ordered pivot ->
  num_ltb y x = true -> tied x pivot = true -> tied y pivot = false.
Proof.
  destruct Hordered as [_ Hneg].
  unfold tied. intros Hox Hoy Hop Hyx Hx.
  apply andb_true_iff in Hx. destruct Hx as [Hxp Hpx].
  apply negb_true_iff in Hxp, Hpx.
  destruct (num_ltb y pivot) eqn:Hyp; [reflexivity|].
  (* y is not below the pivot, the pivot is not below x: y is not below x *)
  rewrite (Hneg y pivot x Hoy Hop Hox Hyp Hpx) in Hyx. discriminate.
Qed.

Lemma filter_insert_keyed (pivot : num) (x : num * A) (l : list (num * A)) :
  ordered pivot -> ordered (fst x) -> Forall (fun p => ordered (fst p)) l ->
  filter (fun p => tied (fst p) pivot) (insert_keyed x l)
  = filter (fun p => tied (fst p) pivot) (x :: l).
Proof.
  intros Hop Hox. induction 1 as [|y l Hoy _ IH]; [reflexivity|].
  cbn [insert_keyed]. destruct (num_ltb (fst y) (fst x)) eqn:Hyx; [|reflexivity].
  cbn [filter] in *. rewrite IH.
  destruct (tied (fst x) pivot) eqn:Hx; [|reflexivity].
  now rewrite (tied_below (fst x) (fst y) pivot Hox Hoy Hop Hyx Hx).
Qed.

Lemma filter_stable_sort (pivot : num) (l : list (num * A)) :
  ordered pivot -> Forall (fun p => ordered (fst p)) l ->
  filter (fun p => tied (fst p) pivot) (stable_sort l)
  = filter (fun p => tied (fst p) pivot) l.
Proof.
  intros Hop. induction 1 as [|x l Hox Hl IH]; [reflexivity|].
  cbn [stable_sort fold_right]. fold (stable_sort l).
  rewrite filter_insert_keyed; [cbn [filter]; now rewrite IH | exact Hop | exact Hox |].
  now apply (Permutation_Forall (Permutation_sym (stable_sort_perm l))).
Qed.

Lemma filter_keyed (k : A -> num) (pivot : num) (items : list A) :
  map snd (filter (fun p => tied (fst p) pivot) (map (fun x => (k x, x)) items))
  = filter (fun x => tied (k x) pivot) items.
Proof.
  induction items as [|x items IH]; [reflexivity|].
  cbn [map filter fst]. destruct (tied (k x) pivot); cbn [map snd]; now rewrite IH.
Qed.

Lemma filter_map_snd (P : num -> bool) (l : list (num * A)) (k : A -> num) :
  Forall (fun p => fst p = k (snd p)) l ->
  filter (fun x => P (k x)) (map snd l) = map snd (filter (fun p => P (fst p)) l).
Proof.
  induction 1 as [|p l Hp _ IH]; [reflexivity|].
  cbn [map filter]. rewrite <- Hp, IH. now destruct (P (fst p)).
Qed.

Lemma py_sorted_stable (items : list A) (key : A -> result num) (k : A -> num) :
  Forall (fun x => key x = Ok (k x) /\ ordered (k x)) items ->
  exists ranked : list A,
    py_sorted items key true = Ok ranked /\
    forall pivot : num,
      ordered pivot ->
      filter (fun x => tied (k x) pivot) ranked
      = filter (fun x => tied (k x) pivot) items.
Proof.
  intros Hkeys. unfold py_sorted.
  rewrite (mapM_total _ (fun x => (k x, x))).
  2:{ eapply Forall_impl; [|exact Hkeys]. cbv beta. now intros x [-> _]. }
  unfold rbind. eexists. split; [reflexivity|]. intros pivot Hop.
  set (keyed := map (fun x => (k x, x)) items).
  assert (Hok : Forall (fun p => ordered (fst p)) (rev keyed)).
  { apply Forall_rev. unfold keyed. apply Forall_map.
    eapply Forall_impl; [|exact Hkeys]. cbv beta. now intros x [_ Hx]. }
  rewrite (filter_map_snd (fun a => tied a pivot)).
  - rewrite filter_rev, filter_stable_sort, filter_rev, rev_involutive
      by assumption.
    apply filter_keyed.
  - assert (Hperm : Permutation keyed (rev (stable_sort (rev keyed)))).
    { rewrite <- Permutation_rev, stable_sort_perm. apply Permutation_rev. }
    apply (Permutation_Forall Hperm).
    unfold keyed. apply Forall_map, Forall_forall. reflexivity.
Qed.

End Stability.

(** X23. The sort is stable, also with [reverse=True]: in the ranking
    whose first [int(n * 0.1)] records the script keeps, records with
    equal cumulative reward stand in the order they have in the input
    file.  The cumulative rewards are taken to be defined and ordered by
    [<] (no addition overflows, no sum is NaN). *)
Theorem ranking_keeps_ties_in_order {num : Type} (N : Number num)
  (ordered : num -> Prop) (all_data : list (json num)) :
  strict_weak_on ordered ->
  Forall (fun x => exists k, reward_sum x = Some k /\ ordered k) all_data ->
  exists ranked : list (json num),
    py_sorted all_data cumulative_reward true = Ok ranked /\
    (forall k : Z,
       percent_count (Z.of_nat (length all_data)) = Ok k ->
       filter_top all_data = Ok (py_slice_to ranked k)) /\
    forall x : json num,
      ordered (reward_of x) ->
      filter (fun y => tied (reward_of y) (reward_of x)) ranked
      = filter (fun y => tied (reward_of y) (reward_of x)) all_data.
Proof.
  intros Hordered Hwf.
  destruct (py_sorted_stable ordered Hordered all_data cumulative_reward reward_of)
    as (ranked & Hranked & Hties).
  { eapply Forall_impl; [|exact Hwf]. cbv beta. intros x (k & Hk & Hok).
    rewrite (reward_of_sum x k Hk). split; [|exact Hok].
    now apply cumulative_reward_sum. }
  exists ranked. split; [exact Hranked|]. split.
  - intros k Hk. unfold filter_top. now rewrite Hranked, Hk.
  - intros x Hx. now apply Hties.
Qed.

Lemma ranking_keeps_ties_in_order_witness :
  exists ranked : list (json pynum),
    py_sorted (N := py_number) sample_rollouts
      (cumulative_reward (N := py_number)) true
    = Ok ranked /\
    filter_top (N := py_number) sample_rollouts = Ok (py_slice_to ranked 1) /\
    filter (fun y => tied (N := py_number) (reward_of (N := py_number) y)
                          (PInt 3)) ranked
    = [ reward_record [PInt 3]; reward_record [PInt 1; PInt 2];
        reward_record [PInt 2; PInt 1] ].
Proof.
  destruct (ranking_keeps_ties_in_order py_number comparable sample_rollouts)
    as (ranked & Hranked & Hslice & Hties).
  - exact py_strict_weak.
  - exact sample_rollouts_ordered.
  - exists ranked. split; [exact Hranked|]. split.
    + apply Hslice. vm_compute. reflexivity.
    + pose proof (Hties (reward_record [PInt 3])) as H3.
      change (reward_of (N := py_number) (reward_record [PInt 3]))
        with (PInt 3) in H3.
      rewrite H3 by discriminate. vm_compute. reflexivity.
Defined.

